(** * life-onedrive-sync: the main process of the OneDrive authentication app

    A shallow embedding of [index.js] (the Electron main process): the
    module-level references become fields of one [State] record that every
    function threads through, JavaScript objects that closures share
    ([AuthRun], child processes, the auth window) live in heaps indexed by
    allocation order, and an [async] function is cut at its [await]s into the
    pieces the event loop runs one after the other.  What the operating
    system, the external [onedrive] client and the user decide (exit codes,
    signals, file contents, navigation) enters as an argument. *)

From Stdlib Require Import ZArith Ascii String.
From stdpp Require Import base option list gmap strings pretty.

(** ** Strings *)

Definition quote : string := String (ascii_of_nat 34) EmptyString.
Definition newline : string := String (ascii_of_nat 10) EmptyString.

(** [\w] of a JavaScript regular expression without the [u] flag. *)
Definition is_word_char (c : ascii) : bool :=
  let n := nat_of_ascii c in
  (Nat.leb 48 n && Nat.leb n 57) || (Nat.leb 65 n && Nat.leb n 90)
  || (Nat.leb 97 n && Nat.leb n 122) || Nat.eqb n 95.

(** The strings of the model are JavaScript strings in UTF-8, the encoding
    in which [fs.readFile(..., 'utf8')] and [Buffer.toString()] read them. *)
Definition utf8 (bytes : list nat) : string :=
  string_of_list_ascii (ascii_of_nat <$> bytes).

Definition string_rev (s : string) : string :=
  string_of_list_ascii (rev (list_ascii_of_string s)).

(** [starts_with p s] is what is left of [s] after the prefix [p]. *)
Fixpoint starts_with (p s : string) : option string :=
  match p, s with
  | EmptyString, _ => Some s
  | String a p', String b s' => if Ascii.eqb a b then starts_with p' s' else None
  | String _ _, EmptyString => None
  end.

(** The characters [String.prototype.trim] removes, the WhiteSpace and
    LineTerminator code points of ECMAScript: U+0009 to U+000D, U+0020,
    U+00A0, U+1680, U+2000 to U+200A, U+2028, U+2029, U+202F, U+205F, U+3000
    and U+FEFF. *)
Definition white_space : list string :=
  utf8 <$> [[9]; [10]; [11]; [12]; [13]; [32];
            [194; 160];
            [225; 154; 128];
            [226; 128; 128]; [226; 128; 129]; [226; 128; 130]; [226; 128; 131];
            [226; 128; 132]; [226; 128; 133]; [226; 128; 134]; [226; 128; 135];
            [226; 128; 136]; [226; 128; 137]; [226; 128; 138];
            [226; 128; 168]; [226; 128; 169];
            [226; 128; 175];
            [226; 129; 159];
            [227; 128; 128];
            [239; 187; 191]].

(** What is left of [s] after one of the strings [ws] at its head. *)
Fixpoint skip_one (ws : list string) (s : string) : option string :=
  match ws with
  | [] => None
  | w :: ws' =>
      match starts_with w s with
      | Some rest => Some rest
      | None => skip_one ws' s
      end
  end.

(** [s] without the strings of [ws] at its head; [fuel] bounds their number,
    the length of [s] is enough. *)
Fixpoint skip_all (fuel : nat) (ws : list string) (s : string) : string :=
  match fuel with
  | 0 => s
  | S n =>
      match skip_one ws s with
      | Some rest => skip_all n ws rest
      | None => s
      end
  end.

Definition strip (ws : list string) (s : string) : string :=
  skip_all (String.length s) ws s.

Definition trim_start (s : string) : string := strip white_space s.

Definition trim_end (s : string) : string :=
  string_rev (strip (string_rev <$> white_space) (string_rev s)).

Definition trim (s : string) : string := trim_end (trim_start s).

Fixpoint ends_with (p s : string) : bool :=
  match starts_with p s with
  | Some EmptyString => true
  | _ => match s with
         | EmptyString => false
         | String _ s' => ends_with p s'
         end
  end.

(** A word boundary behind a word character: the end of the input or a
    character that is not a word character. *)
Definition boundary_behind (rest : string) : bool :=
  match rest with
  | EmptyString => true
  | String c _ => negb (is_word_char c)
  end.

(** The position behind [pre] has no word character before it, when [prev]
    tells whether one stands before [pre]. *)
Fixpoint boundary_before (prev : bool) (pre : string) : bool :=
  match pre with
  | EmptyString => negb prev
  | String c pre' => boundary_before (is_word_char c) pre'
  end.

(** [/\bsync_dir\b/.test(s)], scanning [s] from the left; [prev] tells
    whether the character before the current position is a word character. *)
Fixpoint test_sync_dir (prev : bool) (s : string) : bool :=
  (negb prev
   && match starts_with "sync_dir" s with
      | Some rest => boundary_behind rest
      | None => false
      end)
  || match s with
     | EmptyString => false
     | String c s' => test_sync_dir (is_word_char c) s'
     end.

(** ** Results of calls that may throw *)

Inductive Outcome (A : Type) : Type :=
| Returned (a : A)
| Thrown (e : string).
Arguments Returned {A} a.
Arguments Thrown {A} e.

(** ** The file system

    Regular files with their content and the set of directories.  [unlink]
    and [readFile] throw on a missing file; [mkdir] (recursive) and
    [writeFile] throw where the operating system refuses them, which the
    [FsFaults] of a call tell. *)

Record FileSystem := mkFS {
  files : gmap string string;
  dirs : gset string
}.

Record FsFaults := mkFaults {
  mkdir_fails : string → bool;
  writeFile_fails : string → bool
}.

Definition no_faults : FsFaults := mkFaults (λ _, false) (λ _, false).

Definition existsSync (p : string) (d : FileSystem) : bool :=
  bool_decide (is_Some (files d !! p)) || bool_decide (p ∈ dirs d).

Definition readFile (p : string) (d : FileSystem) : Outcome string :=
  match files d !! p with
  | Some c => Returned c
  | None => Thrown "ENOENT"
  end.

Definition unlink (p : string) (d : FileSystem) : Outcome FileSystem :=
  match files d !! p with
  | Some _ => Returned (mkFS (delete p (files d)) (dirs d))
  | None => Thrown "ENOENT"
  end.

Definition mkdir (flt : FsFaults) (p : string) (d : FileSystem) : Outcome FileSystem :=
  if mkdir_fails flt p then Thrown "EACCES"
  else Returned (mkFS (files d) ({[p]} ∪ dirs d)).

Definition writeFile (flt : FsFaults) (p c : string) (d : FileSystem) : Outcome FileSystem :=
  if writeFile_fails flt p then Thrown "EACCES"
  else Returned (mkFS (<[p:=c]> (files d)) (dirs d)).

(** A rendezvous file holds nothing for a watcher: it is missing or empty. *)
Definition absent_or_empty (p : string) (d : FileSystem) : Prop :=
  match files d !! p with
  | None => True
  | Some c => c = EmptyString
  end.

Section Paths.

(** [os.homedir()] *)
Variable homedir : string.

Definition path_join (a b : string) : string := a +:+ "/" +:+ b.

Definition ONEDRIVE_CONFIG_DIR : string := path_join (path_join homedir ".config") "onedrive".
Definition ONEDRIVE_AUTH_DIR : string := path_join ONEDRIVE_CONFIG_DIR "auth".
Definition ONEDRIVE_REQUEST_FILE : string := path_join ONEDRIVE_AUTH_DIR "request.url".
Definition ONEDRIVE_RESPONSE_FILE : string := path_join ONEDRIVE_AUTH_DIR "response.url".
Definition ONEDRIVE_CONFIG_FILE : string := path_join ONEDRIVE_CONFIG_DIR "config".
Definition ONEDRIVE_DEFAULT_SYNC_DIR : string := path_join homedir "OneDrive-Temp".
Definition tokenPath : string := path_join ONEDRIVE_CONFIG_DIR "refresh_token".

(** ** ensureOnedriveConfig *)

Definition hasSyncDir (existing : string) : bool := test_sync_dir false existing.

Definition default_config : string :=
  "sync_dir = " +:+ quote +:+ ONEDRIVE_DEFAULT_SYNC_DIR +:+ quote +:+ newline
  +:+ "sync_business_shared_items = " +:+ quote +:+ "false" +:+ quote +:+ newline.

Definition ensureOnedriveConfig (flt : FsFaults) (d : FileSystem) : FileSystem :=
  match mkdir flt ONEDRIVE_CONFIG_DIR d with
  | Thrown _ => d
  | Returned d1 =>
      let existing :=
        match readFile ONEDRIVE_CONFIG_FILE d1 with
        | Returned c => c
        | Thrown _ => EmptyString
        end in
      if hasSyncDir existing then d1
      else
        match writeFile flt ONEDRIVE_CONFIG_FILE default_config d1 with
        | Thrown _ => d1
        | Returned d2 =>
            match mkdir flt ONEDRIVE_DEFAULT_SYNC_DIR d2 with
            | Returned d3 => d3
            | Thrown _ => d2
            end
        end
  end.

(** ** The stale-file cleanup of [start-onedrive-auth]: both [unlink]s sit in
    one [try] block. *)

Definition clearOldAuthFiles (d : FileSystem) : FileSystem :=
  match unlink ONEDRIVE_REQUEST_FILE d with
  | Thrown _ => d
  | Returned d1 =>
      match unlink ONEDRIVE_RESPONSE_FILE d1 with
      | Thrown _ => d1
      | Returned d2 => d2
      end
  end.

End Paths.

(** ** RedirectClassifier *)

(** What the classifier reads of a parsed [URL] object. *)
Record URL := mkURL {
  hostname : string;
  pathname : string
}.

Section Classifier.

(** [new URL(ustr)] of the platform; [None] when the constructor throws. *)
Variable parseURL : string → option URL.

Definition isRedirectUrl (initialAuthUrl url : string) : bool :=
  if bool_decide (url = EmptyString) then false
  else if bool_decide (url = initialAuthUrl) then false
  else
    match parseURL url with
    | None => false
    | Some u =>
        let isNativeClient :=
          bool_decide (hostname u = "login.microsoftonline.com")
          && ends_with "/oauth2/nativeclient" (pathname u) in
        let isLocal :=
          bool_decide (hostname u = "localhost")
          || bool_decide (hostname u = "127.0.0.1") in
        isNativeClient || isLocal
    end.

End Classifier.

(** ASCII letters without their case, as a regular expression with the [i]
    flag (and without the [u] flag) compares them. *)
Definition lower (c : ascii) : ascii :=
  let n := nat_of_ascii c in
  if Nat.leb 65 n && Nat.leb n 90 then ascii_of_nat (n + 32) else c.

Fixpoint lowercase (s : string) : string :=
  match s with
  | EmptyString => EmptyString
  | String c s' => String (lower c) (lowercase s')
  end.

(** ** Data model *)

(** An auth attempt; [id] is [Date.now()] at its creation.  Runs are compared
    by reference ([activeAuthRun === run]), so a run is named by its place in
    the heap [runs] of the state, never by [id]. *)
Record AuthRun := mkAuthRun {
  id : Z;
  settled : bool
}.

Inductive Channel := auth_result | sync_result.

Inductive Status := info | success | warning | error | completed.

Record StatusEvent := mkEvent {
  channel : Channel;
  status : Status;
  message : string
}.

Inductive Signal := SIGTERM | SIGKILL | SIGINT | SIGHUP.

#[global] Instance Signal_eq_dec : EqDecision Signal.
Proof. solve_decision. Defined.

(** The callbacks the program registers on a child process. *)
Inductive Listener :=
| AuthErrorObserver (run : nat)   (* onedriveProcess.on('error', ...) *)
| AuthExitObserver (run : nat)    (* onedriveProcess.on('exit', ...) *)
| DecideAfterExit                 (* onedriveProcess.once(..., () => decideAfterExit()) *)
| MonitorExitLogger.              (* onedriveMonitorProcess.on('exit', ...): logs only *)

Definition is_once (l : Listener) : bool :=
  match l with
  | DecideAfterExit => true
  | _ => false
  end.

Record ChildProcess := mkChild {
  command : string;
  args : list string;
  pid : option nat;               (* undefined when the process could not start *)
  exitCode : option Z;            (* null until the process ended with a code *)
  signalCode : option Signal;     (* null unless a signal ended the process *)
  onError : list Listener;
  onExit : list Listener;
  onClose : list Listener
}.

(** The auth [BrowserWindow] with what the closures of [openAuthWindow] hold. *)
Record AuthWindow := mkWindow {
  window_run : option nat;
  initialAuthUrl : string;
  redirectHandled : bool;
  closedListener : bool;          (* the once('closed') handler is still registered *)
  destroyed : bool
}.

(** What a command handler returns to the renderer. *)
Inductive Reply :=
| AuthStarted (url : string)
| Ok
| Failed (reason : option string).

Record State := mkState {
  runs : list AuthRun;
  activeAuthRun : option nat;
  windows : list AuthWindow;
  authWindow : option nat;
  children : list ChildProcess;
  onedriveProcess : option nat;
  onedriveMonitorProcess : option nat;
  isQuitting : bool;
  win : bool;                          (* the main window exists and is not destroyed *)
  disk : FileSystem;
  delivered : list StatusEvent;        (* what reached the presentation layer, oldest first *)
  signals : list (nat * Signal)        (* signals sent, by pid, oldest first *)
}.

Definition set_runs v s := mkState v (activeAuthRun s) (windows s) (authWindow s) (children s) (onedriveProcess s) (onedriveMonitorProcess s) (isQuitting s) (win s) (disk s) (delivered s) (signals s).
Definition set_activeAuthRun v s := mkState (runs s) v (windows s) (authWindow s) (children s) (onedriveProcess s) (onedriveMonitorProcess s) (isQuitting s) (win s) (disk s) (delivered s) (signals s).
Definition set_windows v s := mkState (runs s) (activeAuthRun s) v (authWindow s) (children s) (onedriveProcess s) (onedriveMonitorProcess s) (isQuitting s) (win s) (disk s) (delivered s) (signals s).
Definition set_authWindow v s := mkState (runs s) (activeAuthRun s) (windows s) v (children s) (onedriveProcess s) (onedriveMonitorProcess s) (isQuitting s) (win s) (disk s) (delivered s) (signals s).
Definition set_children v s := mkState (runs s) (activeAuthRun s) (windows s) (authWindow s) v (onedriveProcess s) (onedriveMonitorProcess s) (isQuitting s) (win s) (disk s) (delivered s) (signals s).
Definition set_onedriveProcess v s := mkState (runs s) (activeAuthRun s) (windows s) (authWindow s) (children s) v (onedriveMonitorProcess s) (isQuitting s) (win s) (disk s) (delivered s) (signals s).
Definition set_onedriveMonitorProcess v s := mkState (runs s) (activeAuthRun s) (windows s) (authWindow s) (children s) (onedriveProcess s) v (isQuitting s) (win s) (disk s) (delivered s) (signals s).
Definition set_isQuitting v s := mkState (runs s) (activeAuthRun s) (windows s) (authWindow s) (children s) (onedriveProcess s) (onedriveMonitorProcess s) v (win s) (disk s) (delivered s) (signals s).
Definition set_disk v s := mkState (runs s) (activeAuthRun s) (windows s) (authWindow s) (children s) (onedriveProcess s) (onedriveMonitorProcess s) (isQuitting s) (win s) v (delivered s) (signals s).
Definition set_delivered v s := mkState (runs s) (activeAuthRun s) (windows s) (authWindow s) (children s) (onedriveProcess s) (onedriveMonitorProcess s) (isQuitting s) (win s) (disk s) v (signals s).
Definition set_signals v s := mkState (runs s) (activeAuthRun s) (windows s) (authWindow s) (children s) (onedriveProcess s) (onedriveMonitorProcess s) (isQuitting s) (win s) (disk s) (delivered s) v.

(** The state when the app is ready: [createWindow] has run, nothing else. *)
Definition initial (d : FileSystem) : State :=
  mkState [] None [] None [] None None false true d [] [].

(** ** Sending to the presentation layer *)

Definition send (ch : Channel) (st : Status) (msg : string) (s : State) : State :=
  set_delivered (delivered s ++ [mkEvent ch st msg]) s.

(** [win?.webContents?.send(...)] *)
Definition winSend (ch : Channel) (st : Status) (msg : string) (s : State) : State :=
  if win s then send ch st msg s else s.

Definition uiSend (ch : Channel) (st : Status) (msg : string) (s : State) : State :=
  if isQuitting s then s
  else if win s then send ch st msg s else s.

(** A terminal event of an auth run: [completed], or a failure. *)
Definition terminal (e : StatusEvent) : bool :=
  match channel e, status e with
  | auth_result, completed => true
  | auth_result, error => true
  | _, _ => false
  end.

(** ** Child processes *)

(** [spawn(cmd, args)]: a new [ChildProcess] object, with the pid the
    operating system gave it. *)
Definition spawn (cmd : string) (a : list string) (p : option nat) (s : State) : nat * State :=
  (length (children s),
   set_children (children s ++ [mkChild cmd a p None None [] [] []]) s).

(** [process.kill(pid, sig)] when it does not throw. *)
Definition process_kill (p : nat) (sig : Signal) (s : State) : State :=
  set_signals (signals s ++ [(p, sig)]) s.

(** [child.kill()]: SIGTERM, unless the child never started or has ended. *)
Definition child_kill (c : nat) (s : State) : State :=
  match children s !! c with
  | Some ch =>
      match pid ch, exitCode ch, signalCode ch with
      | Some p, None, None => process_kill p SIGTERM s
      | _, _, _ => s
      end
  | None => s
  end.

Definition add_listeners (c : nat) (err ex cl : list Listener) (s : State) : State :=
  match children s !! c with
  | Some ch =>
      set_children
        (<[c := mkChild (command ch) (args ch) (pid ch) (exitCode ch) (signalCode ch)
                        (onError ch ++ err) (onExit ch ++ ex) (onClose ch ++ cl)]>
           (children s)) s
  | None => s
  end.

(** How a child ends: the arguments of its ['exit'] event. *)
Definition show_code (code : option Z) : string :=
  match code with
  | Some z => pretty z
  | None => "null"
  end.

(** ** AuthRun bookkeeping *)

Definition beginAuthRun (now : Z) (s : State) : nat * State :=
  let run := length (runs s) in
  (run, set_activeAuthRun (Some run) (set_runs (runs s ++ [mkAuthRun now false]) s)).

(** [!run || run.settled]; a reference always points into the heap. *)
Definition run_settled (s : State) (run : option nat) : bool :=
  match run with
  | None => true
  | Some r =>
      match runs s !! r with
      | Some a => settled a
      | None => true
      end
  end.

Definition settleAuthRun (run : option nat) (s : State) : State :=
  if run_settled s run then s
  else
    match run with
    | None => s
    | Some r =>
        let s1 := set_runs (alter (λ a, mkAuthRun (id a) true) r (runs s)) s in
        if bool_decide (activeAuthRun s1 = Some r) then set_activeAuthRun None s1 else s1
    end.

(** [authWindow.close()] on a window that is not destroyed. *)
Definition window_close (w : nat) (s : State) : State :=
  set_windows
    (alter (λ a, mkWindow (window_run a) (initialAuthUrl a) (redirectHandled a)
                          (closedListener a) true) w (windows s)) s.

Definition window_destroyed (s : State) (w : nat) : bool :=
  match windows s !! w with
  | Some a => destroyed a
  | None => true
  end.

(** [message || 'OneDrive Authentifizierung fehlgeschlagen'] *)
Definition safe_message (msg : string) : string :=
  match msg with
  | EmptyString => "OneDrive Authentifizierung fehlgeschlagen"
  | _ => msg
  end.

Definition failAuthFlow (msg : string) (run : option nat) (s : State) : State :=
  if run_settled s run then s
  else
    let s := settleAuthRun run s in
    let safeMessage := safe_message msg in
    let s :=
      match authWindow s with
      | Some w => if window_destroyed s w then s else window_close w s
      | None => s
      end in
    let s := set_authWindow None s in
    let s :=
      match onedriveProcess s with
      | Some p => set_onedriveProcess None (child_kill p s)
      | None => s
      end in
    uiSend auth_result error safeMessage s.

(** [process.on('uncaughtException')] and [process.on('unhandledRejection')]:
    [failAuthFlow] with its default run, [activeAuthRun]. *)
Definition uncaughtException (s : State) : State :=
  failAuthFlow "Unbekannter Fehler während der Authentifizierung" (activeAuthRun s) s.

Definition unhandledRejection (s : State) : State :=
  failAuthFlow "Unerwarteter Fehler während der Authentifizierung" (activeAuthRun s) s.

(** How [which onedrive] ends for [checkOnedriveInstallation]. *)
Inductive CheckOutcome :=
| CheckExit (code : option Z)
| CheckError.

(** The events a pending [stopOnedriveMonitorGracefully] call waits for. *)
Inductive StopEvent := TimerFires | ExitEmitted | CloseEmitted.

(** The closure of one [stopOnedriveMonitorGracefully] call. *)
Record StopCall := mkStop {
  stop_pid : option nat;
  resolved : bool;                (* the flag that guards [done] *)
  timeoutArmed : bool;            (* setTimeout(..., 3000) is pending *)
  exitListener : bool;            (* once('exit') is still registered *)
  closeListener : bool;           (* once('close') is still registered *)
  resolutions : list bool         (* every call of [resolve], oldest first *)
}.

Inductive Stream := stdout | stderr.

(** How the one-shot sync process ends, as far as the handler waits for it:
    it emits ['exit'] with a code, or it never does, or it could not be
    spawned and emits ['error'] instead. *)
Inductive SyncOutcome :=
| SyncExits (code : option Z)
| SyncPending
| SyncSpawnError.

(** What the outside world decides during one [force-sync]. *)
Record SyncEnv := mkSyncEnv {
  which_pid : option nat;
  which_outcome : CheckOutcome;
  sigterm_throws : bool;          (* process.kill(pid, 'SIGTERM') throws *)
  stop_events : list StopEvent;   (* timer and old monitor events, in order *)
  sync_pid : option nat;
  sync_output : list (Stream * string);  (* the chunks that come before 'exit' *)
  sync_outcome : SyncOutcome;
  monitor_pid : option nat
}.

(** The code of the ['exit'] event of the sync process, if one comes. *)
Definition sync_exit (env : SyncEnv) : option (option Z) :=
  match sync_outcome env with
  | SyncExits code => Some code
  | SyncPending | SyncSpawnError => None
  end.

Section Controller.

Variable homedir : string.
Variable parseURL : string → option URL.

Local Abbreviation CONFIG_DIR := (ONEDRIVE_CONFIG_DIR homedir).
Local Abbreviation REQUEST_FILE := (ONEDRIVE_REQUEST_FILE homedir).
Local Abbreviation RESPONSE_FILE := (ONEDRIVE_RESPONSE_FILE homedir).

(** ** MonitorSupervisor *)

(** [startOnedriveMonitor]; [mpid] is the pid of the process it spawns.
    [spawn] does not throw here, so the [catch] block has nothing to report;
    the listeners on the output of the monitor, which turn its lines into
    [sync-result] events, are not part of a [ChildProcess] here. *)
Definition startOnedriveMonitor (mpid : option nat) (s : State) : State :=
  let s :=
    match onedriveMonitorProcess s with
    | Some m => set_onedriveMonitorProcess None (child_kill m s)
    | None => s
    end in
  let '(m, s) := spawn "onedrive" ["--confdir"; CONFIG_DIR; "--monitor"] mpid s in
  let s := set_onedriveMonitorProcess (Some m) s in
  let s := add_listeners m [] [MonitorExitLogger] [] s in
  uiSend auth_result info "OneDrive Monitor gestartet" s.

(** [onedriveMonitorProcess.pid] when the reference is set and the pid is a
    number. *)
Definition monitor_pid_number (s : State) : option nat :=
  match onedriveMonitorProcess s with
  | Some m =>
      match children s !! m with
      | Some ch => pid ch
      | None => None
      end
  | None => None
  end.

Definition done (result : bool) (c : StopCall) : StopCall :=
  if resolved c then c
  else mkStop (stop_pid c) true (timeoutArmed c) (exitListener c) (closeListener c)
              (resolutions c ++ [result]).

Definition clearTimeout (c : StopCall) : StopCall :=
  mkStop (stop_pid c) (resolved c) false (exitListener c) (closeListener c) (resolutions c).

(** The executor of the promise [stopOnedriveMonitorGracefully] returns, up
    to the registration of the timer and the two listeners. *)
Definition stopOnedriveMonitorGracefully (throws : bool) (s : State) : State * StopCall :=
  match monitor_pid_number s with
  | None => (s, mkStop None false false false false [false])
  | Some p =>
      let c := mkStop (Some p) false false false false [] in
      if throws then (s, done false c)
      else (process_kill p SIGTERM s, mkStop (Some p) false true true true [])
  end.

(** One event delivered to a pending call: the 3000 ms timer, or ['exit'] or
    ['close'] of the monitor the listeners were registered on. *)
Definition stop_event (e : StopEvent) (sc : State * StopCall) : State * StopCall :=
  let '(s, c) := sc in
  match e with
  | TimerFires =>
      if timeoutArmed c then
        let s := match stop_pid c with Some p => process_kill p SIGKILL s | None => s end in
        let s := set_onedriveMonitorProcess None s in
        let s := winSend sync_result warning "Monitor musste zwangsweise beendet werden" s in
        (s, done true (clearTimeout c))
      else sc
  | ExitEmitted =>
      if exitListener c then
        let c := mkStop (stop_pid c) (resolved c) false false (closeListener c) (resolutions c) in
        (set_onedriveMonitorProcess None s, done true c)
      else sc
  | CloseEmitted =>
      if closeListener c then
        let c := mkStop (stop_pid c) (resolved c) false (exitListener c) false (resolutions c) in
        (set_onedriveMonitorProcess None s, done true c)
      else sc
  end.

Definition stop_run (throws : bool) (evs : list StopEvent) (s : State) : State * StopCall :=
  foldl (λ sc e, stop_event e sc) (stopOnedriveMonitorGracefully throws s) evs.

(** ** checkOnedriveInstallation *)

Definition installed (o : CheckOutcome) : bool :=
  match o with
  | CheckExit code => bool_decide (code = Some 0%Z)
  | CheckError => false
  end.

Definition checkOnedriveInstallation (wpid : option nat) (o : CheckOutcome) (s : State)
  : bool * State :=
  let '(_, s) := spawn "which" ["onedrive"] wpid s in
  (installed o, s).

(** ** SyncController: the [force-sync] command *)

Definition sync_data (chunk : Stream * string) (s : State) : State :=
  match chunk with
  | (stdout, msg) => winSend sync_result info (trim msg) s
  | (stderr, msg) => winSend sync_result warning (trim msg) s
  end.

(** The state when the handler returns, or when it comes to rest for good
    at an [await].  The reply is [None] while a promise the handler awaits
    stays pending: the graceful stop before its first event, or a sync
    process that never emits ['exit'].  That process has no listener for
    ['error']: when it cannot be spawned the event becomes an uncaught
    exception, the handler of the process for those runs, and no ['exit']
    follows.  [spawn] itself does not throw here, so the [catch] block is not
    reached.  The chunks the streams of the sync process deliver after
    ['exit'] arrive when the handler has returned: each is a [sync_data] of
    its own. *)
Definition forceSync (env : SyncEnv) (s : State) : State * option Reply :=
  let '(isOnedriveInstalled, s) :=
    checkOnedriveInstallation (which_pid env) (which_outcome env) s in
  if negb isOnedriveInstalled then
    (winSend sync_result error
       "OneDrive ist nicht installiert. Bitte installieren Sie es zuerst." s,
     Some (Failed (Some "onedrive-not-installed")))
  else
    let hasToken := existsSync (tokenPath homedir) (disk s) in
    if negb hasToken then
      (winSend sync_result error
         "Kein OneDrive Token gefunden – bitte zuerst authentifizieren" s,
       Some (Failed (Some "no-token")))
    else
      let '(s, call) := stop_run (sigterm_throws env) (stop_events env) s in
      match resolutions call with
      | [] => (s, None)
      | wasRunning :: _ =>
          let s :=
            if wasRunning
            then winSend sync_result info "Monitor gestoppt – führe Sofort-Sync aus" s
            else s in
          let '(_, s) := spawn "onedrive" ["--confdir"; CONFIG_DIR; "--sync"] (sync_pid env) s in
          match sync_outcome env with
          | SyncSpawnError => (uncaughtException s, None)
          | SyncPending => (foldl (λ s chunk, sync_data chunk s) s (sync_output env), None)
          | SyncExits code =>
              let s := foldl (λ s chunk, sync_data chunk s) s (sync_output env) in
              let syncOk := bool_decide (code = Some 0%Z) in
              let s :=
                if syncOk
                then winSend sync_result success "Einmaliger Sync abgeschlossen" s
                else winSend sync_result error
                       ("Einmaliger Sync fehlgeschlagen (Code " +:+ show_code code +:+ ")") s in
              let s := if wasRunning || syncOk then startOnedriveMonitor (monitor_pid env) s else s in
              (s, Some (if syncOk then Ok else Failed None))
          end
      end.

(** The monitor processes among the children spawned so far: [onedrive] with
    [--monitor] as its last argument. *)
Definition is_monitor (ch : ChildProcess) : bool :=
  bool_decide (command ch = "onedrive") && bool_decide (last (args ch) = Some "--monitor").

Definition monitors_spawned (s : State) : nat := length (filter is_monitor (children s)).

(** ** AuthRunController *)

(** [decideAfterExit] of [handleAuthRedirect]: it reads the token file and
    reports; it looks at no run. *)
Definition decideAfterExit (mpid : option nat) (s : State) : State :=
  let tokenExists := existsSync (tokenPath homedir) (disk s) in
  if tokenExists then
    startOnedriveMonitor mpid
      (winSend auth_result completed "OneDrive Authentifizierung abgeschlossen" s)
  else
    winSend auth_result error
      "OneDrive Authentifizierung fehlgeschlagen (kein Token gefunden)" s.

(** The ['exit'] observer that [start-onedrive-auth] registers on the auth
    process. *)
Definition authExitObserver (run : nat) (code : option Z) (signal : option Signal)
    (s : State) : State :=
  let s := set_onedriveProcess None s in
  if bool_decide (signal = Some SIGTERM) || bool_decide (signal = Some SIGKILL) then s
  else if bool_decide (code ≠ Some 0%Z) then
    failAuthFlow ("OneDrive Authentifizierung fehlgeschlagen (Code " +:+ show_code code +:+ ")")
                 (Some run) s
  else s.

Definition run_listener (mpid : option nat) (code : option Z) (signal : option Signal)
    (s : State) (l : Listener) : State :=
  match l with
  | AuthErrorObserver run =>
      failAuthFlow "OneDrive Prozess konnte nicht gestartet werden" (Some run) s
  | AuthExitObserver run => authExitObserver run code signal s
  | DecideAfterExit => decideAfterExit mpid s
  | MonitorExitLogger => s
  end.

Definition keep_listeners (ls : list Listener) : list Listener :=
  filter (λ l, is_once l = false) ls.

(** The child [c] emits ['exit']: Node has set [exitCode] and [signalCode],
    the listeners run in the order of their registration, a [once] listener
    is removed as it runs. *)
Definition emit_exit (mpid : option nat) (c : nat) (code : option Z) (signal : option Signal)
    (s : State) : State :=
  match children s !! c with
  | None => s
  | Some ch =>
      let ch' := mkChild (command ch) (args ch) (pid ch) code signal
                         (onError ch) (keep_listeners (onExit ch)) (onClose ch) in
      foldl (run_listener mpid code signal) (set_children (<[c := ch']> (children s)) s)
            (onExit ch)
  end.

(** The child [c] emits ['close'], after ['exit'], once its streams are closed. *)
Definition emit_close (mpid : option nat) (c : nat) (s : State) : State :=
  match children s !! c with
  | None => s
  | Some ch =>
      let ch' := mkChild (command ch) (args ch) (pid ch) (exitCode ch) (signalCode ch)
                         (onError ch) (onExit ch) (keep_listeners (onClose ch)) in
      foldl (run_listener mpid (exitCode ch) (signalCode ch))
            (set_children (<[c := ch']> (children s)) s) (onClose ch)
  end.

(** The child [c] emits ['error']: it could not be spawned or killed.  On a
    child without a listener for it the event is thrown and becomes an
    uncaught exception.  The check process of [checkOnedriveInstallation] has
    a listener that only resolves the promise of the check, the [CheckError]
    of its [CheckOutcome]. *)
Definition emit_error (mpid : option nat) (c : nat) (s : State) : State :=
  match children s !! c with
  | None => s
  | Some ch =>
      match onError ch with
      | [] => if bool_decide (command ch = "which") then s else uncaughtException s
      | listeners => foldl (run_listener mpid None None) s listeners
      end
  end.

(** [handleAuthRedirect] after [await fs.writeFile(...)] has returned. *)
Definition handleAuthRedirect_written (mpid : option nat) (run : option nat) (s : State)
  : State :=
  let s :=
    match authWindow s with
    | Some w => set_authWindow None (window_close w (settleAuthRun run s))
    | None => s
    end in
  let s := winSend auth_result success "Authentifizierung erfolgreich abgeschlossen" s in
  match onedriveProcess s with
  | Some p =>
      match children s !! p with
      | Some ch =>
          match exitCode ch with
          | Some _ => decideAfterExit mpid s
          | None => add_listeners p [] [DecideAfterExit] [DecideAfterExit] s
          end
      | None => s
      end
  | None => decideAfterExit mpid s
  end.

Definition handleAuthRedirect (flt : FsFaults) (mpid : option nat) (redirectUrl : string)
    (run : option nat) (s : State) : State :=
  match writeFile flt RESPONSE_FILE redirectUrl (disk s) with
  | Returned d => handleAuthRedirect_written mpid run (set_disk d s)
  | Thrown _ => failAuthFlow "Fehler beim Verarbeiten der Authentifizierung" run s
  end.

(** [tryHandle] of the window [w], for every navigation event of its
    [webContents] and for its window-open handler. *)
Definition tryHandle (flt : FsFaults) (mpid : option nat) (w : nat) (url : string)
    (s : State) : State :=
  match windows s !! w with
  | None => s
  | Some a =>
      if negb (redirectHandled a) && isRedirectUrl parseURL (initialAuthUrl a) url then
        let a' := mkWindow (window_run a) (initialAuthUrl a) true (closedListener a)
                           (destroyed a) in
        handleAuthRedirect flt mpid url (window_run a) (set_windows (<[w := a']> (windows s)) s)
      else s
  end.

(** The once(['closed']) handler of the window [w]. *)
Definition window_closed (w : nat) (s : State) : State :=
  match windows s !! w with
  | None => s
  | Some a =>
      if closedListener a then
        let a' := mkWindow (window_run a) (initialAuthUrl a) (redirectHandled a) false true in
        let s := set_authWindow None (set_windows (<[w := a']> (windows s)) s) in
        if run_settled s (window_run a) then s
        else failAuthFlow "Authentifizierung wurde abgebrochen" (window_run a) s
      else s
  end.

(** [openAuthWindow] up to the registration of its handlers; loading the
    URL and showing the window change nothing of the state. *)
Definition openAuthWindow (authUrl : string) (run : option nat) (s : State) : State :=
  let s :=
    match authWindow s with
    | Some w => window_close w s
    | None => s
    end in
  let w := length (windows s) in
  set_authWindow (Some w)
    (set_windows (windows s ++ [mkWindow run authUrl false true false]) s).

(** One poll of [waitForAuthUrl]: the trimmed content of the request file
    when it has any. *)
Definition checkFile (d : FileSystem) : Outcome (option string) :=
  if existsSync REQUEST_FILE d then
    match readFile REQUEST_FILE d with
    | Returned content =>
        match trim content with
        | EmptyString => Returned None
        | url => Returned (Some url)
        end
    | Thrown e => Thrown e
    end
  else Returned None.

(** [waitForAuthUrl] over the file system as each poll finds it, one poll
    every 200 ms until the 120000 ms timer rejects. *)
Fixpoint waitForAuthUrl (polls : list FileSystem) : Outcome string :=
  match polls with
  | [] => Thrown "Timeout: Keine Auth-URL erhalten"
  | d :: later =>
      match checkFile d with
      | Returned (Some url) => Returned url
      | Returned None => waitForAuthUrl later
      | Thrown e => Thrown e
      end
  end.

(** *** The [start-onedrive-auth] command, cut at its [await]s *)

(** The [catch] block of the handler. *)
Definition startAuth_catch (e : string) (s : State) : State * Reply :=
  let s := failAuthFlow "OneDrive Authentifizierung fehlgeschlagen" (activeAuthRun s) s in
  (send auth_result error e s, Failed None).

(** Up to [await checkOnedriveInstallation()]. *)
Definition startAuth_begin (now : Z) (wpid : option nat) (s : State) : nat * State :=
  let '(authRun, s) := beginAuthRun now s in
  let '(_, s) := spawn "which" ["onedrive"] wpid s in
  (authRun, s).

(** From the answer of the installation check up to [await waitForAuthUrl()];
    a reply means the handler has returned. *)
Definition startAuth_checked (authRun : nat) (o : CheckOutcome) (flt : FsFaults)
    (apid : option nat) (s : State) : State * option Reply :=
  if negb (installed o) then
    let s := send auth_result error
               "OneDrive ist nicht installiert. Bitte installieren Sie es zuerst." s in
    (settleAuthRun (Some authRun) s, Some (Failed (Some "onedrive-not-installed")))
  else
    match mkdir flt (ONEDRIVE_AUTH_DIR homedir) (disk s) with
    | Thrown e => let '(s, r) := startAuth_catch e s in (s, Some r)
    | Returned d =>
        let d := ensureOnedriveConfig homedir flt d in
        let d := clearOldAuthFiles homedir d in
        let s := set_disk d s in
        let '(p, s) :=
          spawn "onedrive"
                ["--confdir"; CONFIG_DIR; "--sync"; "--reauth"; "--auth-files";
                 REQUEST_FILE +:+ ":" +:+ RESPONSE_FILE] apid s in
        let s := set_onedriveProcess (Some p) s in
        (add_listeners p [AuthErrorObserver authRun] [AuthExitObserver authRun] [] s, None)
    end.

(** From the answer of [waitForAuthUrl] to the end of the handler. *)
Definition startAuth_url (authRun : nat) (answer : Outcome string) (s : State)
  : State * Reply :=
  match answer with
  | Returned authUrl => (openAuthWindow authUrl (Some authRun) s, AuthStarted authUrl)
  | Thrown e => startAuth_catch e s
  end.

(** [app.on('before-quit', ...)] *)
Definition beforeQuit (s : State) : State :=
  let s := set_isQuitting true s in
  let s := match onedriveProcess s with Some p => child_kill p s | None => s end in
  let s := match onedriveMonitorProcess s with Some m => child_kill m s | None => s end in
  match authWindow s with
  | Some w => window_close w s
  | None => s
  end.

(** [maybeStartMonitorIfToken], at app start. *)
Definition maybeStartMonitorIfToken (mpid : option nat) (s : State) : State :=
  if existsSync (tokenPath homedir) (disk s) then startOnedriveMonitor mpid s
  else uiSend auth_result info "Kein gespeichertes Token gefunden – bitte authentifizieren" s.

End Controller.

(** ** The controller as a machine

    One [Action] is one piece of code the event loop runs to its end.  The
    continuation of an [async] function carries the variables its closure
    had captured; a file the outside world writes is a [DiskChanged]. *)

Inductive Action :=
| StartAuth (now : Z) (wpid : option nat)
| InstallationChecked (authRun : nat) (o : CheckOutcome) (flt : FsFaults) (apid : option nat)
| AuthUrlAnswered (authRun : nat) (answer : Outcome string)
| Navigate (flt : FsFaults) (mpid : option nat) (w : nat) (url : string)
| RedirectResumed (flt : FsFaults) (mpid : option nat) (url : string) (run : option nat)
| WindowClosed (w : nat)
| ChildExit (mpid : option nat) (c : nat) (code : option Z) (signal : option Signal)
| ChildClose (mpid : option nat) (c : nat)
| ChildError (mpid : option nat) (c : nat)
| UncaughtException
| UnhandledRejection
| ForceSync (env : SyncEnv)
| SyncData (chunk : Stream * string)
| AppReady (mpid : option nat)
| BeforeQuit
| DiskChanged (d : FileSystem).

Section Machine.

Variable homedir : string.
Variable parseURL : string → option URL.

Definition perform (s : State) (a : Action) : State :=
  match a with
  | StartAuth now wpid => (startAuth_begin now wpid s).2
  | InstallationChecked authRun o flt apid => (startAuth_checked homedir authRun o flt apid s).1
  | AuthUrlAnswered authRun answer => (startAuth_url authRun answer s).1
  | Navigate flt mpid w url => tryHandle homedir parseURL flt mpid w url s
  | RedirectResumed flt mpid url run => handleAuthRedirect homedir flt mpid url run s
  | WindowClosed w => window_closed w s
  | ChildExit mpid c code signal => emit_exit homedir mpid c code signal s
  | ChildClose mpid c => emit_close homedir mpid c s
  | ChildError mpid c => emit_error homedir mpid c s
  | UncaughtException => uncaughtException s
  | UnhandledRejection => unhandledRejection s
  | ForceSync env => (forceSync homedir env s).1
  | SyncData chunk => sync_data chunk s
  | AppReady mpid => maybeStartMonitorIfToken homedir mpid s
  | BeforeQuit => beforeQuit s
  | DiskChanged d => set_disk d s
  end.

Definition perform_all (acts : list Action) (s : State) : State := foldl perform s acts.

End Machine.

(** The runs that are not settled. *)
Definition unsettled_runs (s : State) : nat :=
  length (filter (λ a, settled a = false) (runs s)).

(** The terminal events delivered so far. *)
Definition terminal_events (s : State) : list StatusEvent :=
  filter (λ e, terminal e = true) (delivered s).

(** ** Scenarios *)

Definition home_user : string := "/home/user".

Definition empty_disk : FileSystem := mkFS ∅ ∅.

(** The external client, or anyone, writes the file [p]. *)
Definition written (p c : string) (d : FileSystem) : FileSystem :=
  mkFS (<[p:=c]> (files d)) (dirs d).

Definition authorize_url : string :=
  "https://login.microsoftonline.com/common/oauth2/v2.0/authorize?client_id=x".

Definition nativeclient_url : string :=
  "https://login.microsoftonline.com/common/oauth2/nativeclient?code=abc".

(** The answers of the platform's [URL] constructor on the URLs the
    scenarios navigate to: the host name and the path of each.  The
    constructor itself stays the parameter [parseURL] of the model. *)
Definition known_urls : list (string * URL) :=
  [(authorize_url, mkURL "login.microsoftonline.com" "/common/oauth2/v2.0/authorize");
   (nativeclient_url, mkURL "login.microsoftonline.com" "/common/oauth2/nativeclient");
   ("https://login.microsoftonline.com/common/oauth2/nativeclient/logout",
    mkURL "login.microsoftonline.com" "/common/oauth2/nativeclient/logout");
   ("https://login.microsoftonline.com/oauth2/nativeclient.html",
    mkURL "login.microsoftonline.com" "/oauth2/nativeclient.html");
   ("https://example.com/common/oauth2/nativeclient",
    mkURL "example.com" "/common/oauth2/nativeclient");
   ("http://localhost:53682/?code=abc", mkURL "localhost" "/");
   ("http://127.0.0.1:8080/cb", mkURL "127.0.0.1" "/cb");
   ("https://example.com/", mkURL "example.com" "/")].

(** The table as a function, for the scenarios: they navigate to no other
    URL than these and to strings the constructor rejects. *)
Definition parse_known (input : string) : option URL :=
  (list_to_map known_urls : gmap string URL) !! input.

(** An auth attempt up to the redirect: the client is installed, the auth
    process (child 1) writes the request URL, the window (window 0) opens and
    navigates to the native-client endpoint while the process still runs. *)
Definition redirected : State :=
  let s0 := initial empty_disk in
  let '(authRun, s1) := startAuth_begin 1000 (Some 10) s0 in
  let '(s2, _) :=
    startAuth_checked home_user authRun (CheckExit (Some 0%Z)) no_faults (Some 11) s1 in
  let s3 := set_disk (written (ONEDRIVE_REQUEST_FILE home_user) authorize_url (disk s2)) s2 in
  let '(s4, _) := startAuth_url authRun (waitForAuthUrl home_user [disk s3]) s3 in
  tryHandle home_user parse_known no_faults None 0 nativeclient_url s4.

(** The attempt goes on: the client stores the token, an uncaught fault
    fires, then the auth process ends with code 0 and emits ['exit'] and
    ['close']. *)
Definition redirected_then_exit : State :=
  let s6 := set_disk (written (tokenPath home_user) "token" (disk redirected)) redirected in
  let s7 := uncaughtException s6 in
  let s8 := emit_exit home_user (Some 12) 1 (Some 0%Z) None s7 in
  emit_close home_user (Some 13) 1 s8.

(** A previous attempt left only the response file behind. *)
Definition stale_response_only : FileSystem :=
  written (ONEDRIVE_RESPONSE_FILE home_user) nativeclient_url empty_disk.

(** The state in which a new auth run begins to wait for the request URL,
    on the disk [d]. *)
Definition begins_waiting (d : FileSystem) : State :=
  let '(authRun, s1) := startAuth_begin 1000 (Some 10) (initial d) in
  (startAuth_checked home_user authRun (CheckExit (Some 0%Z)) no_faults (Some 11) s1).1.

(** The client is installed, nothing else happens to matter. *)
Definition installed_env : SyncEnv :=
  mkSyncEnv (Some 20) (CheckExit (Some 0%Z)) false [ExitEmitted; CloseEmitted]
            (Some 21) [] (SyncExits (Some 0%Z)) (Some 22).

(** A monitor (child 0, pid 7) that has ended by itself: its ['exit']
    listener only logs, the reference stays. *)
Definition stale_monitor : State :=
  let s := startOnedriveMonitor home_user (Some 7) (initial empty_disk) in
  emit_close home_user None 0 (emit_exit home_user None 0 (Some 1%Z) None s).

(** The user already has a configuration with a sync directory. *)
Definition custom_config : string :=
  "# my settings" +:+ newline +:+ "sync_dir = " +:+ quote +:+ "~/Cloud" +:+ quote +:+ newline.

Definition custom_disk : FileSystem :=
  written (ONEDRIVE_CONFIG_FILE home_user) custom_config empty_disk.

(** The auth window (window 0) of run 0 has just been opened. *)
Definition window_open : State :=
  (startAuth_url 0 (Returned authorize_url) (begins_waiting empty_disk)).1.

(** A second [start-onedrive-auth] arrives while the first run waits for
    the installation check. *)
Definition started_twice : State :=
  perform_all home_user parse_known [StartAuth 1000 (Some 10); StartAuth 2000 (Some 11)]
              (initial empty_disk).

(** A run starts and an uncaught fault ends it. *)
Definition started_then_fault : State :=
  perform_all home_user parse_known [StartAuth 1000 None; UncaughtException]
              (initial empty_disk).

(** A monitor (child 0, pid 7) runs. *)
Definition running_monitor : State :=
  startOnedriveMonitor home_user (Some 7) (initial empty_disk).

(** The token file exists, no monitor runs. *)
Definition with_token : State :=
  set_disk (written (tokenPath home_user) "token" empty_disk) (initial empty_disk).

(** The client is installed and the one-shot sync ends with code 1. *)
Definition failing_sync_env : SyncEnv :=
  mkSyncEnv (Some 20) (CheckExit (Some 0%Z)) false [] (Some 21) [(stderr, "no network")]
            (SyncExits (Some 1%Z)) (Some 22).

(** ** Properties of states *)

(** The tracked run, when there is one, is a run that is not settled. *)
Definition active_unsettled (s : State) : Prop :=
  ∀ r, activeAuthRun s = Some r → ∃ a, runs s !! r = Some a ∧ settled a = false.

(** [s'] has the runs of [s] and tracks the same one. *)
Definition same_runs (s s' : State) : Prop :=
  runs s' = runs s ∧ activeAuthRun s' = activeAuthRun s.

(** ** Further definitions *)

(** The request file holds no URL yet: it is missing, or has only white
    space. *)
Definition no_request_yet (homedir : string) (d : FileSystem) : Prop :=
  match files d !! ONEDRIVE_REQUEST_FILE homedir with
  | None => ONEDRIVE_REQUEST_FILE homedir ∉ dirs d
  | Some c => trim c = EmptyString
  end.

(** A disk with a configuration that does not mention [sync_dir]. *)
Definition other_settings_disk : FileSystem :=
  written (ONEDRIVE_CONFIG_FILE home_user) "monitor_interval = 300" empty_disk.

(** ** The output of the monitor *)

(** [text.split(/\r?\n/)]: the pieces between line feeds, a carriage return
    just before a line feed belonging to the separator. *)
Fixpoint split_lines (text : string) : list string :=
  match text with
  | EmptyString => [EmptyString]
  | String c rest =>
      if Ascii.eqb c (ascii_of_nat 10) then EmptyString :: split_lines rest
      else
        match Ascii.eqb c (ascii_of_nat 13), rest with
        | true, String c' _ =>
            if Ascii.eqb c' (ascii_of_nat 10) then split_lines rest
            else
              match split_lines rest with
              | line :: lines => String c line :: lines
              | [] => [String c EmptyString]
              end
        | _, _ =>
            match split_lines rest with
            | line :: lines => String c line :: lines
            | [] => [String c EmptyString]
            end
        end
  end.

(** [p] is a prefix of [s], letters compared without case. *)
Fixpoint starts_with_ci (p s : string) : bool :=
  match p, s with
  | EmptyString, _ => true
  | String a p', String b s' => Ascii.eqb (lower a) (lower b) && starts_with_ci p' s'
  | String _ _, EmptyString => false
  end.

(** [p] occurs in [s], letters compared without case: a regular expression
    of literal characters with the [i] flag. *)
Fixpoint contains_ci (p s : string) : bool :=
  starts_with_ci p s
  || match s with
     | EmptyString => false
     | String _ s' => contains_ci p s'
     end.

(** [/Sync with Microsoft OneDrive is complete/i.test(msg)] *)
Definition isComplete (msg : string) : bool :=
  contains_ci "Sync with Microsoft OneDrive is complete" msg.

(** The body of the loop over the lines of a chunk of the monitor's stdout. *)
Definition monitor_stdout_line (s : State) (line : string) : State :=
  match trim line with
  | EmptyString => s
  | msg => uiSend sync_result (if isComplete msg then success else info) msg s
  end.

(** The same for its stderr. *)
Definition monitor_stderr_line (s : State) (line : string) : State :=
  match trim line with
  | EmptyString => s
  | msg => uiSend sync_result warning msg s
  end.

(** [onedriveMonitorProcess.stdout.on('data', ...)] *)
Definition monitor_stdout (text : string) (s : State) : State :=
  foldl monitor_stdout_line s (split_lines text).

(** [onedriveMonitorProcess.stderr.on('data', ...)] *)
Definition monitor_stderr (text : string) (s : State) : State :=
  foldl monitor_stderr_line s (split_lines text).

(** The [check-token] command. *)
Definition checkToken (homedir : string) (s : State) : bool :=
  existsSync (tokenPath homedir) (disk s).

(** The event [force-sync] sends for a chunk of the output of the sync
    process. *)
Definition sync_event (chunk : Stream * string) : StatusEvent :=
  match chunk with
  | (stdout, msg) => mkEvent sync_result info (trim msg)
  | (stderr, msg) => mkEvent sync_result warning (trim msg)
  end.

(** The window is destroyed and its ['closed'] handler has run. *)
Definition closed_window (a : AuthWindow) : AuthWindow :=
  mkWindow (window_run a) (initialAuthUrl a) (redirectHandled a) false true.


(** ** How the state may change

    What no piece of the program undoes: a run keeps its [id] and stays
    settled once it is, a window keeps its run and its URL, its redirect
    latch stays set, it stays destroyed and its ['closed'] handler stays
    used; a child keeps its command, arguments and pid; nothing is taken
    back from the events delivered and the signals sent; quitting stays on. *)

Definition run_kept (a a' : AuthRun) : Prop :=
  id a' = id a ∧ (settled a = true → settled a' = true).

Definition window_kept (a a' : AuthWindow) : Prop :=
  window_run a' = window_run a ∧ initialAuthUrl a' = initialAuthUrl a
  ∧ (redirectHandled a = true → redirectHandled a' = true)
  ∧ (destroyed a = true → destroyed a' = true)
  ∧ (closedListener a = false → closedListener a' = false).

Definition child_kept (c c' : ChildProcess) : Prop :=
  command c' = command c ∧ args c' = args c ∧ pid c' = pid c.

(** Every object of the heap [l] is still in [l'], at its place. *)
Definition heap_kept {A : Type} (R : A → A → Prop) (l l' : list A) : Prop :=
  ∀ i a, l !! i = Some a → ∃ a', l' !! i = Some a' ∧ R a a'.

Definition evolves (s s' : State) : Prop :=
  (isQuitting s = true → isQuitting s' = true)
  ∧ heap_kept run_kept (runs s) (runs s')
  ∧ heap_kept window_kept (windows s) (windows s')
  ∧ heap_kept child_kept (children s) (children s')
  ∧ delivered s `prefix_of` delivered s'
  ∧ signals s `prefix_of` signals s'.

(** The auth process has ended with code 0 before any redirect: its exit
    observer has cleared the reference, the window is still open. *)
Definition exited_before_redirect : State :=
  emit_exit home_user None 1 (Some 0%Z) None window_open.

(** The signal [child.kill()] sends to the child behind a reference. *)
Definition kill_signal (s : State) (ref : option nat) : list (nat * Signal) :=
  match ref with
  | Some c =>
      match children s !! c with
      | Some ch =>
          match pid ch, exitCode ch, signalCode ch with
          | Some p, None, None => [(p, SIGTERM)]
          | _, _, _ => []
          end
      | None => []
      end
  | None => []
  end.


(** A sync process that writes to both streams and ends with code 1. *)
Definition chatty_sync_env : SyncEnv :=
  mkSyncEnv (Some 20) (CheckExit (Some 0%Z)) false [] (Some 21)
            [(stdout, utf8 [194; 160] +:+ " Syncing a b " +:+ newline);
             (stderr, "no network" +:+ utf8 [13; 10; 226; 128; 169])]
            (SyncExits (Some 1%Z)) (Some 22).


(** * Properties *)

(** ** Strings and the configuration test *)

Lemma append_cons (x : ascii) (a b : string) : String x a +:+ b = String x (a +:+ b).
Proof. reflexivity. Qed.

Lemma append_assoc (a b c : string) : (a +:+ b) +:+ c = a +:+ (b +:+ c).
Proof.
  induction a as [|x a IH]; [reflexivity|].
  rewrite !append_cons. by f_equal.
Qed.

Lemma starts_with_append (p rest : string) : starts_with p (p +:+ rest) = Some rest.
Proof.
  induction p as [|x p IH]; [reflexivity|].
  rewrite append_cons. simpl. by rewrite Ascii.eqb_refl.
Qed.

Lemma test_sync_dir_unfold (prev : bool) (s : string) :
  test_sync_dir prev s
  = (negb prev
     && match starts_with "sync_dir" s with
        | Some rest => boundary_behind rest
        | None => false
        end)
    || match s with
       | EmptyString => false
       | String c s' => test_sync_dir (is_word_char c) s'
       end.
Proof. destruct s; reflexivity. Qed.

(** The test finds [sync_dir] wherever it stands between two word boundaries. *)
Lemma test_sync_dir_found (pre rest : string) (prev : bool) :
  boundary_before prev pre = true →
  boundary_behind rest = true →
  test_sync_dir prev (pre +:+ "sync_dir" +:+ rest) = true.
Proof.
  revert prev. induction pre as [|c pre IH]; intros prev Hb Hr.
  - simpl in Hb. apply negb_true_iff in Hb. subst prev.
    change (EmptyString +:+ "sync_dir" +:+ rest) with ("sync_dir" +:+ rest).
    rewrite test_sync_dir_unfold, starts_with_append, Hr. reflexivity.
  - rewrite append_cons, test_sync_dir_unfold.
    rewrite (IH (is_word_char c) Hb Hr). apply orb_true_r.
Qed.

Lemma hasSyncDir_default (homedir : string) :
  hasSyncDir (default_config homedir) = true.
Proof.
  unfold hasSyncDir, default_config.
  change ("sync_dir = " +:+ ?x) with ("sync_dir" +:+ (" = " +:+ x)).
  apply (test_sync_dir_found EmptyString); reflexivity.
Qed.

(** ** The file system *)

Lemma mkdir_files flt p d d' : mkdir flt p d = Returned d' → files d' = files d.
Proof. unfold mkdir. destruct (mkdir_fails flt p); [discriminate|]. by intros [= <-]. Qed.

Lemma union_absorb (p : string) (X : gset string) : {[p]} ∪ ({[p]} ∪ X) = {[p]} ∪ X.
Proof. apply set_eq. intros x. rewrite !elem_of_union. tauto. Qed.

Lemma union_swap_absorb (p q : string) (X : gset string) :
  {[p]} ∪ ({[q]} ∪ ({[p]} ∪ X)) = {[q]} ∪ ({[p]} ∪ X).
Proof. apply set_eq. intros x. rewrite !elem_of_union. tauto. Qed.

Lemma mkdir_twice flt p d d' : mkdir flt p d = Returned d' → mkdir flt p d' = Returned d'.
Proof.
  unfold mkdir. destruct (mkdir_fails flt p); [discriminate|]. intros [= <-].
  simpl. by rewrite union_absorb.
Qed.

(** ** ensureOnedriveConfig *)

Lemma ensureOnedriveConfig_custom (homedir : string) flt d existing :
  files d !! ONEDRIVE_CONFIG_FILE homedir = Some existing →
  hasSyncDir existing = true →
  files (ensureOnedriveConfig homedir flt d) = files d.
Proof.
  intros Hf Hs. unfold ensureOnedriveConfig.
  destruct (mkdir flt _ d) as [d1|] eqn:Hm; [|reflexivity].
  apply mkdir_files in Hm. unfold readFile. rewrite Hm, Hf, Hs. exact Hm.
Qed.

Lemma ensureOnedriveConfig_idempotent (homedir : string) flt d :
  ensureOnedriveConfig homedir flt (ensureOnedriveConfig homedir flt d)
  = ensureOnedriveConfig homedir flt d.
Proof.
  unfold ensureOnedriveConfig at 2 3.
  destruct (mkdir flt (ONEDRIVE_CONFIG_DIR homedir) d) as [d1|e] eqn:Hm.
  2:{ unfold ensureOnedriveConfig. by rewrite Hm. }
  pose proof (mkdir_twice _ _ _ _ Hm) as Hm1.
  destruct (hasSyncDir _) eqn:Hs.
  { unfold ensureOnedriveConfig. by rewrite Hm1, Hs. }
  destruct (writeFile flt _ _ d1) as [d2|e] eqn:Hw.
  2:{ unfold ensureOnedriveConfig. by rewrite Hm1, Hs, Hw. }
  unfold mkdir in Hm.
  destruct (mkdir_fails flt (ONEDRIVE_CONFIG_DIR homedir)) eqn:Hnf; [discriminate|].
  injection Hm as <-.
  unfold writeFile in Hw. simpl in Hw.
  destruct (writeFile_fails flt (ONEDRIVE_CONFIG_FILE homedir)); [discriminate|].
  injection Hw as <-.
  unfold mkdir.
  destruct (mkdir_fails flt (ONEDRIVE_DEFAULT_SYNC_DIR homedir)).
  - unfold ensureOnedriveConfig, mkdir, readFile. rewrite Hnf. simpl.
    rewrite lookup_insert_eq, hasSyncDir_default. by rewrite union_absorb.
  - unfold ensureOnedriveConfig, mkdir, readFile. rewrite Hnf. simpl.
    rewrite lookup_insert_eq, hasSyncDir_default. by rewrite union_swap_absorb.
Qed.

Lemma ensureOnedriveConfig_absent (homedir : string) d :
  files d !! ONEDRIVE_CONFIG_FILE homedir = None →
  files (ensureOnedriveConfig homedir no_faults d)
  = <[ONEDRIVE_CONFIG_FILE homedir := default_config homedir]> (files d).
Proof.
  intros Hf. unfold ensureOnedriveConfig, mkdir, readFile, writeFile. simpl.
  rewrite Hf. reflexivity.
Qed.

(** C9: [ensureOnedriveConfig] is idempotent and leaves a configuration file
    that sets [sync_dir] as it is, byte for byte, on the first call and on
    every later one; a line [sync_dir = "..."] at the start of a line is such
    a setting; when the file is missing and the file system takes the writes,
    the file becomes the default of two lines, [sync_dir] and
    [sync_business_shared_items]. *)
Theorem ensureOnedriveConfig_idempotent_nondestructive (homedir : string) :
  (∀ flt d existing,
      files d !! ONEDRIVE_CONFIG_FILE homedir = Some existing →
      hasSyncDir existing = true →
      files (ensureOnedriveConfig homedir flt d) = files d
      ∧ files (ensureOnedriveConfig homedir flt (ensureOnedriveConfig homedir flt d)) = files d)
  ∧ (∀ flt d,
      ensureOnedriveConfig homedir flt (ensureOnedriveConfig homedir flt d)
      = ensureOnedriveConfig homedir flt d)
  ∧ (∀ pre value rest,
      boundary_before false pre = true →
      hasSyncDir (pre +:+ "sync_dir = " +:+ quote +:+ value +:+ quote +:+ rest) = true)
  ∧ (∀ d,
      files d !! ONEDRIVE_CONFIG_FILE homedir = None →
      files (ensureOnedriveConfig homedir no_faults d) !! ONEDRIVE_CONFIG_FILE homedir
      = Some (("sync_dir = " +:+ quote +:+ homedir +:+ "/OneDrive-Temp" +:+ quote) +:+ newline
              +:+ ("sync_business_shared_items = " +:+ quote +:+ "false" +:+ quote)
              +:+ newline)).
Proof.
  split; [|split; [|split]].
  - intros flt d existing Hf Hs. split.
    + by eapply ensureOnedriveConfig_custom.
    + rewrite ensureOnedriveConfig_idempotent. by eapply ensureOnedriveConfig_custom.
  - intros flt d. apply ensureOnedriveConfig_idempotent.
  - intros pre value rest Hb. unfold hasSyncDir.
    change ("sync_dir = " +:+ ?x) with ("sync_dir" +:+ (" = " +:+ x)).
    by apply test_sync_dir_found.
  - intros d Hf. rewrite (ensureOnedriveConfig_absent homedir d Hf), lookup_insert_eq.
    f_equal. unfold default_config, ONEDRIVE_DEFAULT_SYNC_DIR, path_join.
    by rewrite !append_assoc.
Qed.

Lemma ensureOnedriveConfig_idempotent_nondestructive_witness :
  files (ensureOnedriveConfig home_user no_faults
           (ensureOnedriveConfig home_user no_faults custom_disk))
        !! ONEDRIVE_CONFIG_FILE home_user = Some custom_config
  ∧ is_Some (files (ensureOnedriveConfig home_user no_faults empty_disk)
               !! ONEDRIVE_CONFIG_FILE home_user).
Proof.
  destruct (ensureOnedriveConfig_idempotent_nondestructive home_user) as (H1 & _ & _ & H4).
  split.
  - destruct (H1 no_faults custom_disk custom_config eq_refl eq_refl) as [_ ->].
    reflexivity.
  - rewrite (H4 empty_disk eq_refl). eauto.
Defined.

(** ** The stale-file cleanup *)

(** With the request file present the cleanup removes both files. *)
Lemma clearOldAuthFiles_request_present (homedir : string) d c :
  files d !! ONEDRIVE_REQUEST_FILE homedir = Some c →
  files (clearOldAuthFiles homedir d) !! ONEDRIVE_REQUEST_FILE homedir = None
  ∧ files (clearOldAuthFiles homedir d) !! ONEDRIVE_RESPONSE_FILE homedir = None.
Proof.
  intros Hq. unfold clearOldAuthFiles, unlink. rewrite Hq. simpl.
  destruct (delete _ (files d) !! ONEDRIVE_RESPONSE_FILE homedir) eqn:Hp; simpl.
  - split; [|apply lookup_delete_eq].
    rewrite lookup_delete. case_decide; [done|]. apply lookup_delete_eq.
  - split; [apply lookup_delete_eq | exact Hp].
Qed.

(** With the request file missing the first [unlink] throws and the cleanup
    leaves the disk as it found it. *)
Lemma clearOldAuthFiles_request_absent (homedir : string) d :
  files d !! ONEDRIVE_REQUEST_FILE homedir = None →
  clearOldAuthFiles homedir d = d.
Proof. intros Hq. unfold clearOldAuthFiles, unlink. by rewrite Hq. Qed.

(** C5: a previous attempt left only [response.url]; when the new run begins
    to wait for the request URL the stale response is still there, with its
    content: [unlink] of the missing request file throws, and the [catch]
    skips the [unlink] of the response file. *)
Theorem stale_response_survives_cleanup :
  files stale_response_only !! ONEDRIVE_REQUEST_FILE home_user = None
  ∧ files (disk (begins_waiting stale_response_only)) !! ONEDRIVE_RESPONSE_FILE home_user
    = Some nativeclient_url
  ∧ ¬ absent_or_empty (ONEDRIVE_RESPONSE_FILE home_user)
        (disk (begins_waiting stale_response_only)).
Proof.
  split; [by vm_compute|]. split; [by vm_compute|].
  unfold absent_or_empty.
  replace (files (disk (begins_waiting stale_response_only))
             !! ONEDRIVE_RESPONSE_FILE home_user) with (Some nativeclient_url)
    by (by vm_compute).
  discriminate.
Qed.

(** ** RedirectClassifier *)

Lemma isRedirectUrl_rules (parseURL : string → option URL) (initialUrl url : string) :
  parseURL EmptyString = None →
  isRedirectUrl parseURL initialUrl url
  = if bool_decide (url = initialUrl) then false
    else
      match parseURL url with
      | None => false
      | Some u =>
          (bool_decide (hostname u = "login.microsoftonline.com")
           && ends_with "/oauth2/nativeclient" (pathname u))
          || (bool_decide (hostname u = "localhost")
              || bool_decide (hostname u = "127.0.0.1"))
      end.
Proof.
  intros Hempty. unfold isRedirectUrl.
  case_bool_decide as He; [|reflexivity].
  subst url. rewrite Hempty. by case_bool_decide.
Qed.

(** [starts_with] and [ends_with] by concatenation. *)
Lemma starts_with_Some (p s rest : string) :
  starts_with p s = Some rest → s = p +:+ rest.
Proof.
  revert s. induction p as [|x p IH]; intros s H.
  - simpl in H. by injection H as ->.
  - destruct s as [|y s]; [discriminate|]. simpl in H.
    destruct (Ascii.eqb x y) eqn:Hxy; [|discriminate].
    apply Ascii.eqb_eq in Hxy. subst y. rewrite append_cons. f_equal. by apply IH.
Qed.

Lemma append_empty_r (s : string) : s +:+ EmptyString = s.
Proof. induction s as [|x s IH]; [done|]. rewrite append_cons. by f_equal. Qed.

Lemma ends_with_unfold (p s : string) :
  ends_with p s
  = match starts_with p s with
    | Some EmptyString => true
    | _ => match s with
           | EmptyString => false
           | String _ s' => ends_with p s'
           end
    end.
Proof. by destruct s. Qed.

Lemma ends_with_spec (p s : string) :
  ends_with p s = true ↔ ∃ before, s = before +:+ p.
Proof.
  split.
  - induction s as [|c s IH]; rewrite ends_with_unfold; intros H.
    + destruct (starts_with p EmptyString) as [[|]|] eqn:Hs; try discriminate.
      apply starts_with_Some in Hs. exists EmptyString. by rewrite append_empty_r in Hs.
    + destruct (starts_with p (String c s)) as [[|]|] eqn:Hs.
      * apply starts_with_Some in Hs. exists EmptyString. by rewrite append_empty_r in Hs.
      * destruct (IH H) as [before ->]. exists (String c before). by rewrite append_cons.
      * destruct (IH H) as [before ->]. exists (String c before). by rewrite append_cons.
  - intros [before ->]. induction before as [|c before IH]; rewrite ends_with_unfold.
    + change (EmptyString +:+ p) with p.
      pose proof (starts_with_append p EmptyString) as Hs. rewrite append_empty_r in Hs.
      by rewrite Hs.
    + rewrite append_cons.
      destruct (starts_with p (String c (before +:+ p))) as [[|]|]; [done|exact IH|exact IH].
Qed.

(** C4: the classifier answers [false] for a candidate that is the original
    text, [false] for one that does not parse, and otherwise [true] exactly
    for host [login.microsoftonline.com] with a path ending in
    [/oauth2/nativeclient], or host [localhost] or [127.0.0.1]; with the
    original [https://login.microsoftonline.com/authorize?...], and the
    platform parsing the candidates of the specification as it does, the
    five candidates get [false], [false], [true], [true], [false]. *)
Theorem isRedirectUrl_classifies :
  (∀ parseURL : string → option URL,
      parseURL EmptyString = None →
      ∀ original candidate,
        (candidate = original → isRedirectUrl parseURL original candidate = false)
        ∧ (parseURL candidate = None → isRedirectUrl parseURL original candidate = false)
        ∧ (∀ u, candidate ≠ original → parseURL candidate = Some u →
             (isRedirectUrl parseURL original candidate = true
              ↔ (hostname u = "login.microsoftonline.com"
                 ∧ ∃ before, pathname u = before +:+ "/oauth2/nativeclient")
                ∨ hostname u = "localhost" ∨ hostname u = "127.0.0.1")))
  ∧ (∀ (parseURL : string → option URL) (query : string),
      parseURL "not a url" = None →
      parseURL "https://login.microsoftonline.com/common/oauth2/nativeclient?code=abc"
      = Some (mkURL "login.microsoftonline.com" "/common/oauth2/nativeclient") →
      parseURL "http://localhost:53682/?code=abc" = Some (mkURL "localhost" "/") →
      parseURL "https://example.com/" = Some (mkURL "example.com" "/") →
      let original := "https://login.microsoftonline.com/authorize?" +:+ query in
      isRedirectUrl parseURL original original = false
      ∧ isRedirectUrl parseURL original "not a url" = false
      ∧ isRedirectUrl parseURL original
          "https://login.microsoftonline.com/common/oauth2/nativeclient?code=abc" = true
      ∧ isRedirectUrl parseURL original "http://localhost:53682/?code=abc" = true
      ∧ isRedirectUrl parseURL original "https://example.com/" = false).
Proof.
  split.
  - intros parseURL Hempty original candidate.
    rewrite (isRedirectUrl_rules parseURL original candidate Hempty).
    split; [|split].
    + intros ->. by rewrite bool_decide_eq_true_2.
    + intros ->. by case_bool_decide.
    + intros u Hne Hu. rewrite bool_decide_eq_false_2, Hu by done.
      rewrite !orb_true_iff, andb_true_iff, !bool_decide_eq_true, ends_with_spec. tauto.
  - intros parseURL query Hbad Hnative Hlocal Hother original.
    unfold isRedirectUrl. rewrite Hbad, Hnative, Hlocal, Hother.
    split; [|split; [|split; [|split]]].
    + rewrite bool_decide_eq_false_2 by done. by rewrite bool_decide_eq_true_2.
    + reflexivity.
    + reflexivity.
    + reflexivity.
    + reflexivity.
Qed.

Lemma isRedirectUrl_classifies_witness :
  (isRedirectUrl parse_known authorize_url authorize_url = false
   ∧ isRedirectUrl parse_known authorize_url "::" = false
   ∧ isRedirectUrl parse_known authorize_url "http://127.0.0.1:8080/cb" = true
   ∧ isRedirectUrl parse_known nativeclient_url authorize_url = false
   ∧ isRedirectUrl parse_known authorize_url
       "https://login.microsoftonline.com/common/oauth2/nativeclient/logout" = false
   ∧ isRedirectUrl parse_known authorize_url
       "https://login.microsoftonline.com/oauth2/nativeclient.html" = false
   ∧ isRedirectUrl parse_known authorize_url
       "https://example.com/common/oauth2/nativeclient" = false)
  ∧ isRedirectUrl parse_known "https://login.microsoftonline.com/authorize?client_id=x"
      "https://login.microsoftonline.com/authorize?client_id=x" = false
  ∧ isRedirectUrl parse_known "https://login.microsoftonline.com/authorize?client_id=x"
      "not a url" = false
  ∧ isRedirectUrl parse_known "https://login.microsoftonline.com/authorize?client_id=x"
      "https://login.microsoftonline.com/common/oauth2/nativeclient?code=abc" = true
  ∧ isRedirectUrl parse_known "https://login.microsoftonline.com/authorize?client_id=x"
      "http://localhost:53682/?code=abc" = true
  ∧ isRedirectUrl parse_known "https://login.microsoftonline.com/authorize?client_id=x"
      "https://example.com/" = false.
Proof.
  assert (Hempty : parse_known EmptyString = None) by (by vm_compute).
  destruct isRedirectUrl_classifies as [Hrule Hexamples].
  assert (Hno : ∀ candidate u,
             candidate ≠ authorize_url → parse_known candidate = Some u →
             (hostname u = "login.microsoftonline.com"
              → ends_with "/oauth2/nativeclient" (pathname u) = false) →
             hostname u ≠ "localhost" → hostname u ≠ "127.0.0.1" →
             isRedirectUrl parse_known authorize_url candidate = false).
  { intros candidate u Hne Hu Hpath Hl Hip.
    destruct (Hrule parse_known Hempty authorize_url candidate) as (_ & _ & Hiff).
    apply not_true_is_false. intros Htrue.
    destruct (proj1 (Hiff u Hne Hu) Htrue) as [[Hhost Hends]|[Hh|Hh]];
      [|exact (Hl Hh)|exact (Hip Hh)].
    apply ends_with_spec in Hends. rewrite (Hpath Hhost) in Hends. discriminate Hends. }
  split; [split_and!|].
  - destruct (Hrule parse_known Hempty authorize_url authorize_url) as (Hsame & _ & _).
    by apply Hsame.
  - destruct (Hrule parse_known Hempty authorize_url "::") as (_ & Hbad & _).
    apply Hbad. by vm_compute.
  - destruct (Hrule parse_known Hempty authorize_url "http://127.0.0.1:8080/cb")
      as (_ & _ & Hiff).
    apply (Hiff (mkURL "127.0.0.1" "/cb")); [done | by vm_compute | auto].
  - destruct (Hrule parse_known Hempty nativeclient_url authorize_url) as (_ & _ & Hiff).
    apply not_true_is_false. intros Htrue.
    assert (Hu : parse_known authorize_url
                 = Some (mkURL "login.microsoftonline.com" "/common/oauth2/v2.0/authorize"))
      by (by vm_compute).
    assert (Hne : authorize_url ≠ nativeclient_url) by done.
    destruct (proj1 (Hiff _ Hne Hu) Htrue) as [[_ Hends]|[Hh|Hh]];
      [|discriminate Hh|discriminate Hh].
    apply ends_with_spec in Hends. discriminate Hends.
  - by apply (Hno _ (mkURL "login.microsoftonline.com" "/common/oauth2/nativeclient/logout"));
      [|vm_compute|..].
  - by apply (Hno _ (mkURL "login.microsoftonline.com" "/oauth2/nativeclient.html"));
      [|vm_compute|..].
  - by apply (Hno _ (mkURL "example.com" "/common/oauth2/nativeclient")); [|vm_compute|..].
  - apply (Hexamples parse_known "client_id=x"); by vm_compute.
Defined.

(** ** What the operations leave alone *)

Lemma same_runs_refl s : same_runs s s.
Proof. by split. Qed.

Lemma same_runs_trans s1 s2 s3 : same_runs s1 s2 → same_runs s2 s3 → same_runs s1 s3.
Proof. intros [H1 H2] [H3 H4]. split; congruence. Qed.

Ltac frame :=
  unfold same_runs; intros;
  repeat (case_match; simpl in *; try done); simpl; try done.

Lemma send_same_runs ch st msg s : same_runs s (send ch st msg s).
Proof. by split. Qed.

Lemma winSend_same_runs ch st msg s : same_runs s (winSend ch st msg s).
Proof. unfold winSend. frame. Qed.

Lemma uiSend_same_runs ch st msg s : same_runs s (uiSend ch st msg s).
Proof. unfold uiSend. frame. Qed.

Lemma child_kill_same_runs c s : same_runs s (child_kill c s).
Proof. unfold child_kill. frame. Qed.

Lemma add_listeners_same_runs c e x l s : same_runs s (add_listeners c e x l s).
Proof. unfold add_listeners. frame. Qed.

Lemma startOnedriveMonitor_same_runs homedir mpid s :
  same_runs s (startOnedriveMonitor homedir mpid s).
Proof. unfold startOnedriveMonitor, spawn, add_listeners, uiSend, child_kill. frame. Qed.

Lemma decideAfterExit_same_runs homedir mpid s :
  same_runs s (decideAfterExit homedir mpid s).
Proof.
  unfold decideAfterExit. case_match.
  - eapply same_runs_trans; [apply winSend_same_runs | apply startOnedriveMonitor_same_runs].
  - apply winSend_same_runs.
Qed.

Lemma stop_event_same_runs e s c : same_runs s (stop_event e (s, c)).1.
Proof. unfold stop_event, winSend. frame. Qed.

Lemma stop_event_children e s c : children (stop_event e (s, c)).1 = children s.
Proof. unfold stop_event, winSend. frame. Qed.

Lemma stop_event_disk e s c : disk (stop_event e (s, c)).1 = disk s.
Proof. unfold stop_event, winSend. frame. Qed.

Lemma stop_events_frame evs sc :
  let sc' := foldl (λ sc e, stop_event e sc) sc evs in
  same_runs sc.1 sc'.1 ∧ children sc'.1 = children sc.1 ∧ disk sc'.1 = disk sc.1.
Proof.
  revert sc. induction evs as [|e evs IH]; intros [s c]; cbn [foldl fst].
  - split; [apply same_runs_refl | done].
  - destruct (IH (stop_event e (s, c))) as (Hr & Hc & Hd).
    split; [|split].
    + eapply same_runs_trans; [apply (stop_event_same_runs e s c) | exact Hr].
    + rewrite Hc. apply stop_event_children.
    + rewrite Hd. apply stop_event_disk.
Qed.

Lemma stopOnedriveMonitorGracefully_frame throws s :
  let sc := stopOnedriveMonitorGracefully throws s in
  same_runs s sc.1 ∧ children sc.1 = children s ∧ disk sc.1 = disk s.
Proof. unfold stopOnedriveMonitorGracefully. frame. Qed.

Lemma stop_run_frame throws evs s :
  let sc := stop_run throws evs s in
  same_runs s sc.1 ∧ children sc.1 = children s ∧ disk sc.1 = disk s.
Proof.
  unfold stop_run.
  destruct (stopOnedriveMonitorGracefully_frame throws s) as (Hr & Hc & Hd).
  destruct (stop_events_frame evs (stopOnedriveMonitorGracefully throws s)) as (Hr' & Hc' & Hd').
  simpl. split; [|split].
  - eapply same_runs_trans; eassumption.
  - by rewrite Hc'.
  - by rewrite Hd'.
Qed.

Lemma sync_output_frame out s :
  let s' := foldl (λ s chunk, sync_data chunk s) s out in
  same_runs s s' ∧ children s' = children s
  ∧ onedriveMonitorProcess s' = onedriveMonitorProcess s ∧ signals s' = signals s.
Proof.
  revert s. induction out as [|[[] msg] out IH]; intros s; simpl.
  - by repeat split.
  - destruct (IH (winSend sync_result info (trim msg) s)) as (Hr & Hc & Hm & Hk).
    unfold same_runs in *. rewrite Hc, Hm, Hk. destruct Hr as [-> ->].
    unfold winSend. by destruct (win s).
  - destruct (IH (winSend sync_result warning (trim msg) s)) as (Hr & Hc & Hm & Hk).
    unfold same_runs in *. rewrite Hc, Hm, Hk. destruct Hr as [-> ->].
    unfold winSend. by destruct (win s).
Qed.

(** ** failAuthFlow *)

Ltac crush := repeat (simpl in *; try done; try congruence; case_match).

(** On a run that is not settled [failAuthFlow] settles it, stops tracking
    it, and sends one [error] event unless the app is quitting or the main
    window is gone. *)
Lemma failAuthFlow_unsettled msg run s a :
  runs s !! run = Some a → settled a = false →
  let s' := failAuthFlow msg (Some run) s in
  runs s' = alter (λ a, mkAuthRun (id a) true) run (runs s)
  ∧ activeAuthRun s'
    = (if bool_decide (activeAuthRun s = Some run) then None else activeAuthRun s)
  ∧ delivered s'
    = (if isQuitting s then delivered s
       else if win s then delivered s ++ [mkEvent auth_result error (safe_message msg)]
            else delivered s).
Proof.
  intros Hrun Hun s'. unfold s', failAuthFlow, settleAuthRun.
  assert (Hu : run_settled s (Some run) = false) by (simpl; by rewrite Hrun).
  rewrite Hu.
  unfold uiSend, child_kill, window_close, process_kill, send, window_destroyed.
  clear Hu Hrun Hun s'.
  destruct (isQuitting s) eqn:Hq, (win s) eqn:Hw; crush.
Qed.

(** On a settled run, or on none, [failAuthFlow] does nothing. *)
Lemma failAuthFlow_settled msg run s :
  run_settled s run = true → failAuthFlow msg run s = s.
Proof. intros H. unfold failAuthFlow. by rewrite H. Qed.

(** ** The exit observer of the auth process *)

(** C10: when SIGTERM or SIGKILL ended the auth process, its exit observer
    only clears the process reference: no event is delivered and no run is
    settled; the observer enters the failure path exactly when the code is
    not 0 and neither of these signals ended the process, and there an
    unsettled run is settled and one [error] event is sent. *)
Theorem authExitObserver_failure_iff (run : nat) (code : option Z) (signal : option Signal)
    (s : State) :
  let cleared := set_onedriveProcess None s in
  let failure :=
    failAuthFlow ("OneDrive Authentifizierung fehlgeschlagen (Code " +:+ show_code code +:+ ")")
                 (Some run) cleared in
  (runs cleared = runs s ∧ activeAuthRun cleared = activeAuthRun s
   ∧ delivered cleared = delivered s)
  ∧ (signal = Some SIGTERM ∨ signal = Some SIGKILL →
       authExitObserver run code signal s = cleared)
  ∧ (authExitObserver run code signal s = failure
     ∧ ¬ (signal = Some SIGTERM ∨ signal = Some SIGKILL ∨ code = Some 0%Z)
     ∨ authExitObserver run code signal s = cleared
       ∧ (signal = Some SIGTERM ∨ signal = Some SIGKILL ∨ code = Some 0%Z))
  ∧ (run_settled s (Some run) = false → isQuitting s = false → win s = true →
       run_settled failure (Some run) = true
       ∧ delivered failure
         = delivered s ++ [mkEvent auth_result error
             ("OneDrive Authentifizierung fehlgeschlagen (Code " +:+ show_code code +:+ ")")]).
Proof.
  intros cleared failure. split; [done|]. split; [|split].
  - unfold authExitObserver. intros [-> | ->]; [done|].
    by destruct (bool_decide (Some SIGKILL = Some SIGTERM)).
  - unfold authExitObserver. fold cleared.
    destruct (bool_decide_reflect (signal = Some SIGTERM)) as [Ht|Ht]; simpl; [by right; auto|].
    destruct (bool_decide_reflect (signal = Some SIGKILL)) as [Hk|Hk]; simpl; [by right; auto|].
    destruct (bool_decide_reflect (code ≠ Some 0%Z)) as [Hc|Hc].
    + left. split; [done|]. intros [?|[?|?]]; done.
    + right. split; [done|]. right. right.
      destruct (decide (code = Some 0%Z)); [done | by destruct Hc].
  - intros Hu Hq Hw. simpl in Hu.
    destruct (runs s !! run) as [a|] eqn:Hrun; [|done].
    destruct (failAuthFlow_unsettled
                ("OneDrive Authentifizierung fehlgeschlagen (Code " +:+ show_code code +:+ ")")
                run cleared a Hrun Hu) as (Hr & _ & Hd).
    fold failure in Hr, Hd. split.
    + simpl. rewrite Hr. simpl. by rewrite list_lookup_alter_eq, Hrun.
    + rewrite Hd. simpl. by rewrite Hq, Hw.
Qed.

Lemma authExitObserver_failure_iff_witness :
  authExitObserver 0 None (Some SIGTERM) (begins_waiting empty_disk)
  = set_onedriveProcess None (begins_waiting empty_disk)
  ∧ run_settled (authExitObserver 0 (Some 1%Z) None (begins_waiting empty_disk)) (Some 0)
    = true.
Proof.
  destruct (authExitObserver_failure_iff 0 None (Some SIGTERM) (begins_waiting empty_disk))
    as (_ & Hsig & _).
  destruct (authExitObserver_failure_iff 0 (Some 1%Z) None (begins_waiting empty_disk))
    as (_ & _ & Hiff & Hfail).
  split.
  - apply Hsig. by left.
  - destruct Hiff as [[-> _] | [_ [?|[?|?]]]]; try discriminate.
    apply Hfail; reflexivity.
Defined.

(** ** MonitorSupervisor *)

Lemma startOnedriveMonitor_spawns homedir mpid s :
  let s' := startOnedriveMonitor homedir mpid s in
  children s'
  = children s ++ [mkChild "onedrive" ["--confdir"; ONEDRIVE_CONFIG_DIR homedir; "--monitor"]
                           mpid None None [] [MonitorExitLogger] []]
  ∧ onedriveMonitorProcess s' = Some (length (children s)).
Proof.
  unfold startOnedriveMonitor, spawn, add_listeners, uiSend, send.
  assert (Hk : ∀ m, children (child_kill m s) = children s).
  { intros m. unfold child_kill, process_kill. crush. }
  destruct (onedriveMonitorProcess s) as [m|]; simpl; rewrite ?Hk.
  - rewrite lookup_app_r, Nat.sub_diag by done. simpl.
    rewrite insert_app_r_alt, Nat.sub_diag by done. simpl. crush.
  - rewrite lookup_app_r, Nat.sub_diag by done. simpl.
    rewrite insert_app_r_alt, Nat.sub_diag by done. simpl. crush.
Qed.

Lemma monitors_spawned_app s l :
  length (filter is_monitor (children s ++ l))
  = monitors_spawned s + length (filter is_monitor l).
Proof. unfold monitors_spawned. by rewrite filter_app, length_app. Qed.

Lemma no_monitor_which_sync (d : string) (wp sp : option nat) :
  filter is_monitor
    [mkChild "which" ["onedrive"] wp None None [] [] [];
     mkChild "onedrive" ["--confdir"; d; "--sync"] sp None None [] [] []] = [].
Proof. reflexivity. Qed.

Lemma one_monitor (d : string) (mp : option nat) (ls : list Listener) :
  length (filter is_monitor
            [mkChild "onedrive" ["--confdir"; d; "--monitor"] mp None None [] ls []]) = 1.
Proof. reflexivity. Qed.

(** A call that starts with nothing pending stays as it is. *)
Lemma stop_event_inert e s c :
  timeoutArmed c = false → exitListener c = false → closeListener c = false →
  stop_event e (s, c) = (s, c).
Proof. intros Ht He Hc. unfold stop_event. destruct e; by rewrite ?Ht, ?He, ?Hc. Qed.

Lemma stop_events_inert evs s c :
  timeoutArmed c = false → exitListener c = false → closeListener c = false →
  foldl (λ sc e, stop_event e sc) (s, c) evs = (s, c).
Proof.
  intros Ht He Hc. induction evs as [|e evs IH]; [done|].
  cbn [foldl]. by rewrite stop_event_inert.
Qed.

(** Once resolved, a call keeps its single resolution. *)
Lemma stop_event_resolved e s c :
  resolved c = true →
  resolved (stop_event e (s, c)).2 = true
  ∧ resolutions (stop_event e (s, c)).2 = resolutions c.
Proof.
  intros Hr. unfold stop_event, done, clearTimeout.
  destruct e; repeat (case_match; simpl in *; try done); congruence.
Qed.

Lemma stop_events_resolved evs sc :
  resolved sc.2 = true →
  resolutions (foldl (λ sc e, stop_event e sc) sc evs).2 = resolutions sc.2.
Proof.
  revert sc. induction evs as [|e evs IH]; intros [s c] Hr; [done|].
  cbn [foldl]. destruct (stop_event_resolved e s c Hr) as [Hr' Hl].
  rewrite IH by exact Hr'. exact Hl.
Qed.

(** The first event that reaches a pending call resolves it with [true]. *)
Lemma stop_event_first e s p :
  let c := (stop_event e (s, mkStop (Some p) false true true true [])).2 in
  resolved c = true ∧ resolutions c = [true].
Proof. by destruct e. Qed.

(** How a call resolves, for every order of the events it waits for. *)
Lemma stop_run_resolutions (throws : bool) (evs : list StopEvent)
    (s : State) :
  let c := (stop_run throws evs s).2 in
  length (resolutions c) ≤ 1
  ∧ (monitor_pid_number s = None → resolutions c = [false])
  ∧ (monitor_pid_number s ≠ None → throws = true → resolutions c = [false])
  ∧ (monitor_pid_number s ≠ None → throws = false → evs ≠ [] → resolutions c = [true])
  ∧ (monitor_pid_number s ≠ None → throws = false → evs = [] →
       resolutions c = [] ∧ timeoutArmed c = true).
Proof.
  intros c. unfold c, stop_run, stopOnedriveMonitorGracefully.
  destruct (monitor_pid_number s) as [p|] eqn:Hp.
  - destruct throws.
    + unfold done. simpl. rewrite stop_events_inert by done. simpl.
      repeat split; try done; lia.
    + destruct evs as [|e evs].
      * simpl. repeat split; try done; lia.
      * cbn [foldl].
        destruct (stop_event_first e (process_kill p SIGTERM s) p) as [Hr Hl].
        rewrite stop_events_resolved by exact Hr. rewrite Hl. simpl.
        repeat split; try done; lia.
  - rewrite stop_events_inert by done. simpl. repeat split; try done; lia.
Qed.

(** C7: a call of [stopOnedriveMonitorGracefully] never resolves twice,
    whatever the timer and the ['exit'] and ['close'] events do and in
    whatever order; it resolves [false] at once when there is no monitor
    reference or its pid is not a number, and also when sending SIGTERM
    throws; otherwise it stays pending with its timer armed until the first
    of the three events, which resolves it [true]. *)
Theorem stopOnedriveMonitorGracefully_resolves_once (throws : bool) (evs : list StopEvent)
    (s : State) :
  let c := (stop_run throws evs s).2 in
  length (resolutions c) ≤ 1
  ∧ (monitor_pid_number s = None → resolutions c = [false])
  ∧ (monitor_pid_number s ≠ None → throws = true → resolutions c = [false])
  ∧ (monitor_pid_number s ≠ None → throws = false → evs ≠ [] → resolutions c = [true])
  ∧ (monitor_pid_number s ≠ None → throws = false → evs = [] →
       resolutions c = [] ∧ timeoutArmed c = true).
Proof. apply stop_run_resolutions. Qed.

Lemma stopOnedriveMonitorGracefully_resolves_once_witness :
  resolutions (stop_run false [TimerFires; ExitEmitted; CloseEmitted] running_monitor).2
  = [true]
  ∧ resolutions (stop_run false [] (initial empty_disk)).2 = [false].
Proof.
  split.
  - destruct (stopOnedriveMonitorGracefully_resolves_once
                false [TimerFires; ExitEmitted; CloseEmitted] running_monitor)
      as (_ & _ & _ & Htrue & _).
    apply Htrue; [discriminate | reflexivity | discriminate].
  - destruct (stopOnedriveMonitorGracefully_resolves_once false [] (initial empty_disk))
      as (_ & Hfalse & _).
    apply Hfalse. reflexivity.
Defined.

(** C7, as the specification words it, fails: the monitor (pid 7) has ended
    by itself, the reference is still set at the call, SIGTERM to the dead
    pid throws, and the call resolves [false]. *)
Lemma stale_monitor_resolves_false :
  onedriveMonitorProcess stale_monitor = Some 0
  ∧ monitor_pid_number stale_monitor = Some 7
  ∧ resolutions (stop_run true [] stale_monitor).2 = [false]
  ∧ ¬ (onedriveMonitorProcess stale_monitor ≠ None →
       resolutions (stop_run true [] stale_monitor).2 = [true]).
Proof.
  split; [reflexivity|]. split; [reflexivity|]. split; [reflexivity|].
  intros H. by specialize (H ltac:(done)).
Qed.

(** ** SyncController *)

(** C6: with the client installed and no token file, [force-sync] answers
    [failed] with reason [no-token]; the one process it has spawned is the
    [which onedrive] of the installation check: no [onedrive] process is
    started, no signal is sent and the monitor reference stays as it was.
    The installation check comes first: without the client the reason is
    [onedrive-not-installed], token or not. *)
Theorem forceSync_no_token (homedir : string) :
  (∀ env s,
      installed (which_outcome env) = true →
      existsSync (tokenPath homedir) (disk s) = false →
      let r := forceSync homedir env s in
      r.2 = Some (Failed (Some "no-token"))
      ∧ children r.1
        = children s ++ [mkChild "which" ["onedrive"] (which_pid env) None None [] [] []]
      ∧ signals r.1 = signals s
      ∧ onedriveMonitorProcess r.1 = onedriveMonitorProcess s)
  ∧ (∀ env s,
      installed (which_outcome env) = false →
      (forceSync homedir env s).2 = Some (Failed (Some "onedrive-not-installed"))).
Proof.
  split.
  - intros env s Hi Ht. unfold forceSync, checkOnedriveInstallation, spawn. simpl.
    rewrite Hi. simpl. rewrite Ht. simpl. unfold winSend. simpl. by destruct (win s).
  - intros env s Hi. unfold forceSync, checkOnedriveInstallation, spawn. simpl.
    by rewrite Hi.
Qed.

Lemma forceSync_no_token_witness :
  (forceSync home_user installed_env (initial empty_disk)).2 = Some (Failed (Some "no-token"))
  ∧ signals (forceSync home_user installed_env (initial empty_disk)).1 = [].
Proof.
  destruct (forceSync_no_token home_user) as [Hno _].
  destruct (Hno installed_env (initial empty_disk)) as (Hr & _ & Hs & _);
    [reflexivity | reflexivity |].
  split; [exact Hr | exact Hs].
Defined.

(** C6, as the specification words it, fails: the client is installed, the
    token is missing, the answer is [no-token], and a process has been
    spawned all the same, [which onedrive]. *)
Lemma which_spawned_without_token :
  installed (which_outcome installed_env) = true
  ∧ existsSync (tokenPath home_user) (disk (initial empty_disk)) = false
  ∧ (forceSync home_user installed_env (initial empty_disk)).2
    = Some (Failed (Some "no-token"))
  ∧ command <$> children (forceSync home_user installed_env (initial empty_disk)).1
    = ["which"]
  ∧ ¬ (children (forceSync home_user installed_env (initial empty_disk)).1
       = children (initial empty_disk)).
Proof. repeat split; try reflexivity. discriminate. Qed.

Lemma sync_exit_Some (env : SyncEnv) (code : option Z) :
  sync_exit env = Some code → sync_outcome env = SyncExits code.
Proof. unfold sync_exit. destruct (sync_outcome env); congruence. Qed.

(** C8: once the one-shot sync process has exited, [force-sync] starts the
    monitor exactly when the graceful stop had answered that the monitor was
    running or the sync ended with code 0; then the monitor reference is the
    process just spawned. *)
Theorem forceSync_resumes_monitor (homedir : string) (env : SyncEnv) (s : State)
    (wasRunning : bool) (code : option Z) :
  installed (which_outcome env) = true →
  existsSync (tokenPath homedir) (disk s) = true →
  head (resolutions
          (stop_run (sigterm_throws env) (stop_events env)
             (checkOnedriveInstallation (which_pid env) (which_outcome env) s).2).2)
  = Some wasRunning →
  sync_exit env = Some code →
  let s' := (forceSync homedir env s).1 in
  (monitors_spawned s' = S (monitors_spawned s) ↔ wasRunning = true ∨ code = Some 0%Z)
  ∧ (monitors_spawned s' = monitors_spawned s ↔ ¬ (wasRunning = true ∨ code = Some 0%Z))
  ∧ (wasRunning = true ∨ code = Some 0%Z →
       ∃ m ch, onedriveMonitorProcess s' = Some m ∧ children s' !! m = Some ch
               ∧ is_monitor ch = true ∧ exitCode ch = None ∧ m = S (S (length (children s))))
  ∧ (wasRunning = true
     ↔ monitor_pid_number (checkOnedriveInstallation (which_pid env) (which_outcome env) s).2
       ≠ None
       ∧ sigterm_throws env = false).
Proof.
  intros Hi Ht Hw Hx s'.
  assert (Hwas : wasRunning = true
     ↔ monitor_pid_number (checkOnedriveInstallation (which_pid env) (which_outcome env) s).2
       ≠ None
       ∧ sigterm_throws env = false).
  { destruct (stop_run_resolutions (sigterm_throws env) (stop_events env)
                (checkOnedriveInstallation (which_pid env) (which_outcome env) s).2)
      as (_ & Hnone & Hthrow & Hfirst & Hpending).
    destruct (monitor_pid_number _) as [p|].
    - destruct (sigterm_throws env).
      + rewrite Hthrow in Hw by done. injection Hw as <-. split; [done | intros [_ ?]; done].
      + destruct (stop_events env) as [|e evs].
        * destruct Hpending as [Hp _]; try done. rewrite Hp in Hw. discriminate.
        * rewrite Hfirst in Hw by done. injection Hw as <-. done.
    - rewrite Hnone in Hw by done. injection Hw as <-. split; [done | intros [? _]; done]. }
  cut ((monitors_spawned s' = S (monitors_spawned s) ↔ wasRunning = true ∨ code = Some 0%Z)
       ∧ (monitors_spawned s' = monitors_spawned s ↔ ¬ (wasRunning = true ∨ code = Some 0%Z))
       ∧ (wasRunning = true ∨ code = Some 0%Z →
          ∃ m ch, onedriveMonitorProcess s' = Some m ∧ children s' !! m = Some ch
                  ∧ is_monitor ch = true ∧ exitCode ch = None
                  ∧ m = S (S (length (children s))))).
  { intros (H1 & H2 & H3). exact (conj H1 (conj H2 (conj H3 Hwas))). }
  clear Hwas. unfold s', forceSync. rewrite (sync_exit_Some env code Hx).
  destruct (checkOnedriveInstallation _ _ s) as [inst s1] eqn:Hc.
  assert (Hinst : inst = true).
  { unfold checkOnedriveInstallation, spawn in Hc. simpl in Hc. congruence. }
  assert (Hs1 : children s1 = children s ++ [mkChild "which" ["onedrive"] (which_pid env)
                                                       None None [] [] []]
                ∧ disk s1 = disk s).
  { unfold checkOnedriveInstallation, spawn in Hc. simpl in Hc.
    injection Hc as _ <-. by split. }
  destruct Hs1 as [Hch1 Hd1]. simpl in Hw.
  subst inst. simpl. rewrite Hd1, Ht. simpl.
  destruct (stop_run_frame (sigterm_throws env) (stop_events env) s1) as (_ & Hch2 & _).
  destruct (stop_run _ _ s1) as [s2 call] eqn:Hstop. simpl in Hw, Hch2.
  destruct (resolutions call) as [|w ws]; [discriminate|].
  injection Hw as ->.
  set (s3 := if wasRunning then _ else s2).
  assert (Hch3 : children s3 = children s2).
  { unfold s3, winSend. crush. }
  unfold spawn. simpl.
  set (s4 := set_children _ s3).
  destruct (sync_output_frame (sync_output env) s4) as (_ & Hch5 & _).
  set (s5 := foldl _ s4 (sync_output env)) in *.
  set (s6 := if bool_decide (code = Some 0%Z) then _ else _).
  assert (Hch6 : children s6
                 = children s ++ [mkChild "which" ["onedrive"] (which_pid env) None None [] [] [];
                                  mkChild "onedrive" ["--confdir"; ONEDRIVE_CONFIG_DIR homedir;
                                                      "--sync"] (sync_pid env)
                                          None None [] [] []]).
  { transitivity (children s5); [unfold s6, winSend; crush|].
    rewrite Hch5. unfold s4. simpl. rewrite Hch3, Hch2, Hch1.
    by rewrite <- (assoc_L (++)). }
  assert (Hn6 : monitors_spawned s6 = monitors_spawned s).
  { unfold monitors_spawned at 1. rewrite Hch6, monitors_spawned_app.
    rewrite no_monitor_which_sync. simpl. lia. }
  assert (Hor : wasRunning || bool_decide (code = Some 0%Z) = true
                ↔ wasRunning = true ∨ code = Some 0%Z).
  { rewrite orb_true_iff, bool_decide_eq_true. tauto. }
  destruct (wasRunning || bool_decide (code = Some 0%Z)) eqn:Hb; simpl.
  - assert (Hyes : wasRunning = true ∨ code = Some 0%Z) by (by apply Hor).
    destruct (startOnedriveMonitor_spawns homedir (monitor_pid env) s6) as [Hch7 Hm7].
    assert (Hn7 : monitors_spawned (startOnedriveMonitor homedir (monitor_pid env) s6)
                  = S (monitors_spawned s)).
    { unfold monitors_spawned at 1. rewrite Hch7, monitors_spawned_app, Hn6.
      rewrite one_monitor. simpl. lia. }
    rewrite Hn7. split; [tauto|]. split; [split; [lia | tauto]|].
    intros _. eexists _, _. rewrite Hm7, Hch7.
    split; [reflexivity|]. split.
    + rewrite lookup_app_r, Nat.sub_diag by done. reflexivity.
    + split; [reflexivity|]. split; [reflexivity|].
      rewrite Hch6, length_app. simpl. lia.
  - assert (Hno : ¬ (wasRunning = true ∨ code = Some 0%Z)).
    { intros H. apply Hor in H. discriminate. }
    rewrite Hn6. split; [split; [lia | tauto]|]. split; [tauto|]. tauto.
Qed.

Lemma forceSync_resumes_monitor_witness :
  monitors_spawned (forceSync home_user installed_env with_token).1 = 1
  ∧ monitors_spawned (forceSync home_user failing_sync_env with_token).1 = 0.
Proof.
  split.
  - destruct (forceSync_resumes_monitor home_user installed_env with_token false (Some 0%Z)
                eq_refl eq_refl eq_refl eq_refl) as (Hyes & _).
    apply Hyes. by right.
  - destruct (forceSync_resumes_monitor home_user failing_sync_env with_token false
                (Some 1%Z) eq_refl eq_refl eq_refl eq_refl) as (_ & Hno & _).
    apply Hno. intros [?|?]; discriminate.
Defined.

(** ** AuthRun bookkeeping *)

Lemma settleAuthRun_lookup run a s :
  runs s !! run = Some a →
  runs (settleAuthRun (Some run) s) !! run = Some (mkAuthRun (id a) true).
Proof.
  intros Hrun. unfold settleAuthRun. simpl. rewrite Hrun.
  destruct a as [i []]; simpl; [exact Hrun|].
  assert (Hl : alter (λ a, mkAuthRun (id a) true) run (runs s) !! run
               = Some (mkAuthRun i true)) by (by rewrite list_lookup_alter_eq, Hrun).
  by case_bool_decide.
Qed.

(** After [settleAuthRun] the run is settled, and a second call changes
    nothing: the flag goes from [false] to [true] once. *)
Lemma settleAuthRun_settles run s : run_settled (settleAuthRun run s) run = true.
Proof.
  unfold settleAuthRun. destruct (run_settled s run) eqn:Hs; [exact Hs|].
  destruct run as [r|]; [|done]. simpl in Hs.
  destruct (runs s !! r) as [a|] eqn:Hr; [|done].
  assert (Hl : alter (λ a, mkAuthRun (id a) true) r (runs s) !! r
               = Some (mkAuthRun (id a) true)) by (by rewrite list_lookup_alter_eq, Hr).
  case_bool_decide; simpl; by rewrite Hl.
Qed.

Lemma settleAuthRun_idempotent run s :
  settleAuthRun run (settleAuthRun run s) = settleAuthRun run s.
Proof.
  unfold settleAuthRun at 1. by rewrite settleAuthRun_settles.
Qed.

Lemma settleAuthRun_frame run s :
  let s1 := settleAuthRun run s in
  win s1 = win s ∧ onedriveProcess s1 = onedriveProcess s
  ∧ children s1 = children s ∧ delivered s1 = delivered s.
Proof. unfold settleAuthRun. crush. Qed.

Lemma settleAuthRun_disk run s : disk (settleAuthRun run s) = disk s.
Proof. unfold settleAuthRun. crush. Qed.

Lemma settleAuthRun_active_unsettled run s :
  active_unsettled s → active_unsettled (settleAuthRun run s).
Proof.
  intros Hinv. unfold settleAuthRun.
  destruct (run_settled s run) eqn:Hs; [exact Hinv|].
  destruct run as [r|]; [|exact Hinv]. simpl.
  case_bool_decide as Hact; simpl in Hact.
  - intros r' Hr'. discriminate.
  - intros r' Hr'. simpl in Hr'. destruct (Hinv r' Hr') as (a & Ha & Hu).
    exists a. split; [|exact Hu]. simpl.
    rewrite list_lookup_alter_ne; [exact Ha | congruence].
Qed.

Lemma same_runs_active_unsettled s s' :
  same_runs s s' → active_unsettled s → active_unsettled s'.
Proof. intros [Hr Ha] Hinv r. rewrite Hr, Ha. apply Hinv. Qed.

Lemma failAuthFlow_after_settle msg run s :
  run_settled s run = false →
  same_runs (settleAuthRun run s) (failAuthFlow msg run s).
Proof.
  intros Hu. unfold failAuthFlow. rewrite Hu.
  generalize (settleAuthRun run s). intros s1.
  unfold uiSend, send, child_kill, process_kill, window_close, window_destroyed, same_runs.
  crush.
Qed.

Lemma failAuthFlow_disk msg run s : disk (failAuthFlow msg run s) = disk s.
Proof.
  unfold failAuthFlow. destruct (run_settled s run); [done|].
  rewrite <- (settleAuthRun_disk run s). generalize (settleAuthRun run s). intros s1.
  unfold uiSend, send, child_kill, process_kill, window_close, window_destroyed. crush.
Qed.

Lemma failAuthFlow_active_unsettled msg run s :
  active_unsettled s → active_unsettled (failAuthFlow msg run s).
Proof.
  intros Hinv. destruct (run_settled s run) eqn:Hs.
  - by rewrite failAuthFlow_settled.
  - eapply same_runs_active_unsettled; [by apply failAuthFlow_after_settle|].
    by apply settleAuthRun_active_unsettled.
Qed.

Lemma beginAuthRun_active_unsettled now s :
  active_unsettled (beginAuthRun now s).2.
Proof.
  intros r. simpl. intros [= <-]. exists (mkAuthRun now false).
  split; [|done]. by rewrite lookup_app_r, Nat.sub_diag.
Qed.

(** A new run joins the runs that are not settled; none of them changes. *)
Lemma startAuth_begin_unsettled now wpid s :
  let s' := (startAuth_begin now wpid s).2 in
  activeAuthRun s' = Some (length (runs s))
  ∧ runs s' = runs s ++ [mkAuthRun now false]
  ∧ unsettled_runs s' = S (unsettled_runs s).
Proof.
  unfold startAuth_begin, beginAuthRun, spawn, unsettled_runs. simpl.
  split; [done|]. split; [done|].
  rewrite filter_app, length_app. simpl. lia.
Qed.

(** ** handleAuthRedirect *)

Lemma startOnedriveMonitor_disk homedir mpid s :
  disk (startOnedriveMonitor homedir mpid s) = disk s.
Proof. unfold startOnedriveMonitor, spawn, add_listeners, uiSend, child_kill. crush. Qed.

Lemma decideAfterExit_disk homedir mpid s : disk (decideAfterExit homedir mpid s) = disk s.
Proof.
  unfold decideAfterExit. case_match.
  - rewrite startOnedriveMonitor_disk. unfold winSend. crush.
  - unfold winSend. crush.
Qed.

(** What follows the settling in [handleAuthRedirect]: the [success] event,
    then [decideAfterExit] now or its registration for later. *)
Lemma handleAuthRedirect_written_frame homedir mpid run s :
  let s' := handleAuthRedirect_written homedir mpid run s in
  disk s' = disk s
  ∧ same_runs (match authWindow s with Some _ => settleAuthRun run s | None => s end) s'.
Proof.
  unfold handleAuthRedirect_written.
  set (s1 := match authWindow s with
             | Some w => set_authWindow None (window_close w (settleAuthRun run s))
             | None => s
             end).
  assert (H1 : disk s1 = disk s
               ∧ same_runs (match authWindow s with
                            | Some _ => settleAuthRun run s
                            | None => s
                            end) s1).
  { unfold s1. destruct (authWindow s); [|by split].
    split; [by rewrite <- (settleAuthRun_disk run s)|by split]. }
  clearbody s1. destruct H1 as [Hd Hr].
  set (s2 := winSend auth_result success "Authentifizierung erfolgreich abgeschlossen" s1).
  assert (H2 : disk s2 = disk s1 ∧ same_runs s1 s2).
  { unfold s2, winSend. by destruct (win s1). }
  clearbody s2. destruct H2 as [Hd2 Hr2].
  assert (H3 : ∀ s3, disk s3 = disk s2 ∧ same_runs s2 s3 →
                     disk s3 = disk s ∧ same_runs (match authWindow s with
                                                   | Some _ => settleAuthRun run s
                                                   | None => s
                                                   end) s3).
  { intros s3 [Hd3 Hr3]. split; [congruence|].
    eapply same_runs_trans; [exact Hr|]. by eapply same_runs_trans. }
  destruct (onedriveProcess s2) as [p|].
  - destruct (children s2 !! p) as [ch|] eqn:Hch; [|by apply H3].
    destruct (exitCode ch).
    + apply H3. split; [apply decideAfterExit_disk | apply decideAfterExit_same_runs].
    + apply H3. unfold add_listeners. rewrite Hch. by split.
  - apply H3. split; [apply decideAfterExit_disk | apply decideAfterExit_same_runs].
Qed.

(** The only event [startOnedriveMonitor] sends is the one of its last
    line. *)
Lemma startOnedriveMonitor_delivered_uiSend homedir mpid s :
  delivered (startOnedriveMonitor homedir mpid s)
  = delivered (uiSend auth_result info "OneDrive Monitor gestartet" s).
Proof.
  unfold startOnedriveMonitor, spawn, add_listeners, uiSend, send, child_kill,
    process_kill.
  repeat (case_match; simpl in *; simplify_eq; try done; try congruence).
Qed.

(** One call of [decideAfterExit] sends one terminal event, by the token
    file. *)
Lemma decideAfterExit_terminal homedir mpid s :
  win s = true →
  terminal_events (decideAfterExit homedir mpid s)
  = terminal_events s
    ++ [if existsSync (tokenPath homedir) (disk s)
        then mkEvent auth_result completed "OneDrive Authentifizierung abgeschlossen"
        else mkEvent auth_result error
               "OneDrive Authentifizierung fehlgeschlagen (kein Token gefunden)"].
Proof.
  intros Hw. unfold decideAfterExit, winSend. rewrite Hw.
  destruct (existsSync _ _).
  - unfold terminal_events. rewrite startOnedriveMonitor_delivered_uiSend.
    unfold uiSend, send. simpl. rewrite Hw.
    destruct (isQuitting s); simpl; rewrite !filter_app; simpl;
      rewrite ?app_nil_r; done.
  - unfold terminal_events, send. simpl. by rewrite filter_app.
Qed.

(** [handleAuthRedirect] while the auth process runs, as one equation. *)
Lemma handleAuthRedirect_running homedir flt mpid url run w a p ch s :
  writeFile_fails flt (ONEDRIVE_RESPONSE_FILE homedir) = false →
  authWindow s = Some w → runs s !! run = Some a →
  onedriveProcess s = Some p → children s !! p = Some ch → exitCode ch = None →
  win s = true →
  ∃ s1, handleAuthRedirect homedir flt mpid url (Some run) s
        = set_children
            (<[p := mkChild (command ch) (args ch) (pid ch) None (signalCode ch)
                            (onError ch) (onExit ch ++ [DecideAfterExit])
                            (onClose ch ++ [DecideAfterExit])]> (children s))
            (set_delivered
               (delivered s ++ [mkEvent auth_result success
                                        "Authentifizierung erfolgreich abgeschlossen"]) s1)
        ∧ runs s1 !! run = Some (mkAuthRun (id a) true)
        ∧ win s1 = true ∧ onedriveProcess s1 = Some p.
Proof.
  intros Hw Haw Hrun Hp Hch Hex Hwin. unfold handleAuthRedirect, writeFile. rewrite Hw.
  set (s0 := set_disk _ s).
  assert (Hrun0 : runs s0 !! run = Some a) by exact Hrun.
  pose proof (settleAuthRun_lookup run a s0 Hrun0) as Hl.
  destruct (settleAuthRun_frame (Some run) s0) as (Hf1 & Hf2 & Hf3 & Hf4).
  unfold handleAuthRedirect_written.
  change (authWindow s0) with (authWindow s). rewrite Haw.
  revert Hl Hf1 Hf2 Hf3 Hf4. generalize (settleAuthRun (Some run) s0). intros s1.
  change (win s0) with (win s). change (onedriveProcess s0) with (onedriveProcess s).
  change (children s0) with (children s). change (delivered s0) with (delivered s).
  intros Hl Hf1 Hf2 Hf3 Hf4.
  exists (set_authWindow None (window_close w s1)).
  split; [|unfold window_close; simpl; by rewrite Hf1, Hf2].
  unfold winSend, window_close, add_listeners. simpl.
  rewrite Hf1, Hwin. simpl. rewrite Hf2, Hp, Hf3, Hch, Hex. simpl.
  unfold send. simpl. by rewrite Hf4, app_nil_r.
Qed.

(** C2: when the redirect URL has been written to the response file and the
    auth window is still referenced, [handleAuthRedirect] settles the run
    there and then, before the auth process has exited and before the token
    file is looked at.  With the process still running the only event it
    sends is the intermediate [success], no terminal one, and it registers
    [decideAfterExit] for the ['exit'] and the ['close'] of the process; when
    the process then exits, [decideAfterExit] looks for the token on the disk
    as it is by then and sends the terminal event, and no run changes. *)
Theorem handleAuthRedirect_settles_at_redirect (homedir : string) (flt : FsFaults)
    (mpid : option nat) (url : string) (run w : nat) (a : AuthRun) (s : State) :
  writeFile_fails flt (ONEDRIVE_RESPONSE_FILE homedir) = false →
  authWindow s = Some w →
  runs s !! run = Some a →
  let s' := handleAuthRedirect homedir flt mpid url (Some run) s in
  runs s' !! run = Some (mkAuthRun (id a) true)
  ∧ files (disk s') !! ONEDRIVE_RESPONSE_FILE homedir = Some url
  ∧ (∀ p ch, onedriveProcess s = Some p → children s !! p = Some ch → exitCode ch = None →
       win s = true →
       delivered s' = delivered s
                      ++ [mkEvent auth_result success
                                  "Authentifizierung erfolgreich abgeschlossen"]
       ∧ terminal_events s' = terminal_events s
       ∧ onedriveProcess s' = Some p
       ∧ children s' !! p
         = Some (mkChild (command ch) (args ch) (pid ch) None (signalCode ch) (onError ch)
                         (onExit ch ++ [DecideAfterExit]) (onClose ch ++ [DecideAfterExit]))
       ∧ (onExit ch = [AuthExitObserver run] →
          ∀ (d : FileSystem) (mpid' : option nat) (code : option Z) (signal : option Signal),
            let exited := emit_exit homedir mpid' p code signal (set_disk d s') in
            terminal_events exited
            = terminal_events s
              ++ [if existsSync (tokenPath homedir) d
                  then mkEvent auth_result completed
                         "OneDrive Authentifizierung abgeschlossen"
                  else mkEvent auth_result error
                         "OneDrive Authentifizierung fehlgeschlagen (kein Token gefunden)"]
            ∧ runs exited = runs s'))
  ∧ (∀ mpid' s0, same_runs s0 (decideAfterExit homedir mpid' s0)).
Proof.
  intros Hw Haw Hrun s'.
  split; [|split; [|split]].
  - unfold s', handleAuthRedirect, writeFile. rewrite Hw.
    set (s0 := set_disk _ s).
    destruct (handleAuthRedirect_written_frame homedir mpid (Some run) s0) as [_ [Hr _]].
    change (authWindow s0) with (authWindow s) in Hr. rewrite Haw in Hr.
    rewrite Hr. by apply settleAuthRun_lookup.
  - unfold s', handleAuthRedirect, writeFile. rewrite Hw.
    set (s0 := set_disk _ s).
    destruct (handleAuthRedirect_written_frame homedir mpid (Some run) s0) as [Hd _].
    rewrite Hd. simpl. apply lookup_insert_eq.
  - intros p ch Hp Hch Hex Hwin.
    destruct (handleAuthRedirect_running homedir flt mpid url run w a p ch s
                Hw Haw Hrun Hp Hch Hex Hwin) as (s1 & Heq & Hl & Hw1 & Hp1).
    fold s' in Heq.
    assert (Hlt : p < length (children s)) by (by eapply lookup_lt_Some).
    assert (Hte : terminal_events s' = terminal_events s).
    { rewrite Heq. unfold terminal_events. simpl. rewrite filter_app. simpl.
      by rewrite app_nil_r. }
    split; [by rewrite Heq|]. split; [exact Hte|]. split; [by rewrite Heq|].
    split; [rewrite Heq; simpl; by apply list_lookup_insert_eq|].
    intros Hobs d mpid' code signal exited.
    set (ch' := mkChild (command ch) (args ch) (pid ch) None (signalCode ch) (onError ch)
                        (onExit ch ++ [DecideAfterExit]) (onClose ch ++ [DecideAfterExit])).
    assert (Hch' : children (set_disk d s') !! p = Some ch').
    { rewrite Heq. simpl. by apply list_lookup_insert_eq. }
    unfold exited, emit_exit. rewrite Hch'. unfold ch' at 2 3 4 5 6 7 8. simpl.
    rewrite Hobs. simpl.
    set (sx := set_children _ (set_disk d s')).
    assert (Hobserver : authExitObserver run code signal sx = set_onedriveProcess None sx).
    { unfold authExitObserver. destruct (_ || _); [done|].
      destruct (bool_decide _); [|done]. apply failAuthFlow_settled.
      unfold sx. rewrite Heq. simpl. by rewrite Hl. }
    rewrite Hobserver.
    set (sy := set_onedriveProcess None sx).
    assert (Hwy : win sy = true) by (unfold sy, sx; rewrite Heq; exact Hw1).
    assert (Hty : terminal_events sy = terminal_events s) by (rewrite <- Hte; done).
    assert (Hdy : disk sy = d) by done.
    assert (Hry : runs sy = runs s') by done.
    rewrite (decideAfterExit_terminal homedir mpid' sy Hwy), Hty, Hdy.
    split; [done|].
    destruct (decideAfterExit_same_runs homedir mpid' sy) as [Hr _]. by rewrite Hr.
  - intros mpid' s1. apply decideAfterExit_same_runs.
Qed.

Lemma handleAuthRedirect_settles_at_redirect_witness :
  runs (handleAuthRedirect home_user no_faults None nativeclient_url (Some 0) window_open) !! 0
  = Some (mkAuthRun 1000 true)
  ∧ (onExit <$> children (handleAuthRedirect home_user no_faults None nativeclient_url
                            (Some 0) window_open) !! 1)
    = Some [AuthExitObserver 0; DecideAfterExit]
  ∧ terminal_events
      (emit_exit home_user None 1 (Some 0%Z) None
         (set_disk (written (tokenPath home_user) "token" empty_disk)
            (handleAuthRedirect home_user no_faults None nativeclient_url (Some 0)
               window_open)))
    = [mkEvent auth_result completed "OneDrive Authentifizierung abgeschlossen"].
Proof.
  destruct (handleAuthRedirect_settles_at_redirect
              home_user no_faults None nativeclient_url 0 0 (mkAuthRun 1000 false) window_open
              eq_refl eq_refl eq_refl) as (Hsettled & _ & Hrunning & _).
  split; [exact Hsettled|].
  destruct (Hrunning 1 (mkChild "onedrive"
                          ["--confdir"; ONEDRIVE_CONFIG_DIR home_user; "--sync"; "--reauth";
                           "--auth-files";
                           ONEDRIVE_REQUEST_FILE home_user +:+ ":"
                           +:+ ONEDRIVE_RESPONSE_FILE home_user]
                          (Some 11) None None [AuthErrorObserver 0] [AuthExitObserver 0] [])
              eq_refl eq_refl eq_refl eq_refl) as (_ & _ & _ & Hreg & Hexit).
  split; [by rewrite Hreg|].
  by destruct (Hexit eq_refl (written (tokenPath home_user) "token" empty_disk) None
                 (Some 0%Z) None) as [-> _].
Defined.

(** C2, as the specification words it, fails: right after the redirect the
    run is settled although the auth process (child 1) has not exited, no
    token file exists and no terminal event has been sent. *)
Lemma settled_before_exit_and_token_check :
  runs redirected !! 0 = Some (mkAuthRun 1000 true)
  ∧ (exitCode <$> children redirected !! 1) = Some None
  ∧ onedriveProcess redirected = Some 1
  ∧ existsSync (tokenPath home_user) (disk redirected) = false
  ∧ terminal_events redirected = [].
Proof. repeat split; reflexivity. Qed.

(** ** The tracked run *)

(** [force-sync] leaves the runs alone, unless the sync process cannot be
    spawned: then the handler of uncaught exceptions runs. *)
Lemma forceSync_runs homedir env s :
  same_runs s (forceSync homedir env s).1
  ∨ ∃ s4, same_runs s s4 ∧ (forceSync homedir env s).1 = uncaughtException s4.
Proof.
  unfold forceSync, checkOnedriveInstallation, spawn.
  set (s1 := set_children _ s).
  assert (H1 : same_runs s s1) by (by split). clearbody s1.
  destruct (installed (which_outcome env)); simpl.
  2:{ left. eapply same_runs_trans; [exact H1 | apply winSend_same_runs]. }
  destruct (existsSync _ (disk s1)); simpl.
  2:{ left. eapply same_runs_trans; [exact H1 | apply winSend_same_runs]. }
  destruct (stop_run_frame (sigterm_throws env) (stop_events env) s1) as (H2 & _).
  destruct (stop_run _ _ s1) as [s2 call]. simpl in H2.
  assert (H12 : same_runs s s2) by (by eapply same_runs_trans).
  destruct (resolutions call) as [|wasRunning ws]; [by left|].
  set (s3 := if wasRunning then _ else s2).
  assert (H3 : same_runs s s3).
  { unfold s3. destruct wasRunning; [|exact H12].
    eapply same_runs_trans; [exact H12 | apply winSend_same_runs]. }
  clearbody s3.
  set (s4 := set_children _ s3).
  assert (H4 : same_runs s s4) by (eapply same_runs_trans; [exact H3 | by split]).
  clearbody s4.
  destruct (sync_output_frame (sync_output env) s4) as (H5 & _).
  set (s5 := foldl _ s4 (sync_output env)) in *.
  assert (H15 : same_runs s s5) by (by eapply same_runs_trans).
  clearbody s5.
  destruct (sync_outcome env) as [code| |]; simpl; [|by left|right; by exists s4].
  left.
  set (s6 := if bool_decide (code = Some 0%Z) then _ else _).
  assert (H6 : same_runs s s6).
  { unfold s6. destruct (bool_decide (code = Some 0%Z));
      (eapply same_runs_trans; [exact H15 | apply winSend_same_runs]). }
  clearbody s6.
  destruct (wasRunning || bool_decide (code = Some 0%Z)); [|exact H6].
  eapply same_runs_trans; [exact H6 | apply startOnedriveMonitor_same_runs].
Qed.

Lemma forceSync_active_unsettled homedir env s :
  active_unsettled s → active_unsettled (forceSync homedir env s).1.
Proof.
  intros Hinv. destruct (forceSync_runs homedir env s) as [H|(s4 & H4 & ->)].
  - by eapply same_runs_active_unsettled.
  - apply failAuthFlow_active_unsettled. by eapply same_runs_active_unsettled.
Qed.

Lemma sync_data_same_runs chunk s : same_runs s (sync_data chunk s).
Proof. unfold sync_data. destruct chunk as [[] msg]; apply winSend_same_runs. Qed.

Lemma startAuth_catch_active_unsettled e s :
  active_unsettled s → active_unsettled (startAuth_catch e s).1.
Proof.
  intros Hinv. unfold startAuth_catch. simpl.
  eapply same_runs_active_unsettled; [apply send_same_runs|].
  by apply failAuthFlow_active_unsettled.
Qed.

Lemma handleAuthRedirect_active_unsettled homedir flt mpid url run s :
  active_unsettled s → active_unsettled (handleAuthRedirect homedir flt mpid url run s).
Proof.
  intros Hinv. unfold handleAuthRedirect.
  destruct (writeFile flt _ url (disk s)) as [d|e].
  - destruct (handleAuthRedirect_written_frame homedir mpid run (set_disk d s)) as [_ Hr].
    eapply same_runs_active_unsettled; [exact Hr|].
    destruct (authWindow (set_disk d s)).
    + apply settleAuthRun_active_unsettled.
      eapply same_runs_active_unsettled; [|exact Hinv]. by split.
    + eapply same_runs_active_unsettled; [|exact Hinv]. by split.
  - by apply failAuthFlow_active_unsettled.
Qed.

Lemma run_listener_active_unsettled homedir mpid code signal s l :
  active_unsettled s → active_unsettled (run_listener homedir mpid code signal s l).
Proof.
  intros Hinv. destruct l as [run|run| |]; simpl.
  - by apply failAuthFlow_active_unsettled.
  - unfold authExitObserver.
    assert (Hc : active_unsettled (set_onedriveProcess None s)).
    { eapply same_runs_active_unsettled; [|exact Hinv]. by split. }
    destruct (_ || _); [exact Hc|].
    destruct (bool_decide _); [|exact Hc]. by apply failAuthFlow_active_unsettled.
  - eapply same_runs_active_unsettled; [apply decideAfterExit_same_runs | exact Hinv].
  - exact Hinv.
Qed.

Lemma listeners_active_unsettled homedir mpid code signal ls s :
  active_unsettled s →
  active_unsettled (foldl (run_listener homedir mpid code signal) s ls).
Proof.
  revert s. induction ls as [|l ls IH]; intros s Hinv; [exact Hinv|].
  cbn [foldl]. apply IH. by apply run_listener_active_unsettled.
Qed.

(** Every piece of code the event loop runs keeps the tracked run unsettled. *)
Lemma perform_active_unsettled homedir parseURL s a :
  active_unsettled s → active_unsettled (perform homedir parseURL s a).
Proof.
  intros Hinv. destruct a; simpl.
  - eapply same_runs_active_unsettled; [|apply (beginAuthRun_active_unsettled now s)].
    by split.
  - unfold startAuth_checked. destruct (installed o); simpl.
    + destruct (mkdir flt _ (disk s)) as [d|e].
      * simpl. eapply same_runs_active_unsettled; [|exact Hinv].
        unfold add_listeners, spawn. simpl. rewrite lookup_app_r, Nat.sub_diag by done.
        by split.
      * exact (startAuth_catch_active_unsettled e s Hinv).
    + apply settleAuthRun_active_unsettled.
      eapply same_runs_active_unsettled; [apply send_same_runs | exact Hinv].
  - unfold startAuth_url. destruct answer as [authUrl|e]; simpl.
    + eapply same_runs_active_unsettled; [|exact Hinv].
      unfold openAuthWindow, window_close. destruct (authWindow s); by split.
    + by apply startAuth_catch_active_unsettled.
  - unfold tryHandle. destruct (windows s !! w) as [aw|]; [|exact Hinv].
    destruct (_ && _); [|exact Hinv].
    apply handleAuthRedirect_active_unsettled.
    eapply same_runs_active_unsettled; [|exact Hinv]. by split.
  - by apply handleAuthRedirect_active_unsettled.
  - unfold window_closed. destruct (windows s !! w) as [aw|]; [|exact Hinv].
    destruct (closedListener aw); [|exact Hinv].
    set (s1 := set_authWindow None _).
    assert (H1 : active_unsettled s1).
    { eapply same_runs_active_unsettled; [|exact Hinv]. by split. }
    destruct (run_settled s1 (window_run aw)); [exact H1|].
    by apply failAuthFlow_active_unsettled.
  - unfold emit_exit. destruct (children s !! c) as [ch|]; [|exact Hinv].
    apply listeners_active_unsettled.
    eapply same_runs_active_unsettled; [|exact Hinv]. by split.
  - unfold emit_close. destruct (children s !! c) as [ch|]; [|exact Hinv].
    apply listeners_active_unsettled.
    eapply same_runs_active_unsettled; [|exact Hinv]. by split.
  - unfold emit_error. destruct (children s !! c) as [ch|]; [|exact Hinv].
    destruct (onError ch) as [|l ls] eqn:Hls.
    + destruct (bool_decide _); [exact Hinv|]. by apply failAuthFlow_active_unsettled.
    + by apply listeners_active_unsettled.
  - by apply failAuthFlow_active_unsettled.
  - by apply failAuthFlow_active_unsettled.
  - by apply forceSync_active_unsettled.
  - eapply same_runs_active_unsettled; [apply sync_data_same_runs | exact Hinv].
  - unfold maybeStartMonitorIfToken. destruct (existsSync _ _).
    + eapply same_runs_active_unsettled; [apply startOnedriveMonitor_same_runs | exact Hinv].
    + eapply same_runs_active_unsettled; [apply uiSend_same_runs | exact Hinv].
  - eapply same_runs_active_unsettled; [|exact Hinv].
    unfold beforeQuit, child_kill, process_kill, window_close, same_runs. crush.
  - eapply same_runs_active_unsettled; [|exact Hinv]. by split.
Qed.

Lemma perform_all_active_unsettled homedir parseURL acts s :
  active_unsettled s → active_unsettled (perform_all homedir parseURL acts s).
Proof.
  revert s. induction acts as [|a acts IH]; intros s Hinv; [exact Hinv|].
  unfold perform_all. cbn [foldl]. apply IH. by apply perform_active_unsettled.
Qed.

(** C3: in every state the controller reaches, the run it tracks in
    [activeAuthRun], if any, is one run and is not settled; a
    [start-onedrive-auth] that arrives then tracks its own new run and
    leaves every earlier run as it was, so the runs that are not settled
    become one more. *)
Theorem tracked_run_unsettled (homedir : string) (parseURL : string → option URL)
    (d : FileSystem) (acts : list Action) :
  let s := perform_all homedir parseURL acts (initial d) in
  active_unsettled s
  ∧ ∀ now wpid,
      let s' := (startAuth_begin now wpid s).2 in
      activeAuthRun s' = Some (length (runs s))
      ∧ runs s' = runs s ++ [mkAuthRun now false]
      ∧ unsettled_runs s' = S (unsettled_runs s)
      ∧ active_unsettled s'.
Proof.
  intros s. split.
  - apply perform_all_active_unsettled. intros r. discriminate.
  - intros now wpid s'.
    destruct (startAuth_begin_unsettled now wpid s) as (Ha & Hr & Hu).
    split; [exact Ha|]. split; [exact Hr|]. split; [exact Hu|].
    apply (perform_active_unsettled homedir parseURL s (StartAuth now wpid)).
    apply perform_all_active_unsettled. intros r. discriminate.
Qed.

Lemma tracked_run_unsettled_witness :
  active_unsettled started_then_fault
  ∧ unsettled_runs (startAuth_begin 2000 None started_then_fault).2
    = S (unsettled_runs started_then_fault).
Proof.
  destruct (tracked_run_unsettled home_user parse_known empty_disk
              [StartAuth 1000 None; UncaughtException]) as [Hinv Hnext].
  split; [exact Hinv|]. by destruct (Hnext 2000%Z None) as (_ & _ & Hu & _).
Defined.

(** C3, as the specification words it, fails: a second [start-onedrive-auth]
    arrives while the first run waits for the installation check, and two
    runs are unsettled at once. *)
Lemma two_unsettled_runs :
  unsettled_runs started_twice = 2
  ∧ runs started_twice = [mkAuthRun 1000 false; mkAuthRun 2000 false]
  ∧ activeAuthRun started_twice = Some 1
  ∧ ¬ (unsettled_runs started_twice ≤ 1).
Proof. repeat split; try reflexivity. vm_compute. lia. Qed.

(** ** Terminal events *)

(** C1: one auth attempt, from the command to the end of the auth process.
    The redirect settles the run; the uncaught fault that follows finds no
    tracked run and does nothing; the process then ends with code 0, and
    [decideAfterExit], registered for ['exit'] and for ['close'] and guarded
    by nothing, runs for both: the presentation layer receives the terminal
    [completed] event twice, and the monitor is started twice. *)
Theorem completed_delivered_twice :
  runs redirected = [mkAuthRun 1000 true]
  ∧ uncaughtException redirected = redirected
  ∧ terminal_events redirected_then_exit
    = [mkEvent auth_result completed "OneDrive Authentifizierung abgeschlossen";
       mkEvent auth_result completed "OneDrive Authentifizierung abgeschlossen"]
  ∧ monitors_spawned redirected_then_exit = 2
  ∧ runs redirected_then_exit = [mkAuthRun 1000 true].
Proof.
  split; [by vm_compute|]. split; [by vm_compute|]. split; [by vm_compute|].
  split; by vm_compute.
Qed.

(** * Further properties of the code *)

(** ** The configuration test and file *)

Lemma test_sync_dir_inv (s : string) (prev : bool) :
  test_sync_dir prev s = true →
  ∃ pre rest, s = pre +:+ "sync_dir" +:+ rest
              ∧ boundary_before prev pre = true ∧ boundary_behind rest = true.
Proof.
  revert prev. induction s as [|c s IH]; intros prev H;
    rewrite test_sync_dir_unfold in H; apply orb_true_iff in H as [H|H].
  - apply andb_true_iff in H as [_ H]. discriminate.
  - discriminate.
  - apply andb_true_iff in H as [Hp H].
    destruct (starts_with "sync_dir" (String c s)) as [rest|] eqn:Hs; [|discriminate].
    exists EmptyString, rest. split; [|by split].
    by apply starts_with_Some in Hs.
  - destruct (IH _ H) as (pre & rest & -> & Hb & Hr).
    exists (String c pre), rest. by rewrite append_cons.
Qed.

(** The test [/\bsync_dir\b/] answers [true] for exactly the contents where
    [sync_dir] stands as a whole word: not a word character before it nor
    after it. *)
Theorem hasSyncDir_whole_word (existing : string) :
  hasSyncDir existing = true
  ↔ ∃ pre rest, existing = pre +:+ "sync_dir" +:+ rest
                ∧ boundary_before false pre = true ∧ boundary_behind rest = true.
Proof.
  split.
  - apply test_sync_dir_inv.
  - intros (pre & rest & -> & Hb & Hr). by apply test_sync_dir_found.
Qed.

Lemma hasSyncDir_whole_word_witness :
  hasSyncDir custom_config = true.
Proof.
  apply (hasSyncDir_whole_word custom_config).
  exists ("# my settings" +:+ newline), (" = " +:+ quote +:+ "~/Cloud" +:+ quote +:+ newline).
  repeat split; reflexivity.
Defined.

(** [ensureOnedriveConfig] reads and writes one file: every other file keeps
    its content whatever fails; when the configuration directory cannot be
    made the disk stays as it is, and when the file cannot be written no file
    changes: the failure is swallowed. *)
Theorem ensureOnedriveConfig_touches_config_only (homedir : string) (flt : FsFaults)
    (d : FileSystem) :
  (∀ p, p ≠ ONEDRIVE_CONFIG_FILE homedir →
        files (ensureOnedriveConfig homedir flt d) !! p = files d !! p)
  ∧ (mkdir_fails flt (ONEDRIVE_CONFIG_DIR homedir) = true →
       ensureOnedriveConfig homedir flt d = d)
  ∧ (writeFile_fails flt (ONEDRIVE_CONFIG_FILE homedir) = true →
       files (ensureOnedriveConfig homedir flt d) = files d)
  ∧ dirs d ⊆ dirs (ensureOnedriveConfig homedir flt d).
Proof.
  unfold ensureOnedriveConfig, mkdir, readFile, writeFile.
  split; [|split; [|split]].
  - intros p Hp. repeat (case_match; simplify_eq; simpl; try done);
      by rewrite lookup_insert_ne.
  - intros ->. done.
  - intros ->. repeat (case_match; simplify_eq; simpl; try done).
  - repeat (case_match; simplify_eq; simpl; try done); set_solver.
Qed.

Lemma ensureOnedriveConfig_touches_config_only_witness :
  files (ensureOnedriveConfig home_user no_faults stale_response_only)
        !! ONEDRIVE_RESPONSE_FILE home_user
  = files stale_response_only !! ONEDRIVE_RESPONSE_FILE home_user.
Proof.
  destruct (ensureOnedriveConfig_touches_config_only home_user no_faults stale_response_only)
    as (Hother & _).
  apply Hother. by vm_compute.
Defined.

(** A configuration file that does not mention [sync_dir] is not kept: when
    the writes succeed the file is replaced by the default, and whatever it
    held is gone. *)
Theorem ensureOnedriveConfig_replaces_other_settings (homedir : string) (d : FileSystem)
    (existing : string) :
  files d !! ONEDRIVE_CONFIG_FILE homedir = Some existing →
  hasSyncDir existing = false →
  files (ensureOnedriveConfig homedir no_faults d) !! ONEDRIVE_CONFIG_FILE homedir
  = Some (default_config homedir).
Proof.
  intros Hf Hs. unfold ensureOnedriveConfig, mkdir, readFile, writeFile. simpl.
  rewrite Hf, Hs. simpl. apply lookup_insert_eq.
Qed.

Lemma ensureOnedriveConfig_replaces_other_settings_witness :
  files (ensureOnedriveConfig home_user no_faults other_settings_disk)
        !! ONEDRIVE_CONFIG_FILE home_user
  = Some (default_config home_user).
Proof.
  apply (ensureOnedriveConfig_replaces_other_settings home_user other_settings_disk
           "monitor_interval = 300"); reflexivity.
Defined.

(** ** The stale-file cleanup *)

(** What the cleanup does to the files. *)
Lemma clearOldAuthFiles_effects (homedir : string) (d : FileSystem) :
  (∀ p c, files (clearOldAuthFiles homedir d) !! p = Some c → files d !! p = Some c)
  ∧ (∀ p, p ≠ ONEDRIVE_REQUEST_FILE homedir → p ≠ ONEDRIVE_RESPONSE_FILE homedir →
          files (clearOldAuthFiles homedir d) !! p = files d !! p)
  ∧ dirs (clearOldAuthFiles homedir d) = dirs d.
Proof.
  unfold clearOldAuthFiles, unlink. split; [|split].
  - intros p c. destruct (files d !! ONEDRIVE_REQUEST_FILE homedir); simpl; [|done].
    destruct (delete _ (files d) !! ONEDRIVE_RESPONSE_FILE homedir); simpl.
    + intros H. apply lookup_delete_Some in H as [_ H].
      by apply lookup_delete_Some in H as [_ H].
    + intros H. by apply lookup_delete_Some in H as [_ H].
  - intros p Hq Hp. repeat (case_match; simplify_eq; simpl; try done);
      rewrite ?lookup_delete_ne by congruence; done.
  - repeat (case_match; simplify_eq; simpl; try done).
Qed.

(** The cleanup only removes, and only the two rendezvous files: every file
    left afterwards was there before with the same content, every other file
    is kept, and no directory changes. *)
Theorem clearOldAuthFiles_only_removes (homedir : string) (d : FileSystem) :
  (∀ p c, files (clearOldAuthFiles homedir d) !! p = Some c → files d !! p = Some c)
  ∧ (∀ p, p ≠ ONEDRIVE_REQUEST_FILE homedir → p ≠ ONEDRIVE_RESPONSE_FILE homedir →
          files (clearOldAuthFiles homedir d) !! p = files d !! p)
  ∧ dirs (clearOldAuthFiles homedir d) = dirs d.
Proof. apply clearOldAuthFiles_effects. Qed.

Lemma clearOldAuthFiles_only_removes_witness :
  files (clearOldAuthFiles home_user custom_disk) !! ONEDRIVE_CONFIG_FILE home_user
  = files custom_disk !! ONEDRIVE_CONFIG_FILE home_user.
Proof.
  destruct (clearOldAuthFiles_only_removes home_user custom_disk) as (_ & Hother & _).
  apply Hother; by vm_compute.
Defined.

(** ** Waiting for the request URL *)

Lemma string_rev_involutive (s : string) : string_rev (string_rev s) = s.
Proof.
  unfold string_rev.
  by rewrite list_ascii_of_string_of_list_ascii, rev_involutive,
    string_of_list_ascii_of_string.
Qed.

Lemma list_ascii_of_string_append (a b : string) :
  list_ascii_of_string (a +:+ b) = list_ascii_of_string a ++ list_ascii_of_string b.
Proof.
  induction a as [|x a IH]; [done|]. rewrite append_cons. simpl. by rewrite IH.
Qed.

Lemma string_of_list_ascii_append (l1 l2 : list ascii) :
  string_of_list_ascii (l1 ++ l2) = string_of_list_ascii l1 +:+ string_of_list_ascii l2.
Proof.
  induction l1 as [|x l1 IH]; [done|]. simpl. by rewrite IH, append_cons.
Qed.

Lemma string_rev_append (a b : string) :
  string_rev (a +:+ b) = string_rev b +:+ string_rev a.
Proof.
  unfold string_rev.
  by rewrite list_ascii_of_string_append, rev_app_distr, string_of_list_ascii_append.
Qed.

Lemma string_length_append (a b : string) :
  String.length (a +:+ b) = String.length a + String.length b.
Proof. induction a as [|x a IH]; [done|]. rewrite append_cons. simpl. by rewrite IH. Qed.

(** *** Skipping white space *)

Lemma skip_one_Some (ws : list string) (s rest : string) :
  skip_one ws s = Some rest → ∃ w, w ∈ ws ∧ s = w +:+ rest.
Proof.
  induction ws as [|w ws IH]; [done|]. simpl.
  destruct (starts_with w s) as [r|] eqn:Hs.
  - intros [= <-]. exists w. split; [left|]. by apply starts_with_Some.
  - intros H. destruct (IH H) as (w' & Hin & ->). exists w'. split; [by right|done].
Qed.

Lemma skip_one_None (ws : list string) (s : string) :
  skip_one ws s = None → ∀ w, w ∈ ws → starts_with w s = None.
Proof.
  induction ws as [|w ws IH]; intros H w' Hin; [by apply elem_of_nil in Hin|].
  simpl in H. destruct (starts_with w s) eqn:Hs; [discriminate|].
  apply elem_of_cons in Hin as [->|Hin]; [exact Hs | by apply IH].
Qed.

Lemma skip_one_None_intro (ws : list string) (s : string) :
  (∀ w, w ∈ ws → starts_with w s = None) → skip_one ws s = None.
Proof.
  induction ws as [|w ws IH]; intros H; [done|]. simpl.
  rewrite (H w) by left. apply IH. intros w' Hin. apply H. by right.
Qed.

(** White space at the head of a prefix is white space at the head of the
    whole. *)
Lemma skip_one_prefix (ws : list string) (p suffix : string) :
  skip_one ws (p +:+ suffix) = None → skip_one ws p = None.
Proof.
  intros H. apply skip_one_None_intro. intros w Hin.
  destruct (starts_with w p) as [r|] eqn:Hs; [|done].
  apply starts_with_Some in Hs. subst p.
  pose proof (skip_one_None ws _ H w Hin) as Hn.
  by rewrite append_assoc, starts_with_append in Hn.
Qed.

Lemma skip_all_done (n : nat) (ws : list string) (s : string) :
  skip_one ws s = None → skip_all n ws s = s.
Proof. intros H. destruct n; simpl; [done|]. by rewrite H. Qed.

Lemma skip_all_suffix (n : nat) (ws : list string) (s : string) :
  ∃ before, s = before +:+ skip_all n ws s.
Proof.
  revert s. induction n as [|n IH]; intros s; simpl; [by exists EmptyString|].
  destruct (skip_one ws s) as [rest|] eqn:Hs; [|by exists EmptyString].
  destruct (skip_one_Some ws s rest Hs) as (w & _ & ->).
  destruct (IH rest) as [before Hb]. exists (w +:+ before).
  by rewrite append_assoc, <- Hb.
Qed.

Lemma skip_all_no_more (n : nat) (ws : list string) (s : string) :
  Forall (λ w, w ≠ EmptyString) ws → String.length s ≤ n →
  skip_one ws (skip_all n ws s) = None.
Proof.
  intros Hne. revert s. induction n as [|n IH]; intros s Hlen; simpl.
  - destruct s; [|simpl in Hlen; lia].
    apply skip_one_None_intro. intros w Hin.
    rewrite Forall_forall in Hne. specialize (Hne w Hin). by destruct w.
  - destruct (skip_one ws s) as [rest|] eqn:Hs; [|exact Hs].
    apply IH. destruct (skip_one_Some ws s rest Hs) as (w & Hin & ->).
    rewrite Forall_forall in Hne. specialize (Hne w Hin).
    rewrite string_length_append in Hlen. destruct w; [done|]. simpl in Hlen. lia.
Qed.

Lemma strip_no_more (ws : list string) (s : string) :
  Forall (λ w, w ≠ EmptyString) ws → skip_one ws (strip ws s) = None.
Proof. intros Hne. by apply skip_all_no_more. Qed.

Lemma strip_done (ws : list string) (s : string) : skip_one ws s = None → strip ws s = s.
Proof. apply skip_all_done. Qed.

Lemma white_space_not_empty : Forall (λ w, w ≠ EmptyString) white_space.
Proof.
  apply Forall_forall. intros w Hin ->. vm_compute in Hin.
  repeat (apply elem_of_cons in Hin as [Hin|Hin]; [discriminate|]).
  by apply elem_of_nil in Hin.
Qed.

Lemma white_space_rev_not_empty :
  Forall (λ w, w ≠ EmptyString) (string_rev <$> white_space).
Proof.
  apply Forall_forall. intros w Hin ->. vm_compute in Hin.
  repeat (apply elem_of_cons in Hin as [Hin|Hin]; [discriminate|]).
  by apply elem_of_nil in Hin.
Qed.

(** What [trim] leaves starts with no white space and ends with none. *)
Lemma trim_start_no_more (s : string) : skip_one white_space (trim_start s) = None.
Proof. apply strip_no_more, white_space_not_empty. Qed.

Lemma trim_end_prefix (s : string) : ∃ suffix, s = trim_end s +:+ suffix.
Proof.
  unfold trim_end, strip.
  destruct (skip_all_suffix (String.length (string_rev s)) (string_rev <$> white_space)
              (string_rev s)) as [before Hb].
  exists (string_rev before). apply (f_equal string_rev) in Hb.
  by rewrite string_rev_involutive, string_rev_append in Hb.
Qed.

Lemma trim_end_idempotent (s : string) : trim_end (trim_end s) = trim_end s.
Proof.
  unfold trim_end. rewrite string_rev_involutive. f_equal.
  apply strip_done, strip_no_more, white_space_rev_not_empty.
Qed.

Lemma trim_no_more (s : string) : skip_one white_space (trim s) = None.
Proof.
  unfold trim. destruct (trim_end_prefix (trim_start s)) as [suffix Hs].
  apply (skip_one_prefix _ _ suffix). rewrite <- Hs. apply trim_start_no_more.
Qed.

Lemma trim_idempotent (s : string) : trim (trim s) = trim s.
Proof.
  unfold trim at 1. unfold trim_start. rewrite strip_done by apply trim_no_more.
  unfold trim. apply trim_end_idempotent.
Qed.

Lemma checkFile_not_yet (homedir : string) (d : FileSystem) :
  no_request_yet homedir d → checkFile homedir d = Returned None.
Proof.
  unfold no_request_yet, checkFile, existsSync, readFile.
  destruct (files d !! ONEDRIVE_REQUEST_FILE homedir) as [c|] eqn:Hf.
  - intros Ht. rewrite bool_decide_eq_true_2 by eauto. simpl. by rewrite Ht.
  - intros Hd. rewrite bool_decide_eq_false_2 by (by intros [? ?]).
    by rewrite bool_decide_eq_false_2.
Qed.

Lemma checkFile_url (homedir : string) (d : FileSystem) (c : string) :
  files d !! ONEDRIVE_REQUEST_FILE homedir = Some c → trim c ≠ EmptyString →
  checkFile homedir d = Returned (Some (trim c)).
Proof.
  intros Hf Ht. unfold checkFile, existsSync, readFile. rewrite Hf.
  rewrite bool_decide_eq_true_2 by eauto. simpl. by destruct (trim c).
Qed.

Lemma checkFile_None_inv (homedir : string) (d : FileSystem) :
  checkFile homedir d = Returned None → no_request_yet homedir d.
Proof.
  unfold no_request_yet, checkFile, existsSync, readFile.
  destruct (files d !! ONEDRIVE_REQUEST_FILE homedir) as [c|] eqn:Hf.
  - rewrite bool_decide_eq_true_2 by eauto. simpl. by destruct (trim c).
  - rewrite bool_decide_eq_false_2 by (by intros [? ?]). simpl.
    case_bool_decide; [discriminate | done].
Qed.

(** [waitForAuthUrl] answers with the first request file that holds more
    than white space, trimmed at both ends; the polls before it, where the
    file is missing or blank, are no error, and what the polls after it would
    find does not matter. *)
Theorem waitForAuthUrl_first_url (homedir : string) (before after : list FileSystem)
    (d : FileSystem) (content : string) :
  Forall (no_request_yet homedir) before →
  files d !! ONEDRIVE_REQUEST_FILE homedir = Some content →
  trim content ≠ EmptyString →
  waitForAuthUrl homedir (before ++ d :: after) = Returned (trim content)
  ∧ trim (trim content) = trim content.
Proof.
  intros Hb Hf Ht. split; [|apply trim_idempotent].
  induction Hb as [|d0 before Hd0 _ IH]; simpl.
  - by rewrite (checkFile_url homedir d content).
  - by rewrite (checkFile_not_yet homedir d0).
Qed.

Lemma waitForAuthUrl_first_url_witness :
  waitForAuthUrl home_user
    [empty_disk;
     written (ONEDRIVE_REQUEST_FILE home_user) ("  " +:+ utf8 [194; 160]) empty_disk;
     written (ONEDRIVE_REQUEST_FILE home_user)
       (utf8 [239; 187; 191] +:+ " https://x/a b" +:+ utf8 [226; 128; 168] +:+ newline)
       empty_disk;
     empty_disk]
  = Returned "https://x/a b".
Proof.
  apply (waitForAuthUrl_first_url home_user
           [empty_disk;
            written (ONEDRIVE_REQUEST_FILE home_user) ("  " +:+ utf8 [194; 160]) empty_disk]
           [empty_disk]
           (written (ONEDRIVE_REQUEST_FILE home_user)
              (utf8 [239; 187; 191] +:+ " https://x/a b" +:+ utf8 [226; 128; 168] +:+ newline)
              empty_disk)
           (utf8 [239; 187; 191] +:+ " https://x/a b" +:+ utf8 [226; 128; 168] +:+ newline)).
  - repeat constructor; by vm_compute.
  - by vm_compute.
  - by vm_compute.
Defined.

(** [waitForAuthUrl] rejects with its timeout exactly when no poll before
    the 120000 ms timer found a request file with more than white space. *)
Theorem waitForAuthUrl_timeout (homedir : string) (polls : list FileSystem) :
  waitForAuthUrl homedir polls = Thrown "Timeout: Keine Auth-URL erhalten"
  ↔ Forall (no_request_yet homedir) polls.
Proof.
  induction polls as [|d polls IH]; simpl.
  - split; [by constructor | done].
  - destruct (checkFile homedir d) as [[url|]|e] eqn:Hc.
    + split; [discriminate|]. intros H. apply Forall_cons_1 in H as [H _].
      apply checkFile_not_yet in H. congruence.
    + rewrite IH. split; [|by intros [_ ?]%Forall_cons_1].
      intros H. constructor; [by apply checkFile_None_inv | exact H].
    + split.
      * intros [= ->]. unfold checkFile, readFile in Hc.
        repeat (case_match; simplify_eq).
      * intros H. apply Forall_cons_1 in H as [H _].
        apply checkFile_not_yet in H. congruence.
Qed.

Lemma waitForAuthUrl_timeout_witness :
  waitForAuthUrl home_user
    [empty_disk;
     written (ONEDRIVE_REQUEST_FILE home_user) (utf8 [194; 160] +:+ utf8 [227; 128; 128])
       empty_disk]
  = Thrown "Timeout: Keine Auth-URL erhalten".
Proof.
  apply (waitForAuthUrl_timeout home_user
           [empty_disk;
            written (ONEDRIVE_REQUEST_FILE home_user)
              (utf8 [194; 160] +:+ utf8 [227; 128; 128]) empty_disk]).
  repeat constructor; by vm_compute.
Defined.

(** ** The output of the monitor *)

Lemma uiSend_on ch st msg s :
  isQuitting s = false → win s = true → uiSend ch st msg s = send ch st msg s.
Proof. intros Hq Hw. unfold uiSend. by rewrite Hq, Hw. Qed.

Lemma uiSend_off ch st msg s :
  isQuitting s = true ∨ win s = false → uiSend ch st msg s = s.
Proof. unfold uiSend. intros [->| ->]; [done | by destruct (isQuitting s)]. Qed.

(** The events a list of lines turns into: one for each line that is not
    blank, with the line trimmed as its message. *)
Lemma monitor_lines_events (st : string → Status) (lines : list string) (s : State) :
  isQuitting s = false → win s = true →
  foldl (λ s line, match trim line with
                   | EmptyString => s
                   | msg => uiSend sync_result (st msg) msg s
                   end) s lines
  = set_delivered
      (delivered s
       ++ ((λ msg, mkEvent sync_result (st msg) msg)
             <$> filter (λ msg, msg ≠ EmptyString) (trim <$> lines))) s.
Proof.
  revert s. induction lines as [|line lines IH]; intros s Hq Hw.
  - simpl. rewrite app_nil_r. by destruct s.
  - cbn [foldl]. rewrite fmap_cons. destruct (trim line) as [|c msg] eqn:Ht.
    + rewrite IH by done. by rewrite filter_cons_False by (by intros ?).
    + rewrite uiSend_on by done. rewrite IH by done.
      rewrite filter_cons_True by done. rewrite fmap_cons. simpl.
      by rewrite <- (assoc_L (++)).
Qed.

Lemma monitor_lines_off (st : string → Status) (lines : list string) (s : State) :
  isQuitting s = true ∨ win s = false →
  foldl (λ s line, match trim line with
                   | EmptyString => s
                   | msg => uiSend sync_result (st msg) msg s
                   end) s lines = s.
Proof.
  intros Hoff. induction lines as [|line lines IH]; [done|].
  cbn [foldl]. destruct (trim line); [exact IH|]. by rewrite uiSend_off.
Qed.

(** Matching without case, by concatenation. *)
Lemma lowercase_append (a b : string) : lowercase (a +:+ b) = lowercase a +:+ lowercase b.
Proof. induction a as [|x a IH]; [done|]. rewrite append_cons. simpl. by rewrite IH. Qed.

Lemma starts_with_ci_spec (p s : string) :
  starts_with_ci p s = true
  ↔ ∃ mid rest, s = mid +:+ rest ∧ lowercase mid = lowercase p.
Proof.
  revert s. induction p as [|a p IH]; intros s.
  - split; [intros _; by exists EmptyString, s | by destruct s].
  - destruct s as [|b s]; simpl.
    + split; [done|]. intros (mid & rest & Hs & Hl). destruct mid; [done|].
      by rewrite append_cons in Hs.
    + rewrite andb_true_iff, Ascii.eqb_eq, IH. split.
      * intros (Hab & mid & rest & -> & Hl). exists (String b mid), rest.
        split; [done|]. simpl. by rewrite Hab, Hl.
      * intros (mid & rest & Hs & Hl). destruct mid as [|c mid]; [done|].
        rewrite append_cons in Hs. simpl in Hl. simplify_eq. split; [done|]. eauto.
Qed.

Lemma contains_ci_unfold (p s : string) :
  contains_ci p s
  = starts_with_ci p s
    || match s with
       | EmptyString => false
       | String _ s' => contains_ci p s'
       end.
Proof. by destruct s. Qed.

Lemma contains_ci_spec (p s : string) :
  contains_ci p s = true
  ↔ ∃ before mid rest, s = before +:+ mid +:+ rest ∧ lowercase mid = lowercase p.
Proof.
  induction s as [|c s IH]; rewrite contains_ci_unfold, orb_true_iff, starts_with_ci_spec.
  - split.
    + intros [(mid & rest & Hs & Hl)|?]; [|done]. by exists EmptyString, mid, rest.
    + intros (before & mid & rest & Hs & Hl). left. destruct before; [|done].
      by exists mid, rest.
  - rewrite IH. split.
    + intros [(mid & rest & Hs & Hl)|(before & mid & rest & -> & Hl)].
      * by exists EmptyString, mid, rest.
      * by exists (String c before), mid, rest.
    + intros (before & mid & rest & Hs & Hl). destruct before as [|b before].
      * left. by exists mid, rest.
      * right. rewrite append_cons in Hs. simplify_eq. by exists before, mid, rest.
Qed.

(** A chunk of the monitor's stdout becomes one [sync-result] event for each
    of its lines that is not blank, in order, the trimmed line as message,
    [success] for a line with the completion phrase in any letter case and
    [info] for any other; nothing else of the state changes.  A line has the
    phrase when some part of it, anywhere in the line, is the phrase up to the
    case of its letters. *)
Theorem monitor_stdout_events (text : string) (s : State) :
  isQuitting s = false → win s = true →
  monitor_stdout text s
  = set_delivered
      (delivered s
       ++ ((λ msg, mkEvent sync_result (if isComplete msg then success else info) msg)
             <$> filter (λ msg, msg ≠ EmptyString) (trim <$> split_lines text))) s
  ∧ ∀ msg, isComplete msg = true
           ↔ ∃ before mid rest,
               msg = before +:+ mid +:+ rest
               ∧ lowercase mid = lowercase "Sync with Microsoft OneDrive is complete".
Proof.
  intros Hq Hw. split.
  - exact (monitor_lines_events (λ msg, if isComplete msg then success else info)
             (split_lines text) s Hq Hw).
  - intros msg. apply contains_ci_spec.
Qed.

Lemma monitor_stdout_events_witness :
  delivered (monitor_stdout
               ("Syncing changes" +:+ utf8 [13; 10] +:+ utf8 [194; 160] +:+ newline
                +:+ utf8 [194; 160]
                +:+ " 12:00 sync with microsoft ONEDRIVE is complete." +:+ newline
                +:+ "Sync with Microsoft OneDrive is completing" +:+ utf8 [227; 128; 128])
               (initial empty_disk))
  = [mkEvent sync_result info "Syncing changes";
     mkEvent sync_result success "12:00 sync with microsoft ONEDRIVE is complete.";
     mkEvent sync_result info "Sync with Microsoft OneDrive is completing"].
Proof.
  destruct (monitor_stdout_events
              ("Syncing changes" +:+ utf8 [13; 10] +:+ utf8 [194; 160] +:+ newline
               +:+ utf8 [194; 160]
               +:+ " 12:00 sync with microsoft ONEDRIVE is complete." +:+ newline
               +:+ "Sync with Microsoft OneDrive is completing" +:+ utf8 [227; 128; 128])
              (initial empty_disk) eq_refl eq_refl) as [-> _].
  by vm_compute.
Defined.

(** A chunk of the monitor's stderr becomes one [warning] event for each of
    its lines that is not blank, whatever the line says. *)
Theorem monitor_stderr_events (text : string) (s : State) :
  isQuitting s = false → win s = true →
  monitor_stderr text s
  = set_delivered
      (delivered s
       ++ ((λ msg, mkEvent sync_result warning msg)
             <$> filter (λ msg, msg ≠ EmptyString) (trim <$> split_lines text))) s.
Proof.
  intros Hq Hw. exact (monitor_lines_events (λ _, warning) (split_lines text) s Hq Hw).
Qed.

Lemma monitor_stderr_events_witness :
  delivered (monitor_stderr
               (utf8 [226; 128; 131] +:+ "Sync with Microsoft OneDrive is complete"
                +:+ utf8 [13; 10] +:+ utf8 [239; 187; 191] +:+ newline
                +:+ "no network  ")
               (initial empty_disk))
  = [mkEvent sync_result warning "Sync with Microsoft OneDrive is complete";
     mkEvent sync_result warning "no network"].
Proof.
  rewrite (monitor_stderr_events _ (initial empty_disk) eq_refl eq_refl).
  by vm_compute.
Defined.

(** Once the app is quitting, or without a main window, the output of the
    monitor reaches nobody: both handlers leave the state as it is. *)
Theorem monitor_output_suppressed (text : string) (s : State) :
  isQuitting s = true ∨ win s = false →
  monitor_stdout text s = s ∧ monitor_stderr text s = s.
Proof.
  intros Hoff. split.
  - exact (monitor_lines_off (λ msg, if isComplete msg then success else info)
             (split_lines text) s Hoff).
  - exact (monitor_lines_off (λ _, warning) (split_lines text) s Hoff).
Qed.

Lemma monitor_output_suppressed_witness :
  monitor_stdout "Sync with Microsoft OneDrive is complete" (beforeQuit running_monitor)
  = beforeQuit running_monitor.
Proof.
  apply (monitor_output_suppressed "Sync with Microsoft OneDrive is complete"
           (beforeQuit running_monitor)).
  left. reflexivity.
Defined.

(** ** failAuthFlow *)

Ltac crush_eq :=
  repeat (simpl in *; simplify_eq; try done; try congruence; case_match);
  simpl in *; simplify_eq; try done; try congruence.

Lemma run_settled_runs s s' run : runs s' = runs s → run_settled s' run = run_settled s run.
Proof. intros H. unfold run_settled. by rewrite H. Qed.

Lemma failAuthFlow_settles msg run s : run_settled (failAuthFlow msg run s) run = true.
Proof.
  destruct (run_settled s run) eqn:Hs.
  - by rewrite failAuthFlow_settled.
  - destruct (failAuthFlow_after_settle msg run s Hs) as [Hr _].
    rewrite (run_settled_runs _ _ run Hr). apply settleAuthRun_settles.
Qed.

(** What [failAuthFlow] does to everything but the runs and the events, on
    a run that is not settled. *)
Lemma failAuthFlow_teardown msg run s :
  run_settled s run = false →
  let s' := failAuthFlow msg run s in
  authWindow s' = None ∧ onedriveProcess s' = None
  ∧ windows s' = match authWindow s with
                 | Some w => if window_destroyed s w then windows s
                             else alter (λ a, mkWindow (window_run a) (initialAuthUrl a)
                                                       (redirectHandled a) (closedListener a)
                                                       true) w (windows s)
                 | None => windows s
                 end
  ∧ signals s' = match onedriveProcess s with
                 | Some p => signals (child_kill p s)
                 | None => signals s
                 end
  ∧ children s' = children s ∧ disk s' = disk s
  ∧ onedriveMonitorProcess s' = onedriveMonitorProcess s
  ∧ isQuitting s' = isQuitting s ∧ win s' = win s.
Proof.
  intros Hu. unfold failAuthFlow. rewrite Hu. unfold settleAuthRun. rewrite Hu.
  destruct run as [r|]; [|done]. clear Hu.
  unfold uiSend, send, child_kill, process_kill, window_close, window_destroyed.
  crush_eq.
Qed.

(** A run gets at most one error from [failAuthFlow]: a second call for the
    same run, with whatever message, changes nothing; and after a fault
    handler has failed the tracked run, the next fault finds no run to fail. *)
Theorem failAuthFlow_once (msg1 msg2 : string) (run : option nat) (s : State) :
  failAuthFlow msg2 run (failAuthFlow msg1 run s) = failAuthFlow msg1 run s
  ∧ uncaughtException (uncaughtException s) = uncaughtException s
  ∧ unhandledRejection (uncaughtException s) = uncaughtException s
  ∧ uncaughtException (unhandledRejection s) = unhandledRejection s.
Proof.
  assert (Hagain : ∀ m1 m2 s0,
             failAuthFlow m2 (activeAuthRun (failAuthFlow m1 (activeAuthRun s0) s0))
                          (failAuthFlow m1 (activeAuthRun s0) s0)
             = failAuthFlow m1 (activeAuthRun s0) s0).
  { intros m1 m2 s0. destruct (run_settled s0 (activeAuthRun s0)) eqn:Hs.
    - rewrite (failAuthFlow_settled m1 _ s0 Hs). by apply failAuthFlow_settled.
    - destruct (activeAuthRun s0) as [r|] eqn:Ha; [|done].
      simpl in Hs. destruct (runs s0 !! r) as [a|] eqn:Hr; [|done].
      destruct (failAuthFlow_unsettled m1 r s0 a Hr Hs) as (_ & Hact & _).
      rewrite Ha, bool_decide_eq_true_2 in Hact by done.
      rewrite Hact. by apply failAuthFlow_settled. }
  split; [|split; [|split]].
  - apply failAuthFlow_settled, failAuthFlow_settles.
  - apply Hagain.
  - apply Hagain.
  - apply Hagain.
Qed.

Lemma list_alter_lookup_destroyed (ws : list AuthWindow) (w : nat) :
  match alter (λ a, mkWindow (window_run a) (initialAuthUrl a) (redirectHandled a)
                             (closedListener a) true) w ws !! w with
  | Some a => destroyed a
  | None => true
  end = true.
Proof. rewrite list_lookup_alter_eq. by destruct (ws !! w). Qed.

(** On a run that is not settled [failAuthFlow] tears the attempt down: the
    run is settled, the auth window is closed and its reference cleared, an
    auth process that still runs is sent SIGTERM and its reference cleared;
    no file and no other process is touched. *)
Theorem failAuthFlow_tears_down (msg : string) (run : nat) (a : AuthRun) (s : State) :
  runs s !! run = Some a → settled a = false →
  let s' := failAuthFlow msg (Some run) s in
  runs s' !! run = Some (mkAuthRun (id a) true)
  ∧ authWindow s' = None ∧ onedriveProcess s' = None
  ∧ (∀ w, authWindow s = Some w → window_destroyed s' w = true)
  ∧ (∀ p ch q, onedriveProcess s = Some p → children s !! p = Some ch →
               pid ch = Some q → exitCode ch = None → signalCode ch = None →
               signals s' = signals s ++ [(q, SIGTERM)])
  ∧ (onedriveProcess s = None → signals s' = signals s)
  ∧ children s' = children s ∧ disk s' = disk s
  ∧ onedriveMonitorProcess s' = onedriveMonitorProcess s.
Proof.
  intros Hr Hs s'.
  assert (Hu : run_settled s (Some run) = false) by (simpl; by rewrite Hr).
  destruct (failAuthFlow_unsettled msg run s a Hr Hs) as (Hruns & _ & _).
  destruct (failAuthFlow_teardown msg (Some run) s Hu)
    as (Haw & Hp & Hw & Hk & Hc & Hd & Hm & _).
  fold s' in Hruns, Haw, Hp, Hw, Hk, Hc, Hd, Hm.
  split; [by rewrite Hruns, list_lookup_alter_eq, Hr|].
  split; [exact Haw|]. split; [exact Hp|]. split; [|split; [|split]].
  - intros w Hsw. unfold window_destroyed at 1. rewrite Hw, Hsw.
    destruct (window_destroyed s w) eqn:Hd0; [exact Hd0|].
    apply list_alter_lookup_destroyed.
  - intros p ch q Hsp Hch Hpid He Hsig. rewrite Hk, Hsp.
    unfold child_kill. by rewrite Hch, Hpid, He, Hsig.
  - intros Hnone. by rewrite Hk, Hnone.
  - done.
Qed.

Lemma failAuthFlow_tears_down_witness :
  runs (failAuthFlow "x" (Some 0) window_open) !! 0 = Some (mkAuthRun 1000 true)
  ∧ signals (failAuthFlow "x" (Some 0) window_open) = [(11, SIGTERM)]
  ∧ window_destroyed (failAuthFlow "x" (Some 0) window_open) 0 = true.
Proof.
  destruct (failAuthFlow_tears_down "x" 0 (mkAuthRun 1000 false) window_open
              eq_refl eq_refl) as (Hr & _ & _ & Hw & Hk & _).
  split; [exact Hr|]. split.
  - exact (Hk 1 _ 11 eq_refl eq_refl eq_refl eq_refl eq_refl).
  - exact (Hw 0 eq_refl).
Defined.

(** ** The auth window *)

(** The user closes the auth window before a redirect was handled: the run
    is settled, one [error] event tells of the cancellation, the auth process
    is told to end and both references are cleared; the handler is a [once]
    handler, a second ['closed'] of the same window does nothing. *)
Theorem window_closed_cancels (w run : nat) (a : AuthWindow) (r : AuthRun) (s : State) :
  windows s !! w = Some a → closedListener a = true → window_run a = Some run →
  runs s !! run = Some r → settled r = false →
  isQuitting s = false → win s = true →
  let s' := window_closed w s in
  runs s' !! run = Some (mkAuthRun (id r) true)
  ∧ delivered s' = delivered s
                   ++ [mkEvent auth_result error "Authentifizierung wurde abgebrochen"]
  ∧ authWindow s' = None ∧ onedriveProcess s' = None
  ∧ signals s' = match onedriveProcess s with
                 | Some p => signals (child_kill p s)
                 | None => signals s
                 end
  ∧ windows s' = <[w := closed_window a]> (windows s)
  ∧ window_closed w s' = s'.
Proof.
  intros Hw Hl Hrun Hr Hs Hq Hwin s'. unfold s', window_closed. rewrite Hw, Hl.
  destruct a as [wr iu rh cl de]. simpl in Hl, Hrun. subst wr cl. unfold closed_window.
  cbn [window_run initialAuthUrl redirectHandled].
  set (s1 := set_authWindow None _).
  assert (Hu : run_settled s1 (Some run) = false) by (simpl; by rewrite Hr).
  rewrite Hu.
  destruct (failAuthFlow_unsettled "Authentifizierung wurde abgebrochen" run s1 r Hr Hs)
    as (Hruns & _ & Hdel).
  destruct (failAuthFlow_teardown "Authentifizierung wurde abgebrochen" (Some run) s1 Hu)
    as (Haw & Hp & Hws & Hk & _).
  split; [by rewrite Hruns, list_lookup_alter_eq; simpl; rewrite Hr|].
  split; [rewrite Hdel; simpl; by rewrite Hq, Hwin|].
  split; [exact Haw|]. split; [exact Hp|]. split; [|split].
  - rewrite Hk. simpl. destruct (onedriveProcess s) as [p|]; [|done].
    unfold child_kill, process_kill. simpl.
    destruct (children s !! p) as [ch|]; [|done]. by repeat case_match.
  - exact Hws.
  - rewrite Hws. simpl.
    assert (Hlt : w < length (windows s)) by (by eapply lookup_lt_Some).
    by rewrite list_lookup_insert_eq.
Qed.

Lemma window_closed_cancels_witness :
  delivered (window_closed 0 window_open)
  = [mkEvent auth_result error "Authentifizierung wurde abgebrochen"]
  ∧ signals (window_closed 0 window_open) = [(11, SIGTERM)].
Proof.
  destruct (window_closed_cancels 0 0 (mkWindow (Some 0) authorize_url false true false)
              (mkAuthRun 1000 false) window_open eq_refl eq_refl eq_refl eq_refl eq_refl
              eq_refl eq_refl) as (_ & Hd & _ & _ & Hk & _).
  split; [exact Hd | exact Hk].
Defined.

(** When the window closes with its run already settled, as after a handled
    redirect, no cancellation is reported: no event, no signal, no change to
    any run. *)
Theorem window_closed_after_settling (w : nat) (a : AuthWindow) (s : State) :
  windows s !! w = Some a → run_settled s (window_run a) = true →
  let s' := window_closed w s in
  delivered s' = delivered s ∧ signals s' = signals s ∧ same_runs s s'
  ∧ authWindow s' = (if closedListener a then None else authWindow s).
Proof.
  intros Hw Hs. unfold window_closed. rewrite Hw.
  destruct (closedListener a); [|by repeat split].
  set (s1 := set_authWindow None _).
  assert (Hs1 : run_settled s1 (window_run a) = true) by exact Hs.
  rewrite Hs1. by repeat split.
Qed.

Lemma window_closed_after_settling_witness :
  delivered (window_closed 0 redirected) = delivered redirected
  ∧ signals (window_closed 0 redirected) = signals redirected.
Proof.
  destruct (window_closed_after_settling 0
              (mkWindow (Some 0) authorize_url true true true) redirected
              ltac:(by vm_compute) ltac:(by vm_compute)) as (Hd & Hk & _).
  split; [exact Hd | exact Hk].
Defined.

(** ** Stopping and starting the monitor *)

Lemma set_onedriveMonitorProcess_None_id s :
  onedriveMonitorProcess s = None → set_onedriveMonitorProcess None s = s.
Proof. destruct s. simpl. by intros ->. Qed.

(** With the timer out of the way and the reference cleared, what the old
    monitor still emits changes nothing. *)
Lemma stop_events_after_first evs s c :
  timeoutArmed c = false → onedriveMonitorProcess s = None →
  (foldl (λ sc e, stop_event e sc) (s, c) evs).1 = s.
Proof.
  revert c. induction evs as [|e evs IH]; intros c Ht Hm; [done|].
  cbn [foldl]. unfold stop_event.
  destruct e.
  - rewrite Ht. by apply IH.
  - destruct (exitListener c); [|by apply IH].
    rewrite set_onedriveMonitorProcess_None_id by done. apply IH; [|done].
    unfold done. by destruct (resolved c).
  - destruct (closeListener c); [|by apply IH].
    rewrite set_onedriveMonitorProcess_None_id by done. apply IH; [|done].
    unfold done. by destruct (resolved c).
Qed.

(** The forced kill belongs to the timer alone.  When the monitor reports
    ['exit'] or ['close'] first, SIGTERM is the only signal the stop sends
    and no event is delivered, whatever comes later; when the 3000 ms timer
    fires first, SIGKILL follows SIGTERM and one [warning] tells of the forced
    end.  Either way the monitor reference is cleared. *)
Theorem stop_forced_kill_only_by_timer (p : nat) (first : StopEvent)
    (later : list StopEvent) (s : State) :
  monitor_pid_number s = Some p →
  let s' := (stop_run false (first :: later) s).1 in
  onedriveMonitorProcess s' = None
  ∧ (first ≠ TimerFires →
       signals s' = signals s ++ [(p, SIGTERM)] ∧ delivered s' = delivered s)
  ∧ (first = TimerFires →
       signals s' = signals s ++ [(p, SIGTERM); (p, SIGKILL)]
       ∧ delivered s'
         = if win s
           then delivered s ++ [mkEvent sync_result warning
                                        "Monitor musste zwangsweise beendet werden"]
           else delivered s).
Proof.
  intros Hp s'. unfold s', stop_run, stopOnedriveMonitorGracefully. rewrite Hp.
  cbn [foldl].
  set (sc1 := stop_event first (process_kill p SIGTERM s,
                                mkStop (Some p) false true true true [])).
  assert (H1 : timeoutArmed sc1.2 = false ∧ onedriveMonitorProcess sc1.1 = None).
  { unfold sc1. destruct first; simpl; unfold winSend; by repeat case_match. }
  destruct H1 as [Ht Hm].
  rewrite (surjective_pairing sc1), stop_events_after_first by done.
  split; [exact Hm|]. unfold sc1. destruct first; simpl.
  - split; [done|]. intros _. unfold winSend, send. simpl.
    destruct (win s); simpl; by rewrite <- (assoc_L (++)).
  - split; [done | discriminate].
  - split; [done | discriminate].
Qed.

Lemma stop_forced_kill_only_by_timer_witness :
  signals (stop_run false [ExitEmitted; TimerFires; CloseEmitted] running_monitor).1
  = [(7, SIGTERM)]
  ∧ signals (stop_run false [TimerFires; ExitEmitted; CloseEmitted] running_monitor).1
    = [(7, SIGTERM); (7, SIGKILL)].
Proof.
  split.
  - destruct (stop_forced_kill_only_by_timer 7 ExitEmitted [TimerFires; CloseEmitted]
                running_monitor eq_refl) as (_ & Hexit & _).
    by destruct Hexit.
  - destruct (stop_forced_kill_only_by_timer 7 TimerFires [ExitEmitted; CloseEmitted]
                running_monitor eq_refl) as (_ & _ & Htimer).
    by destruct Htimer.
Defined.

(** What one call of [startOnedriveMonitor] does. *)
Lemma startOnedriveMonitor_effects (homedir : string) (mpid : option nat) (s : State) :
  let s' := startOnedriveMonitor homedir mpid s in
  onedriveMonitorProcess s' = Some (length (children s))
  ∧ children s'
    = children s ++ [mkChild "onedrive" ["--confdir"; ONEDRIVE_CONFIG_DIR homedir; "--monitor"]
                             mpid None None [] [MonitorExitLogger] []]
  ∧ monitors_spawned s' = S (monitors_spawned s)
  ∧ (∀ m ch q, onedriveMonitorProcess s = Some m → children s !! m = Some ch →
               pid ch = Some q → exitCode ch = None → signalCode ch = None →
               signals s' = signals s ++ [(q, SIGTERM)])
  ∧ (onedriveMonitorProcess s = None → signals s' = signals s).
Proof.
  intros s'. destruct (startOnedriveMonitor_spawns homedir mpid s) as [Hc Hm].
  fold s' in Hc, Hm. split; [exact Hm|]. split; [exact Hc|]. split; [|split].
  - unfold monitors_spawned at 1. rewrite Hc, monitors_spawned_app, one_monitor. lia.
  - intros m ch q Hsm Hch Hpid He Hsig.
    unfold s', startOnedriveMonitor, spawn, add_listeners, uiSend, send. rewrite Hsm.
    unfold child_kill, process_kill. rewrite Hch, Hpid, He, Hsig. crush.
  - intros Hnone. unfold s', startOnedriveMonitor, spawn, add_listeners, uiSend, send.
    rewrite Hnone. crush.
Qed.

(** [startOnedriveMonitor] never keeps two monitors: a monitor that is still
    referenced and running is sent SIGTERM, then exactly one new process is
    spawned and the reference points to it. *)
Theorem startOnedriveMonitor_replaces (homedir : string) (mpid : option nat) (s : State) :
  let s' := startOnedriveMonitor homedir mpid s in
  onedriveMonitorProcess s' = Some (length (children s))
  ∧ children s'
    = children s ++ [mkChild "onedrive" ["--confdir"; ONEDRIVE_CONFIG_DIR homedir; "--monitor"]
                             mpid None None [] [MonitorExitLogger] []]
  ∧ monitors_spawned s' = S (monitors_spawned s)
  ∧ (∀ m ch q, onedriveMonitorProcess s = Some m → children s !! m = Some ch →
               pid ch = Some q → exitCode ch = None → signalCode ch = None →
               signals s' = signals s ++ [(q, SIGTERM)])
  ∧ (onedriveMonitorProcess s = None → signals s' = signals s).
Proof. apply startOnedriveMonitor_effects. Qed.

Lemma startOnedriveMonitor_replaces_witness :
  signals (startOnedriveMonitor home_user (Some 8) running_monitor) = [(7, SIGTERM)]
  ∧ onedriveMonitorProcess (startOnedriveMonitor home_user (Some 8) running_monitor) = Some 1.
Proof.
  destruct (startOnedriveMonitor_replaces home_user (Some 8) running_monitor)
    as (Hm & _ & _ & Hk & _).
  split; [|exact Hm].
  exact (Hk 0 _ 7 eq_refl eq_refl eq_refl eq_refl eq_refl).
Defined.

(** The startup check and the [check-token] command read the same file:
    the monitor is started at app start exactly when [check-token] answers
    [true]; otherwise no process is spawned and the user is asked to
    authenticate. *)
Theorem maybeStartMonitorIfToken_by_token (homedir : string) (mpid : option nat) (s : State) :
  let s' := maybeStartMonitorIfToken homedir mpid s in
  (checkToken homedir s = true →
     monitors_spawned s' = S (monitors_spawned s)
     ∧ onedriveMonitorProcess s' = Some (length (children s)))
  ∧ (checkToken homedir s = false →
       children s' = children s ∧ signals s' = signals s
       ∧ onedriveMonitorProcess s' = onedriveMonitorProcess s
       ∧ (isQuitting s = false → win s = true →
            delivered s'
            = delivered s
              ++ [mkEvent auth_result info
                          "Kein gespeichertes Token gefunden – bitte authentifizieren"])).
Proof.
  unfold maybeStartMonitorIfToken, checkToken. simpl. split.
  - intros ->. destruct (startOnedriveMonitor_effects homedir mpid s) as (Hm & _ & Hn & _).
    by split.
  - intros ->. unfold uiSend. repeat split; try (by repeat case_match).
    all: try (intros -> ->; done).
Qed.

Lemma maybeStartMonitorIfToken_by_token_witness :
  monitors_spawned (maybeStartMonitorIfToken home_user (Some 7) with_token) = 1
  ∧ children (maybeStartMonitorIfToken home_user (Some 7) (initial empty_disk)) = [].
Proof.
  split.
  - destruct (maybeStartMonitorIfToken_by_token home_user (Some 7) with_token) as [Hyes _].
    by destruct (Hyes eq_refl).
  - destruct (maybeStartMonitorIfToken_by_token home_user (Some 7) (initial empty_disk))
      as [_ Hno].
    by destruct (Hno eq_refl).
Defined.

(** ** The start-onedrive-auth command *)

(** Without the client the command ends at once: it answers [failed] with
    reason [onedrive-not-installed], its run is settled and no longer
    tracked, one [error] event is sent, and nothing is written to the disk;
    the only process spawned is [which onedrive]. *)
Theorem startAuth_not_installed (homedir : string) (now : Z) (wpid apid : option nat)
    (o : CheckOutcome) (flt : FsFaults) (s : State) :
  installed o = false →
  let begun := startAuth_begin now wpid s in
  let ended := startAuth_checked homedir begun.1 o flt apid begun.2 in
  ended.2 = Some (Failed (Some "onedrive-not-installed"))
  ∧ begun.1 = length (runs s)
  ∧ runs ended.1 = runs s ++ [mkAuthRun now true]
  ∧ activeAuthRun ended.1 = None
  ∧ delivered ended.1
    = delivered s
      ++ [mkEvent auth_result error
                  "OneDrive ist nicht installiert. Bitte installieren Sie es zuerst."]
  ∧ children ended.1 = children s ++ [mkChild "which" ["onedrive"] wpid None None [] [] []]
  ∧ disk ended.1 = disk s ∧ onedriveProcess ended.1 = onedriveProcess s
  ∧ authWindow ended.1 = authWindow s ∧ signals ended.1 = signals s.
Proof.
  intros Hi begun ended. unfold ended, begun, startAuth_checked, startAuth_begin,
    beginAuthRun, spawn. rewrite Hi. simpl.
  unfold settleAuthRun. simpl.
  rewrite lookup_app_r, Nat.sub_diag by done. simpl.
  rewrite bool_decide_eq_true_2 by done. simpl.
  repeat split; try done.
  rewrite alter_app_r_alt by done. by rewrite Nat.sub_diag.
Qed.

Lemma startAuth_not_installed_witness :
  (startAuth_checked home_user 0 CheckError no_faults None
     (startAuth_begin 1000 None (initial empty_disk)).2).2
  = Some (Failed (Some "onedrive-not-installed")).
Proof.
  by destruct (startAuth_not_installed home_user 1000 None None CheckError no_faults
                 (initial empty_disk) eq_refl) as (Hr & _).
Defined.

(** The [catch] block of the command, reached by the timeout of
    [waitForAuthUrl] or by a failing [mkdir]: the tracked run, when it is not
    settled, is failed with the general message, and the message of the
    caught error is then sent as a second [error] event in any case; the
    answer is [failed] without a reason and no run is tracked afterwards. *)
Theorem startAuth_catch_reports (e : string) (s : State) :
  active_unsettled s → isQuitting s = false → win s = true →
  let s' := (startAuth_catch e s).1 in
  (startAuth_catch e s).2 = Failed None
  ∧ activeAuthRun s' = None
  ∧ (∀ r, activeAuthRun s = Some r →
          run_settled s' (Some r) = true ∧ authWindow s' = None ∧ onedriveProcess s' = None
          ∧ delivered s'
            = delivered s
              ++ [mkEvent auth_result error "OneDrive Authentifizierung fehlgeschlagen";
                  mkEvent auth_result error e])
  ∧ (activeAuthRun s = None →
       delivered s' = delivered s ++ [mkEvent auth_result error e] ∧ same_runs s s').
Proof.
  intros Hinv Hq Hw s'. unfold s', startAuth_catch. simpl.
  split; [done|]. destruct (activeAuthRun s) as [r|] eqn:Ha.
  - destruct (Hinv r Ha) as (a & Hr & Hs).
    destruct (failAuthFlow_unsettled "OneDrive Authentifizierung fehlgeschlagen" r s a Hr Hs)
      as (Hruns & Hact & Hdel).
    assert (Hu : run_settled s (Some r) = false) by (simpl; by rewrite Hr).
    destruct (failAuthFlow_teardown "OneDrive Authentifizierung fehlgeschlagen" (Some r) s Hu)
      as (Haw & Hp & _).
    rewrite Ha, bool_decide_eq_true_2 in Hact by done.
    split; [exact Hact|]. split; [|discriminate].
    intros r' [= <-]. split; [|split; [|split]].
    + simpl. rewrite Hruns, list_lookup_alter_eq, Hr. done.
    + exact Haw.
    + exact Hp.
    + rewrite Hdel, Hq, Hw. simpl. by rewrite <- (assoc_L (++)).
  - split; [exact Ha|]. split; [discriminate|]. intros _. by split.
Qed.

Lemma startAuth_catch_reports_witness :
  delivered (startAuth_catch "Timeout: Keine Auth-URL erhalten"
               (begins_waiting empty_disk)).1
  = [mkEvent auth_result error "OneDrive Authentifizierung fehlgeschlagen";
     mkEvent auth_result error "Timeout: Keine Auth-URL erhalten"].
Proof.
  assert (Hinv : active_unsettled (begins_waiting empty_disk)).
  { intros r Hr. vm_compute in Hr. injection Hr as <-. by eexists. }
  destruct (startAuth_catch_reports "Timeout: Keine Auth-URL erhalten"
              (begins_waiting empty_disk) Hinv eq_refl eq_refl) as (_ & _ & Hrun & _).
  by destruct (Hrun 0 eq_refl) as (_ & _ & _ & Hd).
Defined.

(** ** After the auth process has ended *)

(** What one call of [decideAfterExit] does. *)
Lemma decideAfterExit_effects (homedir : string) (mpid : option nat) (s : State) :
  win s = true →
  let s' := decideAfterExit homedir mpid s in
  (checkToken homedir s = true →
     terminal_events s'
     = terminal_events s
       ++ [mkEvent auth_result completed "OneDrive Authentifizierung abgeschlossen"]
     ∧ monitors_spawned s' = S (monitors_spawned s))
  ∧ (checkToken homedir s = false →
       delivered s'
       = delivered s
         ++ [mkEvent auth_result error
                     "OneDrive Authentifizierung fehlgeschlagen (kein Token gefunden)"]
       ∧ children s' = children s ∧ signals s' = signals s).
Proof.
  intros Hw s'. unfold s', decideAfterExit, checkToken. split.
  - intros ->. unfold winSend. rewrite Hw. split.
    + unfold terminal_events. rewrite startOnedriveMonitor_delivered_uiSend.
      unfold uiSend, send. simpl. rewrite Hw.
      destruct (isQuitting s); simpl; rewrite !filter_app; simpl;
        rewrite ?app_nil_r; done.
    + by destruct (startOnedriveMonitor_effects homedir mpid
                     (send auth_result completed "OneDrive Authentifizierung abgeschlossen" s))
        as (_ & _ & Hn & _).
  - intros ->. unfold winSend. by rewrite Hw.
Qed.

(** [decideAfterExit] sends exactly one terminal event: [completed] when the
    token file exists, and then it starts the monitor; an [error] when it
    does not, and then no process is spawned. *)
Theorem decideAfterExit_by_token (homedir : string) (mpid : option nat) (s : State) :
  win s = true →
  let s' := decideAfterExit homedir mpid s in
  (checkToken homedir s = true →
     terminal_events s'
     = terminal_events s
       ++ [mkEvent auth_result completed "OneDrive Authentifizierung abgeschlossen"]
     ∧ monitors_spawned s' = S (monitors_spawned s))
  ∧ (checkToken homedir s = false →
       delivered s'
       = delivered s
         ++ [mkEvent auth_result error
                     "OneDrive Authentifizierung fehlgeschlagen (kein Token gefunden)"]
       ∧ children s' = children s ∧ signals s' = signals s).
Proof. apply decideAfterExit_effects. Qed.

Lemma decideAfterExit_by_token_witness :
  terminal_events (decideAfterExit home_user (Some 7) with_token)
  = [mkEvent auth_result completed "OneDrive Authentifizierung abgeschlossen"]
  ∧ terminal_events (decideAfterExit home_user (Some 7) (initial empty_disk))
    = [mkEvent auth_result error
               "OneDrive Authentifizierung fehlgeschlagen (kein Token gefunden)"].
Proof.
  destruct (decideAfterExit_by_token home_user (Some 7) with_token eq_refl) as [Hyes _].
  destruct (decideAfterExit_by_token home_user (Some 7) (initial empty_disk) eq_refl)
    as [_ Hno].
  split.
  - by destruct (Hyes eq_refl) as [-> _].
  - destruct (Hno eq_refl) as (Hd & _). unfold terminal_events. by rewrite Hd.
Defined.

(** ** The force-sync command *)






Lemma sync_output_events out s :
  win s = true →
  foldl (λ s chunk, sync_data chunk s) s out
  = set_delivered (delivered s ++ (sync_event <$> out)) s.
Proof.
  revert s. induction out as [|[str msg] out IH]; intros s Hw.
  - simpl. rewrite app_nil_r. by destruct s.
  - cbn [foldl]. rewrite fmap_cons.
    assert (Hd : sync_data (str, msg) s = send sync_result (status (sync_event (str, msg)))
                                               (trim msg) s).
    { unfold sync_data, winSend. rewrite Hw. by destruct str. }
    rewrite Hd, IH by done. simpl. rewrite <- (assoc_L (++)). by destruct str.
Qed.



Lemma stop_run_no_monitor throws evs s :
  monitor_pid_number s = None →
  stop_run throws evs s = (s, mkStop None false false false false [false]).
Proof.
  intros Hp. unfold stop_run, stopOnedriveMonitorGracefully. rewrite Hp.
  by apply stop_events_inert.
Qed.



Lemma startOnedriveMonitor_delivered homedir mpid s :
  isQuitting s = false → win s = true →
  delivered (startOnedriveMonitor homedir mpid s)
  = delivered s ++ [mkEvent auth_result info "OneDrive Monitor gestartet"].
Proof.
  intros Hq Hw. unfold startOnedriveMonitor, spawn, add_listeners, uiSend, send, child_kill,
    process_kill.
  repeat (case_match; simpl in *; simplify_eq; try done; try congruence).
Qed.

(** A manual sync with no monitor running: the answer is [ok] exactly when
    the sync process ends with code 0; the presentation layer receives the
    output of the process chunk by chunk, stdout as [info] and stderr as
    [warning], then one [success], after which the monitor is started, or one
    [error] naming the code, after which no monitor runs; no signal is sent. *)
Theorem forceSync_without_monitor (homedir : string) (env : SyncEnv) (s : State)
    (code : option Z) :
  installed (which_outcome env) = true → checkToken homedir s = true →
  onedriveMonitorProcess s = None → isQuitting s = false → win s = true →
  sync_exit env = Some code →
  let r := forceSync homedir env s in
  (r.2 = Some Ok ↔ code = Some 0%Z)
  ∧ (code = Some 0%Z →
       delivered r.1
       = delivered s ++ (sync_event <$> sync_output env)
         ++ [mkEvent sync_result success "Einmaliger Sync abgeschlossen";
             mkEvent auth_result info "OneDrive Monitor gestartet"]
       ∧ onedriveMonitorProcess r.1 = Some (S (S (length (children s)))))
  ∧ (code ≠ Some 0%Z →
       r.2 = Some (Failed None)
       ∧ delivered r.1
         = delivered s ++ (sync_event <$> sync_output env)
           ++ [mkEvent sync_result error
                 ("Einmaliger Sync fehlgeschlagen (Code " +:+ show_code code +:+ ")")]
       ∧ onedriveMonitorProcess r.1 = None)
  ∧ signals r.1 = signals s.
Proof.
  intros Hi Ht Hm Hq Hw Hx r. unfold r, forceSync, checkOnedriveInstallation, spawn.
  rewrite (sync_exit_Some env code Hx).
  unfold checkToken in Ht. rewrite Hi. simpl. rewrite Ht. simpl.
  rewrite stop_run_no_monitor by (unfold monitor_pid_number; simpl; by rewrite Hm).
  simpl. rewrite sync_output_events by exact Hw. simpl.
  unfold winSend. simpl. rewrite Hw.
  destruct (bool_decide_reflect (code = Some 0%Z)) as [Hc|Hc]; simpl.
  - set (s6 := send sync_result success "Einmaliger Sync abgeschlossen" _).
    destruct (startOnedriveMonitor_effects homedir (monitor_pid env) s6)
      as (Hmon & _ & _ & _ & Hsig).
    rewrite (startOnedriveMonitor_delivered homedir (monitor_pid env) s6) by done.
    rewrite Hmon, Hsig by done. simpl.
    split; [done|]. split; [|split; [done | done]].
    intros _. split.
    + by rewrite <- !(assoc_L (++)).
    + f_equal. rewrite !length_app. simpl. lia.
  - split; [split; [discriminate | done]|]. split; [done|]. split; [|done].
    intros _. split; [done|]. split; [|done]. by rewrite <- !(assoc_L (++)).
Qed.

Lemma forceSync_without_monitor_witness :
  (forceSync home_user installed_env with_token).2 = Some Ok
  ∧ (forceSync home_user chatty_sync_env with_token).2 = Some (Failed None)
  ∧ delivered (forceSync home_user chatty_sync_env with_token).1
    = [mkEvent sync_result info "Syncing a b";
       mkEvent sync_result warning "no network";
       mkEvent sync_result error "Einmaliger Sync fehlgeschlagen (Code 1)"].
Proof.
  destruct (forceSync_without_monitor home_user installed_env with_token (Some 0%Z)
              eq_refl eq_refl eq_refl eq_refl eq_refl eq_refl) as (Hok & _).
  destruct (forceSync_without_monitor home_user chatty_sync_env with_token (Some 1%Z)
              eq_refl eq_refl eq_refl eq_refl eq_refl eq_refl) as (_ & _ & Hfail & _).
  split; [by apply Hok|].
  destruct (Hfail ltac:(discriminate)) as (Hr & Hd & _).
  split; [exact Hr | rewrite Hd; by vm_compute].
Defined.

(** ** What no event undoes *)

Lemma heap_kept_refl {A} (R : A → A → Prop) l : (∀ a, R a a) → heap_kept R l l.
Proof. intros HR i a Ha. eauto. Qed.

Lemma heap_kept_trans {A} (R : A → A → Prop) l1 l2 l3 :
  (∀ a b c, R a b → R b c → R a c) →
  heap_kept R l1 l2 → heap_kept R l2 l3 → heap_kept R l1 l3.
Proof.
  intros HR H12 H23 i a Ha. destruct (H12 i a Ha) as (b & Hb & Hab).
  destruct (H23 i b Hb) as (c & Hc & Hbc). eauto.
Qed.

Lemma heap_kept_app {A} (R : A → A → Prop) l l' :
  (∀ a, R a a) → heap_kept R l (l ++ l').
Proof. intros HR i a Ha. exists a. split; [by apply lookup_app_l_Some | apply HR]. Qed.

Lemma heap_kept_alter {A} (R : A → A → Prop) (f : A → A) l j :
  (∀ a, R a a) → (∀ a, R a (f a)) → heap_kept R l (alter f j l).
Proof.
  intros HR Hf i a Ha. destruct (decide (i = j)) as [->|Hne].
  - exists (f a). by rewrite list_lookup_alter_eq, Ha.
  - exists a. by rewrite list_lookup_alter_ne.
Qed.

Lemma heap_kept_insert {A} (R : A → A → Prop) l j b b' :
  (∀ a, R a a) → l !! j = Some b → R b b' → heap_kept R l (<[j:=b']> l).
Proof.
  intros HR Hj Hb i a Ha. destruct (decide (i = j)) as [->|Hne].
  - exists b'. rewrite list_lookup_insert_eq by (by eapply lookup_lt_Some).
    split; [done | congruence].
  - exists a. by rewrite list_lookup_insert_ne.
Qed.

Lemma run_kept_refl a : run_kept a a.
Proof. by split. Qed.

Lemma run_kept_trans a b c : run_kept a b → run_kept b c → run_kept a c.
Proof. intros [H1 H2] [H3 H4]. split; [congruence | auto]. Qed.

Lemma window_kept_refl a : window_kept a a.
Proof. by repeat split. Qed.

Lemma window_kept_trans a b c : window_kept a b → window_kept b c → window_kept a c.
Proof.
  unfold window_kept. intros ? ?. destruct_and!. repeat split; try congruence; auto.
Qed.

Lemma child_kept_refl a : child_kept a a.
Proof. by repeat split. Qed.

Lemma child_kept_trans a b c : child_kept a b → child_kept b c → child_kept a c.
Proof. unfold child_kept. intros ? ?. destruct_and!. repeat split; congruence. Qed.

Lemma evolves_refl s : evolves s s.
Proof.
  unfold evolves. split_and!; try done.
  - apply heap_kept_refl, run_kept_refl.
  - apply heap_kept_refl, window_kept_refl.
  - apply heap_kept_refl, child_kept_refl.
Qed.

Lemma evolves_trans s1 s2 s3 : evolves s1 s2 → evolves s2 s3 → evolves s1 s3.
Proof.
  unfold evolves. intros ? ?. destruct_and!. split_and!.
  - auto.
  - eapply heap_kept_trans; [apply run_kept_trans|..]; eassumption.
  - eapply heap_kept_trans; [apply window_kept_trans|..]; eassumption.
  - eapply heap_kept_trans; [apply child_kept_trans|..]; eassumption.
  - by etrans.
  - by etrans.
Qed.

(** A change that leaves the six observed parts as they are. *)
Lemma evolves_same s s' :
  isQuitting s' = isQuitting s → runs s' = runs s → windows s' = windows s →
  children s' = children s → delivered s' = delivered s → signals s' = signals s →
  evolves s s'.
Proof.
  intros Hq Hr Hw Hc Hd Hk. unfold evolves. rewrite Hq, Hr, Hw, Hc, Hd, Hk.
  apply evolves_refl.
Qed.

Lemma send_evolves ch st msg s : evolves s (send ch st msg s).
Proof.
  unfold evolves. simpl. split_and!; try done.
  - apply heap_kept_refl, run_kept_refl.
  - apply heap_kept_refl, window_kept_refl.
  - apply heap_kept_refl, child_kept_refl.
  - by apply prefix_app_r.
Qed.

Lemma winSend_evolves ch st msg s : evolves s (winSend ch st msg s).
Proof. unfold winSend. destruct (win s); [apply send_evolves | apply evolves_refl]. Qed.

Lemma uiSend_evolves ch st msg s : evolves s (uiSend ch st msg s).
Proof.
  unfold uiSend. destruct (isQuitting s); [apply evolves_refl|].
  destruct (win s); [apply send_evolves | apply evolves_refl].
Qed.

Lemma process_kill_evolves p sig s : evolves s (process_kill p sig s).
Proof.
  unfold evolves. simpl. split_and!; try done.
  - apply heap_kept_refl, run_kept_refl.
  - apply heap_kept_refl, window_kept_refl.
  - apply heap_kept_refl, child_kept_refl.
  - by apply prefix_app_r.
Qed.

Lemma child_kill_evolves c s : evolves s (child_kill c s).
Proof.
  unfold child_kill. repeat case_match; first [apply process_kill_evolves | apply evolves_refl].
Qed.

Lemma spawn_evolves cmd a p s : evolves s (spawn cmd a p s).2.
Proof.
  unfold evolves. simpl. split_and!; try done.
  - apply heap_kept_refl, run_kept_refl.
  - apply heap_kept_refl, window_kept_refl.
  - apply heap_kept_app, child_kept_refl.
Qed.

Lemma set_children_insert_evolves c ch ch' s :
  children s !! c = Some ch → child_kept ch ch' →
  evolves s (set_children (<[c:=ch']> (children s)) s).
Proof.
  intros Hc Hk. unfold evolves. simpl. split_and!; try done.
  - apply heap_kept_refl, run_kept_refl.
  - apply heap_kept_refl, window_kept_refl.
  - eapply heap_kept_insert; [apply child_kept_refl | done | done].
Qed.

Lemma add_listeners_evolves c e x l s : evolves s (add_listeners c e x l s).
Proof.
  unfold add_listeners. destruct (children s !! c) as [ch|] eqn:Hc; [|apply evolves_refl].
  by eapply set_children_insert_evolves.
Qed.

Lemma settleAuthRun_evolves run s : evolves s (settleAuthRun run s).
Proof.
  unfold settleAuthRun. destruct (run_settled s run); [apply evolves_refl|].
  destruct run as [r|]; [|apply evolves_refl].
  assert (Hr : heap_kept run_kept (runs s) (alter (λ a, mkAuthRun (id a) true) r (runs s))).
  { apply heap_kept_alter; [apply run_kept_refl | by split]. }
  unfold evolves. case_bool_decide; simpl; split_and!; try done;
    first [apply heap_kept_refl, window_kept_refl | apply heap_kept_refl, child_kept_refl].
Qed.

Lemma beginAuthRun_evolves now s : evolves s (beginAuthRun now s).2.
Proof.
  unfold evolves. simpl. split_and!; try done.
  - apply heap_kept_app, run_kept_refl.
  - apply heap_kept_refl, window_kept_refl.
  - apply heap_kept_refl, child_kept_refl.
Qed.

Lemma set_windows_evolves ws s :
  heap_kept window_kept (windows s) ws → evolves s (set_windows ws s).
Proof.
  intros Hw. unfold evolves. simpl. split_and!; try done.
  - apply heap_kept_refl, run_kept_refl.
  - apply heap_kept_refl, child_kept_refl.
Qed.

Lemma window_close_evolves w s : evolves s (window_close w s).
Proof.
  apply set_windows_evolves, heap_kept_alter; [apply window_kept_refl|].
  intros a. by repeat split.
Qed.

Lemma set_authWindow_evolves v s : evolves s (set_authWindow v s).
Proof. by apply evolves_same. Qed.

Lemma set_onedriveProcess_evolves v s : evolves s (set_onedriveProcess v s).
Proof. by apply evolves_same. Qed.

Lemma set_onedriveMonitorProcess_evolves v s : evolves s (set_onedriveMonitorProcess v s).
Proof. by apply evolves_same. Qed.

Lemma set_disk_evolves v s : evolves s (set_disk v s).
Proof. by apply evolves_same. Qed.

Lemma failAuthFlow_evolves msg run s : evolves s (failAuthFlow msg run s).
Proof.
  unfold failAuthFlow. destruct (run_settled s run); [apply evolves_refl|].
  cbv zeta. eapply evolves_trans; [apply (settleAuthRun_evolves run s)|].
  generalize (settleAuthRun run s). intros s1.
  eapply evolves_trans; [|apply uiSend_evolves].
  set (s2 := match authWindow s1 with
             | Some w => if window_destroyed s1 w then s1 else window_close w s1
             | None => s1
             end).
  assert (H2 : evolves s1 s2).
  { unfold s2. repeat case_match; first [apply window_close_evolves | apply evolves_refl]. }
  eapply evolves_trans; [exact H2|]. clearbody s2.
  eapply evolves_trans; [apply (set_authWindow_evolves None)|].
  generalize (set_authWindow None s2). intros s3.
  destruct (onedriveProcess s3); [|apply evolves_refl].
  eapply evolves_trans; [apply child_kill_evolves | apply set_onedriveProcess_evolves].
Qed.

Lemma startOnedriveMonitor_evolves homedir mpid s :
  evolves s (startOnedriveMonitor homedir mpid s).
Proof.
  unfold startOnedriveMonitor.
  set (s1 := match onedriveMonitorProcess s with
             | Some m => set_onedriveMonitorProcess None (child_kill m s)
             | None => s
             end).
  assert (H1 : evolves s s1).
  { unfold s1. destruct (onedriveMonitorProcess s); [|apply evolves_refl].
    eapply evolves_trans; [apply child_kill_evolves|].
    apply set_onedriveMonitorProcess_evolves. }
  eapply evolves_trans; [exact H1|]. clearbody s1.
  pose proof (spawn_evolves "onedrive" ["--confdir"; ONEDRIVE_CONFIG_DIR homedir; "--monitor"]
                mpid s1) as H2.
  destruct (spawn _ _ mpid s1) as [m s2]. simpl in H2.
  eapply evolves_trans; [exact H2|].
  eapply evolves_trans; [|apply uiSend_evolves].
  eapply evolves_trans; [|apply add_listeners_evolves].
  apply set_onedriveMonitorProcess_evolves.
Qed.

Lemma decideAfterExit_evolves homedir mpid s : evolves s (decideAfterExit homedir mpid s).
Proof.
  unfold decideAfterExit. destruct (existsSync _ _); [|apply winSend_evolves].
  eapply evolves_trans; [apply winSend_evolves | apply startOnedriveMonitor_evolves].
Qed.

Lemma run_listener_evolves homedir mpid code signal s l :
  evolves s (run_listener homedir mpid code signal s l).
Proof.
  destruct l; simpl.
  - apply failAuthFlow_evolves.
  - unfold authExitObserver.
    repeat case_match; (eapply evolves_trans; [apply (set_onedriveProcess_evolves None)|]);
      first [apply failAuthFlow_evolves | apply evolves_refl].
  - apply decideAfterExit_evolves.
  - apply evolves_refl.
Qed.

Lemma listeners_evolves homedir mpid code signal ls s :
  evolves s (foldl (run_listener homedir mpid code signal) s ls).
Proof.
  revert s. induction ls as [|l ls IH]; intros s; [apply evolves_refl|].
  cbn [foldl]. eapply evolves_trans; [apply run_listener_evolves | apply IH].
Qed.

Lemma handleAuthRedirect_evolves homedir flt mpid url run s :
  evolves s (handleAuthRedirect homedir flt mpid url run s).
Proof.
  unfold handleAuthRedirect. destruct (writeFile flt _ url (disk s)) as [d|e];
    [|apply failAuthFlow_evolves].
  eapply evolves_trans; [apply (set_disk_evolves d)|].
  generalize (set_disk d s). intros s0. unfold handleAuthRedirect_written.
  set (s1 := match authWindow s0 with
             | Some w => set_authWindow None (window_close w (settleAuthRun run s0))
             | None => s0
             end).
  assert (H1 : evolves s0 s1).
  { unfold s1. destruct (authWindow s0); [|apply evolves_refl].
    eapply evolves_trans; [apply settleAuthRun_evolves|].
    eapply evolves_trans; [apply window_close_evolves | apply set_authWindow_evolves]. }
  eapply evolves_trans; [exact H1|]. clearbody s1.
  eapply evolves_trans;
    [apply (winSend_evolves auth_result success
              "Authentifizierung erfolgreich abgeschlossen" s1)|].
  generalize (winSend auth_result success "Authentifizierung erfolgreich abgeschlossen" s1).
  intros s2.
  repeat case_match;
    first [apply decideAfterExit_evolves | apply add_listeners_evolves | apply evolves_refl].
Qed.

Lemma stop_run_evolves throws evs s : evolves s (stop_run throws evs s).1.
Proof.
  unfold stop_run.
  assert (H0 : evolves s (stopOnedriveMonitorGracefully throws s).1).
  { unfold stopOnedriveMonitorGracefully.
    repeat case_match; simpl; first [apply process_kill_evolves | apply evolves_refl]. }
  revert H0. generalize (stopOnedriveMonitorGracefully throws s). intros sc H0.
  revert sc H0. induction evs as [|e evs IH]; intros [s1 c] H0; [exact H0|].
  cbn [foldl]. apply IH. eapply evolves_trans; [exact H0|].
  unfold stop_event. destruct e; repeat case_match; simpl; try apply evolves_refl.
  - eapply evolves_trans; [apply process_kill_evolves|].
    eapply evolves_trans; [apply (set_onedriveMonitorProcess_evolves None)|].
    apply winSend_evolves.
  - eapply evolves_trans; [apply (set_onedriveMonitorProcess_evolves None)|].
    apply winSend_evolves.
  - apply set_onedriveMonitorProcess_evolves.
  - apply set_onedriveMonitorProcess_evolves.
Qed.

Lemma sync_output_evolves out s : evolves s (foldl (λ s chunk, sync_data chunk s) s out).
Proof.
  revert s. induction out as [|chunk out IH]; intros s; [apply evolves_refl|].
  cbn [foldl]. eapply evolves_trans; [|apply IH].
  unfold sync_data. destruct chunk as [[] msg]; apply winSend_evolves.
Qed.

Lemma forceSync_evolves homedir env s : evolves s (forceSync homedir env s).1.
Proof.
  unfold forceSync, checkOnedriveInstallation, spawn.
  set (s1 := set_children _ s).
  assert (H1 : evolves s s1) by apply (spawn_evolves "which" ["onedrive"] (which_pid env) s).
  clearbody s1.
  destruct (installed (which_outcome env)); simpl.
  2:{ eapply evolves_trans; [exact H1 | apply winSend_evolves]. }
  destruct (existsSync _ (disk s1)); simpl.
  2:{ eapply evolves_trans; [exact H1 | apply winSend_evolves]. }
  pose proof (stop_run_evolves (sigterm_throws env) (stop_events env) s1) as H2.
  destruct (stop_run _ _ s1) as [s2 call]. simpl in H2.
  assert (H12 : evolves s s2) by (by eapply evolves_trans).
  destruct (resolutions call) as [|wasRunning ws]; [exact H12|].
  set (s3 := if wasRunning then _ else s2).
  assert (H3 : evolves s s3).
  { unfold s3. destruct wasRunning; [|exact H12].
    eapply evolves_trans; [exact H12 | apply winSend_evolves]. }
  clearbody s3.
  set (s4 := set_children _ s3).
  assert (H4 : evolves s s4).
  { eapply evolves_trans; [exact H3|].
    apply (spawn_evolves "onedrive" ["--confdir"; ONEDRIVE_CONFIG_DIR homedir; "--sync"]
             (sync_pid env) s3). }
  clearbody s4.
  pose proof (sync_output_evolves (sync_output env) s4) as H5.
  set (s5 := foldl _ s4 (sync_output env)) in *.
  assert (H15 : evolves s s5) by (by eapply evolves_trans).
  clearbody s5.
  destruct (sync_outcome env) as [code| |];
    [|exact H15|eapply evolves_trans; [exact H4 | apply failAuthFlow_evolves]]. simpl.
  set (s6 := if bool_decide (code = Some 0%Z) then _ else _).
  assert (H6 : evolves s s6).
  { unfold s6. destruct (bool_decide (code = Some 0%Z));
      (eapply evolves_trans; [exact H15 | apply winSend_evolves]). }
  clearbody s6.
  destruct (wasRunning || bool_decide (code = Some 0%Z)); [|exact H6].
  eapply evolves_trans; [exact H6 | apply startOnedriveMonitor_evolves].
Qed.

Lemma startAuth_catch_evolves e s : evolves s (startAuth_catch e s).1.
Proof.
  unfold startAuth_catch. simpl.
  eapply evolves_trans; [apply failAuthFlow_evolves | apply send_evolves].
Qed.

Lemma perform_evolves homedir parseURL s a : evolves s (perform homedir parseURL s a).
Proof.
  destruct a; cbn [perform].
  - unfold startAuth_begin.
    pose proof (beginAuthRun_evolves now s) as H1.
    destruct (beginAuthRun now s) as [r s1]. simpl in H1.
    pose proof (spawn_evolves "which" ["onedrive"] wpid s1) as H2.
    destruct (spawn _ _ wpid s1) as [w s2]. simpl in *. by eapply evolves_trans.
  - unfold startAuth_checked. destruct (installed o); cbn [negb].
    + destruct (mkdir flt _ (disk s)) as [d|e]; [|apply startAuth_catch_evolves].
      set (s1 := set_disk _ s).
      assert (H1 : evolves s s1) by apply set_disk_evolves. clearbody s1.
      pose proof (spawn_evolves "onedrive"
                    ["--confdir"; ONEDRIVE_CONFIG_DIR homedir; "--sync"; "--reauth";
                     "--auth-files";
                     ONEDRIVE_REQUEST_FILE homedir +:+ ":" +:+ ONEDRIVE_RESPONSE_FILE homedir]
                    apid s1) as H2.
      destruct (spawn _ _ apid s1) as [p s2]. simpl in *.
      eapply evolves_trans; [exact H1|]. eapply evolves_trans; [exact H2|].
      eapply evolves_trans; [apply (set_onedriveProcess_evolves (Some p))|].
      apply add_listeners_evolves.
    + eapply evolves_trans; [apply send_evolves | apply settleAuthRun_evolves].
  - unfold startAuth_url. destruct answer as [authUrl|e]; [|apply startAuth_catch_evolves].
    cbn [fst]. unfold openAuthWindow.
    set (s1 := match authWindow s with Some w => window_close w s | None => s end).
    assert (H1 : evolves s s1).
    { unfold s1. destruct (authWindow s); [apply window_close_evolves | apply evolves_refl]. }
    eapply evolves_trans; [exact H1|]. clearbody s1.
    eapply evolves_trans; [|apply set_authWindow_evolves].
    apply set_windows_evolves, heap_kept_app, window_kept_refl.
  - unfold tryHandle. destruct (windows s !! w) as [aw|] eqn:Hw; [|apply evolves_refl].
    destruct (_ && _); [|apply evolves_refl].
    eapply evolves_trans; [|apply handleAuthRedirect_evolves].
    apply set_windows_evolves.
    eapply heap_kept_insert; [apply window_kept_refl | exact Hw | by repeat split].
  - apply handleAuthRedirect_evolves.
  - unfold window_closed. destruct (windows s !! w) as [aw|] eqn:Hw; [|apply evolves_refl].
    destruct (closedListener aw); [|apply evolves_refl].
    set (s1 := set_authWindow None _).
    assert (H1 : evolves s s1).
    { unfold s1. eapply evolves_trans; [|apply set_authWindow_evolves].
      apply set_windows_evolves.
      eapply heap_kept_insert; [apply window_kept_refl | exact Hw | by repeat split]. }
    destruct (run_settled s1 (window_run aw)); [exact H1|].
    eapply evolves_trans; [exact H1 | apply failAuthFlow_evolves].
  - unfold emit_exit. destruct (children s !! c) as [ch|] eqn:Hc; [|apply evolves_refl].
    eapply evolves_trans; [|apply listeners_evolves].
    by eapply set_children_insert_evolves.
  - unfold emit_close. destruct (children s !! c) as [ch|] eqn:Hc; [|apply evolves_refl].
    eapply evolves_trans; [|apply listeners_evolves].
    by eapply set_children_insert_evolves.
  - unfold emit_error. destruct (children s !! c) as [ch|]; [|apply evolves_refl].
    destruct (onError ch) as [|l ls]; [|apply listeners_evolves].
    destruct (bool_decide _); [apply evolves_refl | apply failAuthFlow_evolves].
  - apply failAuthFlow_evolves.
  - apply failAuthFlow_evolves.
  - apply forceSync_evolves.
  - unfold sync_data. destruct chunk as [[] msg]; apply winSend_evolves.
  - unfold maybeStartMonitorIfToken.
    destruct (existsSync _ _); [apply startOnedriveMonitor_evolves | apply uiSend_evolves].
  - unfold beforeQuit.
    set (s1 := set_isQuitting true s).
    assert (H1 : evolves s s1).
    { unfold evolves. simpl. split_and!; try done.
      - apply heap_kept_refl, run_kept_refl.
      - apply heap_kept_refl, window_kept_refl.
      - apply heap_kept_refl, child_kept_refl. }
    eapply evolves_trans; [exact H1|]. clearbody s1.
    set (s2 := match onedriveProcess s1 with Some p => child_kill p s1 | None => s1 end).
    assert (H2 : evolves s1 s2).
    { unfold s2. destruct (onedriveProcess s1); [apply child_kill_evolves|apply evolves_refl]. }
    eapply evolves_trans; [exact H2|]. clearbody s2.
    set (s3 := match onedriveMonitorProcess s2 with
               | Some m => child_kill m s2
               | None => s2
               end).
    assert (H3 : evolves s2 s3).
    { unfold s3. destruct (onedriveMonitorProcess s2);
        [apply child_kill_evolves|apply evolves_refl]. }
    eapply evolves_trans; [exact H3|]. clearbody s3.
    destruct (authWindow s3); [apply window_close_evolves | apply evolves_refl].
  - apply set_disk_evolves.
Qed.

Lemma perform_all_evolves homedir parseURL acts s :
  evolves s (perform_all homedir parseURL acts s).
Proof.
  revert s. induction acts as [|a acts IH]; intros s; [apply evolves_refl|].
  unfold perform_all. cbn [foldl].
  eapply evolves_trans; [apply perform_evolves | apply IH].
Qed.

(** No sequence of events removes a run, changes its [id] or makes a
    settled run unsettled: [settled] goes from [false] to [true] and stays. *)
Theorem settled_is_final (homedir : string) (parseURL : string → option URL)
    (acts : list Action) (s : State) (r : nat) (a : AuthRun) :
  runs s !! r = Some a →
  ∃ a', runs (perform_all homedir parseURL acts s) !! r = Some a'
        ∧ id a' = id a ∧ (settled a = true → settled a' = true).
Proof.
  intros Hr. destruct (perform_all_evolves homedir parseURL acts s) as (_ & Hruns & _).
  destruct (Hruns r a Hr) as (a' & Ha' & Hid & Hs). eauto.
Qed.

Lemma settled_is_final_witness :
  ∃ a', runs (perform_all home_user parse_known [UncaughtException; StartAuth 2000 None]
                redirected) !! 0 = Some a'
        ∧ id a' = 1000%Z ∧ (true = true → settled a' = true).
Proof.
  exact (settled_is_final home_user parse_known [UncaughtException; StartAuth 2000 None]
           redirected 0 (mkAuthRun 1000 true) eq_refl).
Defined.

(** The redirect latch of a window holds for good: once [tryHandle] has
    handled a redirect on a window, every later navigation event of that
    window does nothing, whatever URL it carries and whatever happened in
    between. *)
Theorem redirect_handled_once (homedir : string) (parseURL : string → option URL)
    (flt : FsFaults) (mpid : option nat) (w : nat) (a : AuthWindow) (url : string)
    (s : State) (acts : list Action) :
  windows s !! w = Some a → redirectHandled a = false →
  isRedirectUrl parseURL (initialAuthUrl a) url = true →
  let s' := perform_all homedir parseURL acts (tryHandle homedir parseURL flt mpid w url s) in
  ∀ flt' mpid' url', tryHandle homedir parseURL flt' mpid' w url' s' = s'.
Proof.
  intros Hw Hh Hurl s' flt' mpid' url'.
  assert (H1 : ∃ a1, windows (tryHandle homedir parseURL flt mpid w url s) !! w = Some a1
                     ∧ redirectHandled a1 = true).
  { unfold tryHandle. rewrite Hw, Hh, Hurl. simpl.
    set (s0 := set_windows _ s).
    destruct (handleAuthRedirect_evolves homedir flt mpid url (window_run a) s0)
      as (_ & _ & Hws & _).
    destruct (Hws w (mkWindow (window_run a) (initialAuthUrl a) true (closedListener a)
                              (destroyed a))) as (a1 & Ha1 & _ & _ & Hl & _).
    { unfold s0. simpl. apply list_lookup_insert_eq. by eapply lookup_lt_Some. }
    exists a1. split; [exact Ha1 | by apply Hl]. }
  destruct H1 as (a1 & Ha1 & Hl1).
  destruct (perform_all_evolves homedir parseURL acts
              (tryHandle homedir parseURL flt mpid w url s)) as (_ & _ & Hws & _).
  destruct (Hws w a1 Ha1) as (a2 & Ha2 & _ & _ & Hl2 & _).
  fold s' in Ha2. unfold tryHandle. rewrite Ha2, (Hl2 Hl1). done.
Qed.

Lemma redirect_handled_once_witness :
  tryHandle home_user parse_known no_faults None 0 "http://localhost:53682/?code=abc"
    (perform_all home_user parse_known [UncaughtException]
       (tryHandle home_user parse_known no_faults None 0 nativeclient_url window_open))
  = perform_all home_user parse_known [UncaughtException]
      (tryHandle home_user parse_known no_faults None 0 nativeclient_url window_open).
Proof.
  apply (redirect_handled_once home_user parse_known no_faults None 0
           (mkWindow (Some 0) authorize_url false true false) nativeclient_url window_open
           [UncaughtException]); reflexivity.
Defined.

(** The ['closed'] handler of a window runs once: after it has run, a
    further ['closed'] of that window does nothing, whatever happened in
    between. *)
Theorem window_closed_once (homedir : string) (parseURL : string → option URL)
    (w : nat) (a : AuthWindow) (s : State) (acts : list Action) :
  windows s !! w = Some a →
  let s' := perform_all homedir parseURL acts (window_closed w s) in
  window_closed w s' = s'.
Proof.
  intros Hw s'.
  assert (H1 : ∃ a1, windows (window_closed w s) !! w = Some a1 ∧ closedListener a1 = false).
  { unfold window_closed. rewrite Hw. destruct (closedListener a) eqn:Hl; [|eauto].
    set (s1 := set_authWindow None _).
    assert (Hs1 : windows s1 !! w = Some (closed_window a)).
    { unfold s1. simpl. apply list_lookup_insert_eq. by eapply lookup_lt_Some. }
    destruct (run_settled s1 (window_run a)); [eauto|].
    destruct (failAuthFlow_evolves "Authentifizierung wurde abgebrochen" (window_run a) s1)
      as (_ & _ & Hws & _).
    destruct (Hws w _ Hs1) as (a1 & Ha1 & _ & _ & _ & _ & Hc). eauto. }
  destruct H1 as (a1 & Ha1 & Hl1).
  destruct (perform_all_evolves homedir parseURL acts (window_closed w s))
    as (_ & _ & Hws & _).
  destruct (Hws w a1 Ha1) as (a2 & Ha2 & _ & _ & _ & _ & Hc).
  fold s' in Ha2. unfold window_closed. by rewrite Ha2, (Hc Hl1).
Qed.

Lemma window_closed_once_witness :
  window_closed 0 (perform_all home_user parse_known [StartAuth 2000 None]
                     (window_closed 0 window_open))
  = perform_all home_user parse_known [StartAuth 2000 None] (window_closed 0 window_open).
Proof.
  apply (window_closed_once home_user parse_known 0
           (mkWindow (Some 0) authorize_url false true false) window_open
           [StartAuth 2000 None]).
  reflexivity.
Defined.

(** Quitting is for good: after [before-quit] no event brings the flag
    back, and from then on [uiSend] delivers nothing, so neither a failing
    auth flow nor the monitor reaches the presentation layer. *)
Theorem quitting_is_final (homedir : string) (parseURL : string → option URL)
    (acts : list Action) (s : State) :
  let s' := perform_all homedir parseURL acts (beforeQuit s) in
  isQuitting s' = true
  ∧ (∀ ch st msg, uiSend ch st msg s' = s')
  ∧ (∀ msg run, delivered (failAuthFlow msg run s') = delivered s')
  ∧ (∀ mpid, delivered (startOnedriveMonitor homedir mpid s') = delivered s')
  ∧ (∀ text, monitor_stdout text s' = s' ∧ monitor_stderr text s' = s').
Proof.
  intros s'.
  assert (Hq : isQuitting s' = true).
  { destruct (perform_all_evolves homedir parseURL acts (beforeQuit s)) as (Hq & _).
    apply Hq. unfold beforeQuit, child_kill, process_kill, window_close.
    repeat (case_match; simpl; try done). }
  split; [exact Hq|]. split; [|split; [|split]].
  - intros ch st msg. unfold uiSend. by rewrite Hq.
  - intros msg run. destruct (run_settled s' run) eqn:Hs.
    + by rewrite failAuthFlow_settled.
    + destruct run as [r|]; [|done]. simpl in Hs.
      destruct (runs s' !! r) as [a|] eqn:Hr; [|done].
      destruct (failAuthFlow_unsettled msg r s' a Hr Hs) as (_ & _ & Hd).
      by rewrite Hd, Hq.
  - intros mpid. unfold startOnedriveMonitor, spawn, add_listeners, uiSend, send, child_kill,
      process_kill.
    repeat (case_match; simpl in *; simplify_eq; try done; try congruence).
  - intros text. split.
    + exact (monitor_lines_off (λ msg, if isComplete msg then success else info)
               (split_lines text) s' (or_introl Hq)).
    + exact (monitor_lines_off (λ _, warning) (split_lines text) s' (or_introl Hq)).
Qed.

(** ** Preparing and finishing an auth attempt *)

Lemma config_file_not_request (homedir : string) :
  ONEDRIVE_CONFIG_FILE homedir ≠ ONEDRIVE_REQUEST_FILE homedir.
Proof.
  unfold ONEDRIVE_CONFIG_FILE, ONEDRIVE_REQUEST_FILE, ONEDRIVE_AUTH_DIR, path_join.
  rewrite !append_assoc. intros H. apply String.app_inj in H. discriminate.
Qed.

Lemma config_file_not_response (homedir : string) :
  ONEDRIVE_CONFIG_FILE homedir ≠ ONEDRIVE_RESPONSE_FILE homedir.
Proof.
  unfold ONEDRIVE_CONFIG_FILE, ONEDRIVE_RESPONSE_FILE, ONEDRIVE_AUTH_DIR, path_join.
  rewrite !append_assoc. intros H. apply String.app_inj in H. discriminate.
Qed.

Lemma token_not_response (homedir : string) :
  tokenPath homedir ≠ ONEDRIVE_RESPONSE_FILE homedir.
Proof.
  unfold tokenPath, ONEDRIVE_RESPONSE_FILE, ONEDRIVE_AUTH_DIR, path_join.
  rewrite !append_assoc. intros H. apply String.app_inj in H. discriminate.
Qed.

(** With writes that succeed [ensureOnedriveConfig] always leaves a
    configuration file that sets [sync_dir]. *)
Lemma ensureOnedriveConfig_sets_sync_dir (homedir : string) (d : FileSystem) :
  ∃ config, files (ensureOnedriveConfig homedir no_faults d) !! ONEDRIVE_CONFIG_FILE homedir
            = Some config
            ∧ hasSyncDir config = true.
Proof.
  unfold ensureOnedriveConfig, mkdir, readFile, writeFile. simpl.
  destruct (files d !! ONEDRIVE_CONFIG_FILE homedir) as [c|] eqn:Hc.
  - destruct (hasSyncDir c) eqn:Hs; simpl.
    + exists c. by split.
    + exists (default_config homedir). split; [apply lookup_insert_eq|].
      apply hasSyncDir_default.
  - change (hasSyncDir EmptyString) with false. simpl.
    exists (default_config homedir). split; [apply lookup_insert_eq|].
    apply hasSyncDir_default.
Qed.

Lemma clearOldAuthFiles_request_gone (homedir : string) (d : FileSystem) :
  files (clearOldAuthFiles homedir d) !! ONEDRIVE_REQUEST_FILE homedir = None.
Proof.
  destruct (files d !! ONEDRIVE_REQUEST_FILE homedir) as [c|] eqn:Hq.
  - by destruct (clearOldAuthFiles_request_present homedir d c Hq).
  - by rewrite clearOldAuthFiles_request_absent.
Qed.

(** When the client is installed and the file system takes the writes, the
    command leaves the run ready to wait: the auth process is spawned with
    the file pair and both observers of this run and the reference points to
    it; no run changes and no event is sent; the configuration file sets
    [sync_dir]; and the request file is gone, so a URL read later is not a
    stale one. *)
Theorem startAuth_checked_prepares (homedir : string) (authRun : nat) (o : CheckOutcome)
    (apid : option nat) (s : State) :
  installed o = true →
  let r := startAuth_checked homedir authRun o no_faults apid s in
  r.2 = None
  ∧ onedriveProcess r.1 = Some (length (children s))
  ∧ children r.1
    = children s
      ++ [mkChild "onedrive"
            ["--confdir"; ONEDRIVE_CONFIG_DIR homedir; "--sync"; "--reauth"; "--auth-files";
             ONEDRIVE_REQUEST_FILE homedir +:+ ":" +:+ ONEDRIVE_RESPONSE_FILE homedir]
            apid None None [AuthErrorObserver authRun] [AuthExitObserver authRun] []]
  ∧ same_runs s r.1 ∧ delivered r.1 = delivered s
  ∧ files (disk r.1) !! ONEDRIVE_REQUEST_FILE homedir = None
  ∧ (∃ config, files (disk r.1) !! ONEDRIVE_CONFIG_FILE homedir = Some config
               ∧ hasSyncDir config = true).
Proof.
  intros Hi r. unfold r, startAuth_checked, mkdir, spawn, add_listeners. rewrite Hi. simpl.
  rewrite lookup_app_r, Nat.sub_diag by done. simpl.
  rewrite insert_app_r_alt, Nat.sub_diag by done. simpl.
  split; [done|]. split; [done|]. split; [done|]. split; [by split|]. split; [done|].
  split; [apply clearOldAuthFiles_request_gone|].
  set (d1 := mkFS (files (disk s)) _).
  destruct (ensureOnedriveConfig_sets_sync_dir homedir d1) as (config & Hc & Hs).
  exists config. split; [|exact Hs].
  destruct (clearOldAuthFiles_effects homedir (ensureOnedriveConfig homedir no_faults d1))
    as (_ & Hother & _).
  rewrite Hother; [exact Hc | apply config_file_not_request | apply config_file_not_response].
Qed.

Lemma startAuth_checked_prepares_witness :
  files (disk (begins_waiting
                 (written (ONEDRIVE_REQUEST_FILE home_user) "https://stale" empty_disk)))
        !! ONEDRIVE_REQUEST_FILE home_user = None.
Proof.
  by destruct (startAuth_checked_prepares home_user 0 (CheckExit (Some 0%Z)) (Some 11)
                 (startAuth_begin 1000 (Some 10)
                    (initial (written (ONEDRIVE_REQUEST_FILE home_user) "https://stale"
                                      empty_disk))).2 eq_refl)
    as (_ & _ & _ & _ & _ & Hq & _).
Defined.

(** A redirect that is handled when no auth process is referenced any more,
    the process having ended, is decided at once: the intermediate [success]
    is followed by exactly one terminal event, [completed] with a token file
    and [error] without, and the run is settled. *)
Theorem handleAuthRedirect_after_exit (homedir : string) (flt : FsFaults)
    (mpid : option nat) (url : string) (run w : nat) (a : AuthRun) (s : State) :
  writeFile_fails flt (ONEDRIVE_RESPONSE_FILE homedir) = false →
  authWindow s = Some w → onedriveProcess s = None → win s = true →
  runs s !! run = Some a →
  let s' := handleAuthRedirect homedir flt mpid url (Some run) s in
  runs s' !! run = Some (mkAuthRun (id a) true)
  ∧ terminal_events s'
    = terminal_events s
      ++ [if checkToken homedir s
          then mkEvent auth_result completed "OneDrive Authentifizierung abgeschlossen"
          else mkEvent auth_result error
                 "OneDrive Authentifizierung fehlgeschlagen (kein Token gefunden)"].
Proof.
  intros Hf Haw Hp Hw Hr s'.
  pose proof (token_not_response homedir) as Hne.
  unfold s', handleAuthRedirect, writeFile. rewrite Hf.
  set (s0 := set_disk _ s).
  split.
  { destruct (handleAuthRedirect_written_frame homedir mpid (Some run) s0) as [_ [Hrs _]].
    change (authWindow s0) with (authWindow s) in Hrs. rewrite Haw in Hrs.
    rewrite Hrs. by apply settleAuthRun_lookup. }
  unfold handleAuthRedirect_written.
  change (authWindow s0) with (authWindow s). rewrite Haw.
  destruct (settleAuthRun_frame (Some run) s0) as (Hf1 & Hf2 & Hf3 & Hf4).
  assert (Hf5 : disk (settleAuthRun (Some run) s0) = disk s0) by apply settleAuthRun_disk.
  revert Hf1 Hf2 Hf3 Hf4 Hf5. generalize (settleAuthRun (Some run) s0). intros s1.
  change (win s0) with (win s). change (onedriveProcess s0) with (onedriveProcess s).
  change (delivered s0) with (delivered s). intros Hf1 Hf2 Hf3 Hf4 Hf5.
  unfold winSend, window_close. simpl. rewrite Hf1, Hw. simpl. rewrite Hf2, Hp.
  set (s2 := send _ _ _ _).
  assert (Hw2 : win s2 = true) by (unfold s2; simpl; by rewrite Hf1).
  assert (Ht2 : checkToken homedir s2 = checkToken homedir s).
  { unfold checkToken, s2, existsSync. simpl. rewrite Hf5. unfold s0. simpl.
    by rewrite lookup_insert_ne by done. }
  assert (Hte2 : terminal_events s2 = terminal_events s).
  { unfold terminal_events, s2. simpl. rewrite Hf4, filter_app. simpl.
    by rewrite app_nil_r. }
  destruct (decideAfterExit_effects homedir mpid s2 Hw2) as [Hyes Hno].
  rewrite <- Ht2. destruct (checkToken homedir s2) eqn:Ht.
  - destruct (Hyes eq_refl) as [-> _]. by rewrite Hte2.
  - destruct (Hno eq_refl) as (Hd & _). unfold terminal_events at 1. rewrite Hd, filter_app.
    fold (terminal_events s2). by rewrite Hte2.
Qed.

Lemma handleAuthRedirect_after_exit_witness :
  terminal_events (handleAuthRedirect home_user no_faults None nativeclient_url (Some 0)
                     exited_before_redirect)
  = [mkEvent auth_result error
             "OneDrive Authentifizierung fehlgeschlagen (kein Token gefunden)"].
Proof.
  by destruct (handleAuthRedirect_after_exit home_user no_faults None nativeclient_url 0 0
                 (mkAuthRun 1000 false) exited_before_redirect
                 eq_refl eq_refl eq_refl eq_refl eq_refl) as [_ Ht].
Defined.

(** ** Quitting *)

(** [before-quit] turns the quitting flag on, asks the auth process and the
    monitor to end when they are referenced and running, and closes the auth
    window; it reports nothing, settles no run and clears no reference. *)
Theorem beforeQuit_ends_processes (s : State) :
  let s' := beforeQuit s in
  isQuitting s' = true
  ∧ signals s'
    = signals s ++ kill_signal s (onedriveProcess s)
      ++ kill_signal s (onedriveMonitorProcess s)
  ∧ (∀ w, authWindow s = Some w → window_destroyed s' w = true)
  ∧ same_runs s s' ∧ delivered s' = delivered s
  ∧ onedriveProcess s' = onedriveProcess s
  ∧ onedriveMonitorProcess s' = onedriveMonitorProcess s
  ∧ authWindow s' = authWindow s ∧ children s' = children s ∧ disk s' = disk s.
Proof.
  unfold beforeQuit, kill_signal, child_kill, process_kill, window_close, window_destroyed,
    same_runs.
  split_and!.
  all: try (repeat (case_match; simpl in *; simplify_eq; try done; try congruence);
            rewrite ?app_nil_r, <- ?(assoc_L (++)); done).
  intros w Hw.
  set (s3 := match onedriveMonitorProcess _ with Some _ => _ | None => _ end).
  assert (H3 : authWindow s3 = Some w).
  { rewrite <- Hw. unfold s3.
    repeat (case_match; simpl in *; simplify_eq; try done; try congruence). }
  rewrite H3. simpl. apply list_alter_lookup_destroyed.
Qed.

Lemma beforeQuit_ends_processes_witness :
  signals (beforeQuit window_open) = [(11, SIGTERM)]
  ∧ window_destroyed (beforeQuit window_open) 0 = true.
Proof.
  destruct (beforeQuit_ends_processes window_open) as (_ & Hk & Hw & _).
  split; [exact Hk | exact (Hw 0 eq_refl)].
Defined.
